(** * ssh_stress: the connection scheduler and the statistics core

    A shallow embedding of [ssh_stress.py]: the statistics reduction
    ([SSHstress._calculate_stats]), one connection attempt
    ([SSHstress._sftp], [SSHstress._ssh], [drop_all_timer]), the
    reap-then-refill scheduler ([SSHstress._hammer]) and the round runner
    ([SSHstress.stress_sftp], [SSHstress.stress_ssh]); further on, the
    chart ([gen_graph]), the list of usernames ([validate_names]) and
    the program that ties them together (lines 323-397).

    Python values are modelled the way the program holds them: durations
    are binary64 floats, counters are unbounded integers, dictionaries are
    insertion-ordered, and the dictionaries that are passed around by
    reference live in an object store. *)

From Stdlib Require Import ZArith Ascii PrimFloat SpecFloat FloatOps.
From Stdlib Require FloatAxioms.
From stdpp Require Import base list strings sorting pretty.

Local Open Scope Z_scope.
Set Warnings "-inexact-float".

(* ================================================================== *)
(** ** Exceptions and fallible computations *)

(** The exception classes the program can meet.  [OSError],
    [AsyncsshError] and [AsyncioTimeoutError] stand for the three classes
    named by the [except] clause of an attempt (subclasses included);
    [OtherException] is any class outside them, for instance
    [ValueError] or [asyncio.CancelledError]. *)
Inductive exn_class :=
  | ZeroDivisionError
  | TypeError
  | KeyError
  | OverflowError
  | RuntimeError
  | OSError
  | AsyncsshError
  | AsyncioTimeoutError
  | OtherException (name : string).

(** An exception instance: its class and [str(e)]. *)
Record exn := Exn { exn_class_of : exn_class; exn_str : string }.

Definition result (A : Type) : Type := exn + A.

Definition raise {A} (c : exn_class) (msg : string) : result A :=
  inl (Exn c msg).

Definition rbind {A B} (m : result A) (k : A → result B) : result B :=
  match m with
  | inl e => inl e
  | inr a => k a
  end.

Declare Scope result_scope.
Delimit Scope result_scope with result.
Notation "x ←ᵣ m ; k" := (rbind m (λ x, k))
  (at level 100, m at next level, right associativity) : result_scope.
Local Open Scope result_scope.

(* ================================================================== *)
(** ** Python numbers *)

(** The numbers of the statistics: an [int] (the literals [0] and the
    counters) or a [float] (every measured duration). *)
Inductive num :=
  | PyInt (z : Z)
  | PyFloat (f : float).

(** [float(z)]: nearest binary64, ties to even; [OverflowError] from
    [2^1024 - 2^970] on, the first integer that rounds past the largest
    finite float. *)
Definition float_of_int (z : Z) : result float :=
  if Z.abs z <? 2 ^ 1024 - 2 ^ 970
  then inr (SF2Prim (binary_normalize prec emax z 0 false))
  else raise OverflowError "int too large to convert to float".

Definition sf_of_int (z : Z) : spec_float :=
  match z with
  | Z0 => S754_zero false
  | Zpos p => S754_finite false p 0
  | Zneg p => S754_finite true p 0
  end.

(** [a / b] on two ints with [b <> 0]: the correctly rounded quotient. *)
Definition int_truediv (a b : Z) : result float :=
  match SFdiv prec emax (sf_of_int a) (sf_of_int b) with
  | S754_infinity _ =>
      raise OverflowError "integer division result too large for a float"
  | q => inr (SF2Prim q)
  end.

(** [a + f] with [f] a float: an int operand is converted first. *)
Definition py_add (a : num) (f : float) : result num :=
  match a with
  | PyFloat x => inr (PyFloat (x + f)%float)
  | PyInt z => x ←ᵣ float_of_int z; inr (PyFloat (x + f)%float)
  end.

Definition to_float (a : num) : result float :=
  match a with
  | PyInt z => float_of_int z
  | PyFloat x => inr x
  end.

(** [a / b]: true division, [ZeroDivisionError] on a zero divisor.  Two
    ints give the rounded exact quotient; otherwise an int operand is
    converted first. *)
Definition py_truediv (a b : num) : result num :=
  match a, b with
  | PyInt x, PyInt y =>
      if y =? 0 then raise ZeroDivisionError "division by zero"
      else q ←ᵣ int_truediv x y; inr (PyFloat q)
  | PyFloat x, PyInt y =>
      if y =? 0 then raise ZeroDivisionError "float division by zero"
      else d ←ᵣ float_of_int y; inr (PyFloat (x / d)%float)
  | _, PyFloat y =>
      x ←ᵣ to_float a;
      if (y =? 0)%float then raise ZeroDivisionError "float division by zero"
      else inr (PyFloat (x / y)%float)
  end.

(** [z < f] for an int and a float, compared exactly as Python does. *)
Definition int_lt_float (z : Z) (f : float) : bool :=
  match Prim2SF f with
  | S754_nan => false
  | S754_infinity s => negb s
  | S754_zero _ => z <? 0
  | S754_finite s m e =>
      let v := if s then Zneg m else Zpos m in
      if 0 <=? e then z <? v * 2 ^ e else z * 2 ^ (- e) <? v
  end.

Definition num_lt_float (a : num) (f : float) : bool :=
  match a with
  | PyInt z => int_lt_float z f
  | PyFloat x => (x <? f)%float
  end.

(** [max(a, f)]: the second argument only when it is strictly greater. *)
Definition py_max (a : num) (f : float) : num :=
  if num_lt_float a f then PyFloat f else a.

(** [min(a, f)] on floats: the second argument only when strictly smaller. *)
Definition py_min (a f : float) : float :=
  if (f <? a)%float then f else a.

(* ================================================================== *)
(** ** Dictionaries *)

(** A [dict]: its items in insertion order.  A well-formed one has no
    repeated key ([dict_wf]). *)
Abbreviation dict K V := (list (K * V)).

Section Dict.
Context {K V : Type} `{EqDecision K}.

Definition dict_keys (d : dict K V) : list K := d.*1.
Definition dict_values (d : dict K V) : list V := d.*2.
Definition dict_len (d : dict K V) : Z := Z.of_nat (length d).
Definition dict_wf (d : dict K V) : Prop := NoDup (dict_keys d).

(** [d[k]] *)
Fixpoint dict_get (d : dict K V) (k : K) : option V :=
  match d with
  | [] => None
  | (k', v) :: d' => if decide (k' = k) then Some v else dict_get d' k
  end.

(** [d[k] = v]: an existing key keeps its place, a new one goes last. *)
Fixpoint dict_set (d : dict K V) (k : K) (v : V) : dict K V :=
  match d with
  | [] => [(k, v)]
  | (k', v') :: d' =>
      if decide (k' = k) then (k', v) :: d' else (k', v') :: dict_set d' k v
  end.
End Dict.

(* ================================================================== *)
(** ** Outcomes, reports and the outside world *)

(** What an attempt leaves under ["results"]: the directory listing of
    [sftp.listdir], the completed process of [conn.run], or [str(e)]. *)
Inductive payload :=
  | Listing (names : list string)
  | Completed (stdout : string)
  | ErrorText (msg : string).

(** The [conn_stat] dictionary built by [_sftp] and [_ssh]; [conn_id] is
    its key ["id"]. *)
Record conn_stat := {
  conn_id : Z;
  success : bool;
  auth_time : option float;
  conn_time : option float;
  results : payload
}.

(** The per-round dictionary of [_calculate_stats] (lines 155-164);
    [D] is what ["conn_data"] holds: a reference in the store, the
    outcomes themselves in a report read back from it. *)
Record round_stats (D : Type) := {
  avg_auth_time : num;
  avg_conn_time : num;
  max_auth_time : num;
  max_conn_time : num;
  min_auth_time : float;
  min_conn_time : float;
  failed_conns : Z;
  conn_data : D
}.
Arguments avg_auth_time {D}.
Arguments avg_conn_time {D}.
Arguments max_auth_time {D}.
Arguments max_conn_time {D}.
Arguments min_auth_time {D}.
Arguments min_conn_time {D}.
Arguments failed_conns {D}.
Arguments conn_data {D}.

(** The [stats] dictionary (lines 112-120 and 165). *)
Record stats (R : Type) := {
  stress_type : string;
  rounds : Z;
  conns_per_round : Z;
  total_conns : Z;
  conns_per_sec : num;
  conn_wait : Z;
  global_wait : Z;
  round_data : R
}.
Arguments stress_type {R}.
Arguments rounds {R}.
Arguments conns_per_round {R}.
Arguments total_conns {R}.
Arguments conns_per_sec {R}.
Arguments conn_wait {R}.
Arguments global_wait {R}.
Arguments round_data {R}.

(** A report by value: what [json.dump] or [gen_graph] reads through the
    references of the [stats] dictionary. *)
Definition round_report : Type := round_stats (dict Z conn_stat).
Definition report : Type := stats (dict string round_report).

(** Milliseconds since the timer thread of the round was started. *)
Abbreviation time := Z.

(** What the network and the clock do to one attempt: the three
    [time.perf_counter()] readings, the outcome of each awaited call into
    asyncssh and asyncio, and the instant the protocol operation ends. *)
Record attempt_env := {
  perf_start : float;
  perf_auth : float;
  perf_end : float;
  connect : string → result unit;      (* asyncssh.connect(username=..) *)
  connect_exit : result unit;          (* its __aexit__ *)
  start_sftp_client : result unit;     (* conn.start_sftp_client() *)
  sftp_exit : result unit;             (* its __aexit__ *)
  operation : string → result payload; (* wait_for(listdir(path) / run(cmd)) *)
  operation_done : time;
  sleeping : result unit               (* the asyncio.sleep calls of the wait *)
}.

(** Everything outside the program.  [gen_graph] (lines 7-70) only reads
    the report and drives matplotlib, so it is taken from the world as a
    function of the report.  [attempts r i] is the environment of attempt
    [i] of round [r]; [completed r k ids] are the ids among the
    outstanding [ids] that have completed when the [k]-th
    [asyncio.wait] of round [r] returns; [patience] bounds the polls of
    the deadline flag an attempt is followed for.  The timer threads are
    never joined: [stale_timers r] are the instants, counted like every
    [time] of round [r] from the start of its own timer thread, at which
    the timer threads of the rounds before it end their sleep.
    [nan_delay] is what [asyncio.sleep] makes of a delay that is not a
    number: it returns before Python 3.13 and raises a [ValueError]
    from there on. *)
Record world := {
  gen_graph : report → result unit;
  attempts : nat → Z → attempt_env;
  completed : nat → nat → list Z → list Z;
  patience : nat;
  stale_timers : nat → list time;
  nan_delay : result unit
}.

(* ================================================================== *)
(** ** The object store *)

Abbreviation loc := nat.

(** The dictionaries that are shared by reference. *)
Inductive pyobj :=
  | ConnDict (c : conn_stat)
  | RoundDict (d : dict Z loc)           (* id -> conn_stat *)
  | RoundsDict (d : dict string loc)     (* round name -> dictionary *)
  | RoundStatsDict (r : round_stats loc)
  | StatsDict (s : stats (option loc)).  (* "round_data" is set last *)

Abbreviation store := (list pyobj).

(** Store-passing computations that may raise. *)
Definition M (A : Type) : Type := store → result A * store.

Definition ret {A} (a : A) : M A := λ h, (inr a, h).
Definition lift {A} (r : result A) : M A := λ h, (r, h).
Definition gets {A} (f : store → result A) : M A := λ h, (f h, h).
Definition bind {A B} (m : M A) (k : A → M B) : M B :=
  λ h, match m h with
       | (inl e, h') => (inl e, h')
       | (inr a, h') => k a h'
       end.

Declare Scope store_scope.
Delimit Scope store_scope with M.
Notation "x ←ₘ m ; k" := (bind m (λ x, k))
  (at level 100, m at next level, right associativity) : store_scope.
Local Open Scope store_scope.

(** A new dictionary object. *)
Definition alloc (o : pyobj) : M loc := λ h, (inr (length h), h ++ [o]).

Definition conn_at (h : store) (l : loc) : result conn_stat :=
  match h !! l with
  | Some (ConnDict c) => inr c
  | _ => raise TypeError "not an outcome dictionary"
  end.

Definition round_at (h : store) (l : loc) : result (dict Z loc) :=
  match h !! l with
  | Some (RoundDict d) => inr d
  | _ => raise TypeError "not a round dictionary"
  end.

Definition rounds_at (h : store) (l : loc) : result (dict string loc) :=
  match h !! l with
  | Some (RoundsDict d) => inr d
  | _ => raise TypeError "not a dictionary of rounds"
  end.

(** [d[k] = v] on the dictionary of rounds stored at [l]. *)
Definition setitem_rounds (l : loc) (k : string) (v : loc) : M unit :=
  λ h, match h !! l with
       | Some (RoundsDict d) => (inr tt, <[l := RoundsDict (dict_set d k v)]> h)
       | _ => (raise TypeError "not a dictionary of rounds", h)
       end.

(** [stats["round_data"] = rounds_dict] *)
Definition set_round_data (l : loc) (rounds_dict : loc) : M unit :=
  λ h, match h !! l with
       | Some (StatsDict s) =>
           (inr tt,
            <[l := StatsDict {| stress_type := stress_type s;
                                rounds := rounds s;
                                conns_per_round := conns_per_round s;
                                total_conns := total_conns s;
                                conns_per_sec := conns_per_sec s;
                                conn_wait := conn_wait s;
                                global_wait := global_wait s;
                                round_data := Some rounds_dict |}]> h)
       | _ => (raise TypeError "not a stats dictionary", h)
       end.

(** *** Reading a report back by value *)

Fixpoint outcomes_at (h : store) (d : dict Z loc) : result (dict Z conn_stat) :=
  match d with
  | [] => inr []
  | (k, l) :: d' =>
      c ←ᵣ conn_at h l;
      cs ←ᵣ outcomes_at h d';
      inr ((k, c) :: cs)
  end.

Definition round_report_at (h : store) (l : loc) : result round_report :=
  match h !! l with
  | Some (RoundStatsDict r) =>
      d ←ᵣ round_at h (conn_data r);
      cs ←ᵣ outcomes_at h d;
      inr {| avg_auth_time := avg_auth_time r;
             avg_conn_time := avg_conn_time r;
             max_auth_time := max_auth_time r;
             max_conn_time := max_conn_time r;
             min_auth_time := min_auth_time r;
             min_conn_time := min_conn_time r;
             failed_conns := failed_conns r;
             conn_data := cs |}
  | _ => raise TypeError "not a round statistics dictionary"
  end.

Fixpoint round_reports_at (h : store) (d : dict string loc)
  : result (dict string round_report) :=
  match d with
  | [] => inr []
  | (k, l) :: d' =>
      r ←ᵣ round_report_at h l;
      rs ←ᵣ round_reports_at h d';
      inr ((k, r) :: rs)
  end.

Definition report_at (h : store) (l : loc) : result report :=
  match h !! l with
  | Some (StatsDict s) =>
      match round_data s with
      | Some rl =>
          d ←ᵣ rounds_at h rl;
          rs ←ᵣ round_reports_at h d;
          inr {| stress_type := stress_type s;
                 rounds := rounds s;
                 conns_per_round := conns_per_round s;
                 total_conns := total_conns s;
                 conns_per_sec := conns_per_sec s;
                 conn_wait := conn_wait s;
                 global_wait := global_wait s;
                 round_data := rs |}
      | None => raise KeyError "round_data"
      end
  | _ => raise TypeError "not a stats dictionary"
  end.

(* ================================================================== *)
(** ** [SSHstress._calculate_stats] *)

(** The running values of one round (the locals of lines 124-131). *)
Record totals := {
  total_auth_time : num;
  total_conn_time : num;
  max_auth : num;
  max_conn : num;
  min_auth : float;
  min_conn : float;
  total_failed : Z
}.

Definition totals_init : totals :=
  {| total_auth_time := PyInt 0;
     total_conn_time := PyInt 0;
     max_auth := PyInt 0;
     max_conn := PyInt 0;
     min_auth := infinity;
     min_conn := infinity;
     total_failed := 0 |}.

(** The body of the inner loop (lines 134-146).  Adding [None] to a
    number is a [TypeError]. *)
Definition add_outcome (t : totals) (data : conn_stat) : result totals :=
  if success data then
    match auth_time data with
    | None => raise TypeError "unsupported operand type(s) for +="
    | Some a =>
        ta ←ᵣ py_add (total_auth_time t) a;
        match conn_time data with
        | None => raise TypeError "unsupported operand type(s) for +="
        | Some c =>
            tc ←ᵣ py_add (total_conn_time t) c;
            inr {| total_auth_time := ta;
                   total_conn_time := tc;
                   max_auth := py_max (max_auth t) a;
                   max_conn := py_max (max_conn t) c;
                   min_auth := py_min (min_auth t) a;
                   min_conn := py_min (min_conn t) c;
                   total_failed := total_failed t |}
        end
    end
  else
    inr {| total_auth_time := total_auth_time t;
           total_conn_time := total_conn_time t;
           max_auth := max_auth t;
           max_conn := max_conn t;
           min_auth := min_auth t;
           min_conn := min_conn t;
           total_failed := total_failed t + 1 |}.

(** [for data in round_data.values()] (line 133) *)
Fixpoint sum_outcomes (t : totals) (values : list conn_stat) : result totals :=
  match values with
  | [] => inr t
  | data :: rest =>
      t' ←ᵣ add_outcome t data;
      sum_outcomes t' rest
  end.

(** The [try] of lines 147-153: a [ZeroDivisionError] in either division
    sets both averages to the int [0]. *)
Definition averages (t : totals) (n_conns : Z) : result (num * num) :=
  match
    (a ←ᵣ py_truediv (total_auth_time t) (PyInt (n_conns - total_failed t));
     c ←ᵣ py_truediv (total_conn_time t) (PyInt (n_conns - total_failed t));
     inr (a, c))
  with
  | inl (Exn ZeroDivisionError _) => inr (PyInt 0, PyInt 0)
  | r => r
  end.

(** Lines 124-164 on the outcomes of one round; [round_data] is what
    goes under ["conn_data"]. *)
Definition summarize {D} (values : list conn_stat) (round_data : D)
  : result (round_stats D) :=
  let n_conns := Z.of_nat (length values) in
  t ←ᵣ sum_outcomes totals_init values;
  avg ←ᵣ averages t n_conns;
  inr {| avg_auth_time := avg.1;
         avg_conn_time := avg.2;
         max_auth_time := max_auth t;
         max_conn_time := max_conn t;
         min_auth_time := min_auth t;
         min_conn_time := min_conn t;
         failed_conns := total_failed t;
         conn_data := round_data |}.

(** One iteration of the outer loop up to the dictionary literal: the
    round is read from the store, which is left as it is. *)
Definition round_stats_of (h : store) (round_data : loc)
  : result (round_stats loc) :=
  d ←ᵣ round_at h round_data;
  cs ←ᵣ outcomes_at h d;
  summarize (dict_values cs) round_data.

(** [for round_name, round_data in perf_times.items()] (lines 123-164) *)
Fixpoint for_rounds (rounds_dict : loc) (items : dict string loc) : M unit :=
  match items with
  | [] => ret tt
  | (round_name, round_data) :: rest =>
      r ←ₘ gets (λ h, round_stats_of h round_data);
      entry ←ₘ alloc (RoundStatsDict r);
      _ ←ₘ setitem_rounds rounds_dict round_name entry;
      for_rounds rounds_dict rest
  end.

Definition _calculate_stats (w : world) (perf_times : loc) (conns rounds : Z)
    (conns_per_sec : num) (conn_wait global_wait : Z) (graph : bool)
    (stress_type : string) : M loc :=
  stats ←ₘ alloc (StatsDict {| stress_type := stress_type;
                               rounds := rounds;
                               conns_per_round := conns;
                               total_conns := conns * rounds;
                               conns_per_sec := conns_per_sec;
                               conn_wait := conn_wait;
                               global_wait := global_wait;
                               round_data := None |});
  rounds_dict ←ₘ alloc (RoundsDict []);
  items ←ₘ gets (λ h, rounds_at h perf_times);
  _ ←ₘ for_rounds rounds_dict items;
  _ ←ₘ set_round_data stats rounds_dict;
  _ ←ₘ (if graph
        then gets (λ h, data ←ᵣ report_at h stats; gen_graph w data)
        else ret tt);
  ret stats.

(** *** The same computation on values *)

(** [stats["round_data"][name]], as the store holds it. *)
Definition lookup_round (h : store) (stats : loc) (name : string)
  : option (round_stats loc) :=
  match h !! stats with
  | Some (StatsDict s) =>
      match round_data s with
      | Some rl =>
          match h !! rl with
          | Some (RoundsDict d) =>
              match dict_get d name with
              | Some e =>
                  match h !! e with
                  | Some (RoundStatsDict r) => Some r
                  | _ => None
                  end
              | None => None
              end
          | _ => None
          end
      | None => None
      end
  | _ => None
  end.

(** The argument [perf_times] read by value: every round with its
    outcome records. *)
Fixpoint snapshot_rounds (h : store) (items : dict string loc)
  : result (dict string (dict Z conn_stat)) :=
  match items with
  | [] => inr []
  | (name, l) :: rest =>
      d ←ᵣ round_at h l;
      cs ←ᵣ outcomes_at h d;
      rs ←ᵣ snapshot_rounds h rest;
      inr ((name, cs) :: rs)
  end.

Definition snapshot (h : store) (perf_times : loc)
  : result (dict string (dict Z conn_stat)) :=
  items ←ᵣ rounds_at h perf_times;
  snapshot_rounds h items.

(** What a call leaves, by value: the exception, or the report. *)
Definition by_value (out : result loc * store) : result report :=
  l ←ᵣ out.1; report_at out.2 l.

(** The report as a function of the rounds by value. *)
Fixpoint summaries (input : dict string (dict Z conn_stat))
  : result (list (string * round_report)) :=
  match input with
  | [] => inr []
  | (name, cs) :: rest =>
      r ←ᵣ summarize (dict_values cs) cs;
      rs ←ᵣ summaries rest;
      inr ((name, r) :: rs)
  end.

Definition report_of (w : world) (input : dict string (dict Z conn_stat))
    (conns rounds : Z) (conns_per_sec : num) (conn_wait global_wait : Z)
    (graph : bool) (stress_type : string) : result report :=
  rs ←ᵣ summaries input;
  let data :=
    {| stress_type := stress_type;
       rounds := rounds;
       conns_per_round := conns;
       total_conns := conns * rounds;
       conns_per_sec := conns_per_sec;
       conn_wait := conn_wait;
       global_wait := global_wait;
       round_data := foldl (λ acc nr, dict_set acc nr.1 nr.2) [] rs |} in
  _ ←ᵣ (if graph then gen_graph w data else inr tt);
  inr data.

(* ================================================================== *)
(** ** One attempt: [drop_all_timer], [_sftp], [_ssh] *)

(** [time.sleep(secs)] for an int (line 80): the seconds are first turned
    into a signed 64-bit count of nanoseconds, an [OverflowError] when
    they do not fit, and a negative length is then refused with a
    [ValueError]. *)
Definition time_sleep (secs : Z) : result unit :=
  if (secs <? - 9223372036) || (9223372036 <? secs)
  then raise OverflowError "timestamp too large to convert to C _PyTime_t"
  else if secs <? 0
  then raise (OtherException "ValueError") "sleep length must be non-negative"
  else inr tt.

(** The global [wait] as [drop_all_timer n] writes it, read [t]
    milliseconds after the thread was started: never set for [n = 0],
    set until [time.sleep(n)] returns, and left set when [time.sleep]
    raises, which ends the thread before line 82. *)
Definition drop_all_timer (n : Z) (t : time) : bool :=
  if n =? 0 then false
  else match time_sleep n with
       | inl _ => true
       | inr _ => t <? 1000 * n
       end.

(** The global [wait] as the attempts of a round read it: there is one
    flag for all timer threads.  The thread of the round has set it when
    the first attempt gets to read it; a thread of an earlier round that
    is still asleep then was started with the same [n], and clears the
    flag at the instant it wakes, ahead of the round's own thread. *)
Definition wait_flag (n : Z) (stale : list time) (t : time) : bool :=
  drop_all_timer n t
  && match time_sleep n with
     | inl _ => true
     | inr _ => forallb (λ woke, (woke <=? 0) || (t <? woke)) stale
     end.

(** An awaited computation: [None] when it never completes. *)
Definition async (A : Type) : Type := option (result A).

(** [while wait: await asyncio.sleep(0.1)], entered at [t]: the instant
    the loop is left, if it is left within [fuel] polls.  A sleep is
    counted at its nominal length; the event loop may make it longer. *)
Fixpoint poll (fuel : nat) (wait : time → bool) (t : time) : option time :=
  match fuel with
  | O => None
  | S fuel' => if wait t then poll fuel' wait (t + 100) else Some t
  end.

(** Lines 191-195 (and 239-243): the instant [conn.close()] is reached
    by an attempt whose operation ended at [t]. *)
Definition wait_phase (fuel : nat) (wait : time → bool) (t : time)
    (conn_wait : Z) : option time :=
  if wait t then poll fuel wait t
  else Some (t + 1000 * Z.max 0 conn_wait).

(** [async with cm as x: body]: [__aexit__] runs when the body is left,
    and what it raises replaces what the body did.  The managers of
    asyncssh do not swallow exceptions. *)
Definition async_with {A} (enter exit_ : result unit) (body : async A)
  : async A :=
  match enter with
  | inl e => Some (inl e)
  | inr _ =>
      match body with
      | None => None
      | Some r =>
          match exit_ with
          | inl e => Some (inl e)
          | inr _ => Some r
          end
      end
  end.

(** [except (OSError, asyncssh.Error, asyncio.TimeoutError) as e] *)
Definition caught (e : exn) : bool :=
  match exn_class_of e with
  | OSError | AsyncsshError | AsyncioTimeoutError => true
  | _ => false
  end.

(** The handler of lines 209-219 and 257-267. *)
Definition failed_stat (count : Z) (e : exn) : conn_stat :=
  {| conn_id := count;
     success := false;
     auth_time := None;
     conn_time := None;
     results := ErrorText (exn_str e) |}.

Definition try_except (body : async conn_stat) (count : Z) : async conn_stat :=
  match body with
  | Some (inl e) => if caught e then Some (inr (failed_stat count e)) else Some (inl e)
  | r => r
  end.

(** Operation, wait, close and the success dictionary (lines 190-207,
    238-255). *)
Definition operate_and_hold (fuel : nat) (wait : time → bool)
    (env : attempt_env) (count : Z) (conn_wait : Z) (arg : string)
    (start_time auth_time : float) : async conn_stat :=
  match operation env arg with
  | inl e => Some (inl e)
  | inr result =>
      match sleeping env with
      | inl e => Some (inl e)
      | inr _ =>
          match wait_phase fuel wait (operation_done env) conn_wait with
          | None => None
          | Some _ =>
              let total_time := (perf_end env - start_time)%float in
              Some (inr {| conn_id := count;
                           success := true;
                           auth_time := Some auth_time;
                           conn_time := Some total_time;
                           results := result |})
          end
      end
  end.

Definition _sftp (fuel : nat) (wait : time → bool) (env : attempt_env)
    (count : Z) (user : string) (conn_wait : Z) (sftp_ls : string)
  : async conn_stat :=
  try_except
    (let start_time := perf_start env in
     async_with (connect env user) (connect_exit env)
       (let auth_time := (perf_auth env - start_time)%float in
        async_with (start_sftp_client env) (sftp_exit env)
          (operate_and_hold fuel wait env count conn_wait sftp_ls
             start_time auth_time)))
    count.

Definition _ssh (fuel : nat) (wait : time → bool) (env : attempt_env)
    (count : Z) (user : string) (conn_wait : Z) : async conn_stat :=
  try_except
    (let start_time := perf_start env in
     async_with (connect env user) (connect_exit env)
       (let auth_time := (perf_auth env - start_time)%float in
        operate_and_hold fuel wait env count conn_wait "dir"
          start_time auth_time))
    count.

(* ================================================================== *)
(** ** The instance: [SSHstress.__init__] *)

(** [itertools.cycle]: the saved items and the position of the next. *)
Record cycle := {
  saved : list string;
  position : nat
}.

Definition cycle_new (items : list string) : cycle :=
  {| saved := items; position := 0 |}.

(** [next(c)]: [None] is [StopIteration], from an empty cycle. *)
Definition cycle_next (c : cycle) : option (string * cycle) :=
  match saved c !! position c with
  | Some u =>
      Some (u, {| saved := saved c;
                  position := if decide (S (position c) = length (saved c))
                              then 0%nat else S (position c) |})
  | None => None
  end.

Record SSHstress := {
  user : cycle;
  host : string;
  port : Z;
  ssh_key : string;
  ssh_pw : option string;
  timeout : num;
  max_concurrent_tasks : Z
}.

(** Lines 85-109.  [expanded] and [key_exists] are what
    [os.path.expanduser] and [os.path.exists] answer for [ssh_key];
    [None] is [sys.exit(2)]. *)
Definition __init__ (expanded : string → string) (key_exists : bool)
    (target_address : string) (target_users : list string) (target_port : Z)
    (ssh_key : string) (ssh_pw : option string) (timeout : num)
    (max_concurrent_tasks : Z) : option SSHstress :=
  let ssh_key := if key_exists then ssh_key else "" in
  let no_pw := match ssh_pw with None | Some "" => true | _ => false end in
  if no_pw && bool_decide (ssh_key = "") then None
  else Some {| user := cycle_new target_users;
               host := target_address;
               port := target_port;
               ssh_key := expanded ssh_key;
               ssh_pw := ssh_pw;
               timeout := timeout;
               max_concurrent_tasks := max_concurrent_tasks |}.

(* ================================================================== *)
(** ** The scheduler: [SSHstress._hammer] *)

(** A task created by [asyncio.create_task]: the arguments of its
    attempt. *)
Record task := {
  task_id : Z;
  task_user : string
}.

(** Where the scheduler stands: at the test of the outer [while] (line
    280), at the test of the inner one (line 287), or at the [await]
    that follows a launch (line 295). *)
Inductive place := AtWhile | AtRefill | AtSleep.

(** The locals of [_hammer] and what it changes outside: [users] is
    [self.user], [waits] counts the calls of [asyncio.wait], [opened]
    lists the attempts started so far, in the order of their first line
    of output. *)
Record hammer_state := {
  at_ : place;
  count : Z;
  tasks : list task;
  perf_times : dict Z conn_stat;
  users : cycle;
  waits : nat;
  opened : list task
}.

Inductive step_result :=
  | Next (s : hammer_state)
  | Return_ (s : hammer_state)
  | Raise_ (e : exn)
  | Never.

Inductive run_result :=
  | Returned (s : hammer_state)
  | Raised (e : exn)
  | Blocked
  | OutOfFuel.

(** [await asyncio.sleep(delay)] as line 295 calls it.  A delay that is
    not positive gives way to the other tasks once and returns; after
    that test a delay that is not a number is the library's to judge.
    Otherwise a timer is set on the clock of the loop, whose readings
    are floats: an infinite delay sets one that never fires, and an int
    too large for a float cannot be added to the clock. *)
Definition asyncio_sleep (w : world) (delay : num) : async unit :=
  match delay with
  | PyInt z =>
      if z <=? 0 then Some (inr tt)
      else Some (_ ←ᵣ float_of_int z; inr tt)
  | PyFloat f =>
      if (f <=? 0)%float then Some (inr tt)
      else if is_nan f then Some (nan_delay w)
      else if is_infinity f then None
      else Some (inr tt)
  end.

Section Hammer.
Variable w : world.
Variable round : nat.
Variable self : SSHstress.
Variable conns : Z.
Variable conn_wait : Z.
Variable global_wait : Z.
Variable sftp : bool.
Variable sftp_ls : string.

(** The coroutine of a task (lines 289-292), under the flag as the
    timer threads leave it in this round. *)
Definition attempt (t : task) : async conn_stat :=
  let wait := wait_flag global_wait (stale_timers w round) in
  let env := attempts w round (task_id t) in
  if sftp
  then _sftp (patience w) wait env (task_id t) (task_user t) conn_wait sftp_ls
  else _ssh (patience w) wait env (task_id t) (task_user t) conn_wait.

(** A task is in the [done] set of a wait when the world reports its id
    completed and its coroutine has an outcome. *)
Definition finished (ids : list Z) (t : task) : async conn_stat :=
  if bool_decide (task_id t ∈ ids) then attempt t else None.

(** [for task in done] (lines 283-285): [task.result()] re-raises what
    the coroutine raised. *)
Fixpoint reap (done : list (result conn_stat)) (perf_times : dict Z conn_stat)
  : result (dict Z conn_stat) :=
  match done with
  | [] => inr perf_times
  | inl e :: _ => inl e
  | inr results :: rest =>
      reap rest (dict_set perf_times (conn_id results) results)
  end.

(** One test of a loop condition together with the statements it
    guards, up to the next test or the next [await]; the delay between
    two launches is a step of its own. *)
Definition step (loop_speed : num) (s : hammer_state) : step_result :=
  match at_ s with
  | AtWhile =>
      match tasks s with
      | [] =>
          if count s <? conns
          then Next {| at_ := AtRefill; count := count s; tasks := [];
                       perf_times := perf_times s; users := users s;
                       waits := waits s; opened := opened s |}
          else Return_ s
      | _ :: _ =>
          let ids := completed w round (waits s) (task_id <$> tasks s) in
          match omap (finished ids) (tasks s) with
          | [] => Never
          | done =>
              match reap done (perf_times s) with
              | inl e => Raise_ e
              | inr perf_times' =>
                  Next {| at_ := AtRefill; count := count s;
                          tasks := filter (λ t, finished ids t = None) (tasks s);
                          perf_times := perf_times'; users := users s;
                          waits := S (waits s); opened := opened s |}
              end
          end
      end
  | AtRefill =>
      if (count s <? conns)
         && (Z.of_nat (length (tasks s)) <? max_concurrent_tasks self)
      then
        match cycle_next (users s) with
        | None => Raise_ (Exn RuntimeError "coroutine raised StopIteration")
        | Some (u, users') =>
            let t := {| task_id := count s + 1; task_user := u |} in
            Next {| at_ := AtSleep; count := count s + 1;
                    tasks := tasks s ++ [t];
                    perf_times := perf_times s; users := users';
                    waits := waits s; opened := opened s ++ [t] |}
        end
      else Next {| at_ := AtWhile; count := count s; tasks := tasks s;
                   perf_times := perf_times s; users := users s;
                   waits := waits s; opened := opened s |}
  | AtSleep =>
      match asyncio_sleep w loop_speed with
      | None => Never
      | Some (inl e) => Raise_ e
      | Some (inr _) =>
          Next {| at_ := AtRefill; count := count s; tasks := tasks s;
                  perf_times := perf_times s; users := users s;
                  waits := waits s; opened := opened s |}
      end
  end.

(** The state after [n] steps, while the loop goes on. *)
Fixpoint steps (loop_speed : num) (n : nat) (s : hammer_state)
  : option hammer_state :=
  match n with
  | O => Some s
  | S n' =>
      match step loop_speed s with
      | Next s' => steps loop_speed n' s'
      | _ => None
      end
  end.

Fixpoint run (loop_speed : num) (fuel : nat) (s : hammer_state) : run_result :=
  match fuel with
  | O => OutOfFuel
  | S fuel' =>
      match step loop_speed s with
      | Next s' => run loop_speed fuel' s'
      | Return_ s' => Returned s'
      | Raise_ e => Raised e
      | Never => Blocked
      end
  end.

(** Lines 277-279. *)
Definition hammer_init : hammer_state :=
  {| at_ := AtWhile; count := 0; tasks := []; perf_times := [];
     users := user self; waits := 0; opened := [] |}.

(** [_hammer]: the pacing delay is computed first (line 271), then the
    timer thread is started and the loop runs. *)
Definition _hammer (fuel : nat) (conns_per_sec : num) : run_result :=
  match py_truediv (PyInt 1) conns_per_sec with
  | inl e => Raised e
  | inr loop_speed => run loop_speed fuel hammer_init
  end.
End Hammer.

(* ================================================================== *)
(** ** The round runner: [stress_sftp], [stress_ssh] *)

(** [{k: times[k] for k in sorted(times)}] (lines 305, 317) *)
Fixpoint comprehension (times : dict Z conn_stat) (ks : list Z)
    (acc : dict Z conn_stat) : result (dict Z conn_stat) :=
  match ks with
  | [] => inr acc
  | k :: ks' =>
      match dict_get times k with
      | Some v => comprehension times ks' (dict_set acc k v)
      | None => raise KeyError (pretty k)
      end
  end.

Definition sorted_by_id (times : dict Z conn_stat) : result (dict Z conn_stat) :=
  comprehension times (merge_sort Z.le (dict_keys times)) [].

(** The outcome dictionaries of a round enter the store with the
    dictionary that holds them. *)
Fixpoint store_outcomes (times : dict Z conn_stat) : M (dict Z loc) :=
  match times with
  | [] => ret []
  | (k, c) :: rest =>
      l ←ₘ alloc (ConnDict c);
      d ←ₘ store_outcomes rest;
      ret ((k, l) :: d)
  end.

Definition store_round (times : dict Z conn_stat) : M loc :=
  d ←ₘ store_outcomes times;
  alloc (RoundDict d).

(** What a run leaves besides its report: the instance with its advanced
    username rotation, the rounds announced by ["Round n started!"], and
    the attempts opened, round by round. *)
Record run_log := {
  instance : SSHstress;
  started : list Z;
  launched : list (list task)
}.

Inductive outcome (A : Type) :=
  | Finished (a : A)
  | Crashed (e : exn)
  | Hung
  | Unfinished.
Arguments Finished {A}.
Arguments Crashed {A}.
Arguments Hung {A}.
Arguments Unfinished {A}.

Definition with_user (self : SSHstress) (c : cycle) : SSHstress :=
  {| user := c; host := host self; port := port self;
     ssh_key := ssh_key self; ssh_pw := ssh_pw self;
     timeout := timeout self;
     max_concurrent_tasks := max_concurrent_tasks self |}.

Section Runner.
Variable w : world.
Variable fuel : nat.
Variable conns : Z.
Variable conn_wait : Z.
Variable global_wait : Z.
Variable conns_per_sec : num.
Variable sftp : bool.
Variable sftp_ls : string.

(** [for stress_round in range(rounds)] (lines 301-306, 313-318);
    [all_rounds] is the runner's [perf_times], [todo] the values of
    [range(rounds)] still to come. *)
Fixpoint for_stress_rounds (all_rounds : loc) (todo : list nat) (log : run_log)
    (h : store) : outcome run_log * store :=
  match todo with
  | [] => (Finished log, h)
  | r :: rest =>
      let stress_round := Z.of_nat r + 1 in
      let log1 := {| instance := instance log;
                     started := started log ++ [stress_round];
                     launched := launched log |} in
      match _hammer w r (instance log1) conns conn_wait global_wait sftp
              sftp_ls fuel conns_per_sec with
      | Returned s =>
          match sorted_by_id (perf_times s) with
          | inl e => (Crashed e, h)
          | inr times =>
              match store_round times h with
              | (inl e, h1) => (Crashed e, h1)
              | (inr times_loc, h1) =>
                  match setitem_rounds all_rounds
                          ("round_" +:+ pretty stress_round) times_loc h1 with
                  | (inl e, h2) => (Crashed e, h2)
                  | (inr _, h2) =>
                      for_stress_rounds all_rounds rest
                        {| instance := with_user (instance log1) (users s);
                           started := started log1;
                           launched := launched log1 ++ [opened s] |} h2
                  end
              end
          end
      | Raised e => (Crashed e, h)
      | Blocked => (Hung, h)
      | OutOfFuel => (Unfinished, h)
      end
  end.

(** The common body of [stress_sftp] and [stress_ssh]. *)
Definition stress (self : SSHstress) (rounds : Z) (graph : bool)
    (stress_type : string) (h : store) : outcome (loc * run_log) * store :=
  match alloc (RoundsDict []) h with
  | (inl e, h0) => (Crashed e, h0)
  | (inr all_rounds, h0) =>
      match for_stress_rounds all_rounds (seq 0 (Z.to_nat rounds))
              {| instance := self; started := []; launched := [] |} h0 with
      | (Finished log, h1) =>
          match _calculate_stats w all_rounds conns rounds conns_per_sec
                  conn_wait global_wait graph stress_type h1 with
          | (inl e, h2) => (Crashed e, h2)
          | (inr stats, h2) => (Finished (stats, log), h2)
          end
      | (Crashed e, h1) => (Crashed e, h1)
      | (Hung, h1) => (Hung, h1)
      | (Unfinished, h1) => (Unfinished, h1)
      end
  end.
End Runner.

Definition stress_sftp (w : world) (fuel : nat) (self : SSHstress)
    (conns conn_wait global_wait : Z) (path : string) (conns_per_sec : num)
    (rounds : Z) (graph : bool) : store → outcome (loc * run_log) * store :=
  stress w fuel conns conn_wait global_wait conns_per_sec true path
    self rounds graph "SFTP".

Definition stress_ssh (w : world) (fuel : nat) (self : SSHstress)
    (conns conn_wait global_wait : Z) (conns_per_sec : num)
    (rounds : Z) (graph : bool) : store → outcome (loc * run_log) * store :=
  stress w fuel conns conn_wait global_wait conns_per_sec false "/"
    self rounds graph "SSH".

(** The objects [_calculate_stats] reads. *)
Definition is_input (o : pyobj) : bool :=
  match o with
  | ConnDict _ | RoundDict _ => true
  | _ => false
  end.

(** Two stores that hold the same outcome and round dictionaries. *)
Definition same_inputs (h h' : store) : Prop :=
  ∀ l, conn_at h l = conn_at h' l ∧ round_at h l = round_at h' l.

(** The per-round dictionaries of a list of rounds. *)
Fixpoint stats_list (h : store) (items : dict string loc)
  : result (list (round_stats loc)) :=
  match items with
  | [] => inr []
  | (_, round_data) :: rest =>
      r ←ᵣ round_stats_of h round_data;
      rs ←ᵣ stats_list h rest;
      inr (r :: rs)
  end.

(** [acc] after [acc[name] = n], [acc[name'] = n + 1], ... *)
Fixpoint extend {V} (f : nat → V) (acc : dict string V) (names : list string) (n : nat)
  : dict string V :=
  match names with
  | [] => acc
  | name :: rest => extend f (dict_set acc name (f n)) rest (S n)
  end.

(** The [stats] dictionary as line 112 builds it. *)
Definition stats_literal {R} (conns rounds : Z) (conns_per_sec : num)
    (conn_wait global_wait : Z) (stress_type : string) (round_data : R)
  : stats R :=
  {| stress_type := stress_type;
     rounds := rounds;
     conns_per_round := conns;
     total_conns := conns * rounds;
     conns_per_sec := conns_per_sec;
     conn_wait := conn_wait;
     global_wait := global_wait;
     round_data := round_data |}.

(** A round dictionary with something else under ["conn_data"]. *)
Definition with_data {D D'} (r : round_stats D) (d : D') : round_stats D' :=
  {| avg_auth_time := avg_auth_time r;
     avg_conn_time := avg_conn_time r;
     max_auth_time := max_auth_time r;
     max_conn_time := max_conn_time r;
     min_auth_time := min_auth_time r;
     min_conn_time := min_conn_time r;
     failed_conns := failed_conns r;
     conn_data := d |}.

(** [sys.maxsize] of a 64-bit CPython: no container is longer. *)
Definition sys_maxsize : Z := 2 ^ 63 - 1.

(** The invariant of an outcome record: a success carries both
    durations. *)
Definition well_formed (c : conn_stat) : bool :=
  implb (success c) (bool_decide (is_Some (auth_time c))
                     && bool_decide (is_Some (conn_time c))).

(** A round of well-formed outcomes that fits in memory. *)
Definition round_ok (cs : dict Z conn_stat) : bool :=
  forallb well_formed (dict_values cs) && (dict_len cs <=? sys_maxsize).

(** A round without a single success. *)
Definition no_success (cs : dict Z conn_stat) : bool :=
  forallb (λ c, negb (success c)) (dict_values cs).

(** The totals are still the ints they started as, with every outcome
    so far a failure, or both sums have become floats. *)
Definition totals_inv (t : totals) (seen : Z) : Prop :=
  0 ≤ total_failed t ≤ seen ∧
  ((total_auth_time t = PyInt 0 ∧ total_conn_time t = PyInt 0
    ∧ total_failed t = seen)
   ∨ (∃ a c, total_auth_time t = PyFloat a ∧ total_conn_time t = PyFloat c)).

(** *** Sample data *)
(** An attempt that meets no failure and no deadline. *)
Definition smooth_attempt : attempt_env :=
  {| perf_start := 10; perf_auth := 10.5; perf_end := 12;
     connect := λ _, inr tt; connect_exit := inr tt;
     start_sftp_client := inr tt; sftp_exit := inr tt;
     operation := λ _, inr (Listing ["etc"; "home"]);
     operation_done := 500; sleeping := inr tt |}.

(** A world where every attempt is smooth and every outstanding task
    has completed at each wait. *)
Definition smooth_world : world :=
  {| gen_graph := λ _, inr tt;
     attempts := λ _ _, smooth_attempt;
     completed := λ _ _ ids, ids;
     patience := 16;
     stale_timers := λ _, [];
     nan_delay := inr tt |}.

Definition succeeded (i : Z) (auth total : float) : conn_stat :=
  {| conn_id := i; success := true; auth_time := Some auth;
     conn_time := Some total; results := Listing ["etc"; "home"] |}.

(** Two rounds in the store: in ["round_1"] (at 4) outcome 3 fails and
    outcomes 1, 2 and 4 authenticate in 0.1, 0.2 and 0.3 seconds; in
    ["round_2"] (at 7) both outcomes fail. *)
Definition sample_store : store :=
  [ ConnDict (succeeded 1 0.1 1.5);
    ConnDict (succeeded 2 0.2 2.5);
    ConnDict (failed_stat 3 (Exn OSError "Connection refused"));
    ConnDict (succeeded 4 0.3 3.5);
    RoundDict [(1, 0%nat); (2, 1%nat); (3, 2%nat); (4, 3%nat)];
    ConnDict (failed_stat 1 (Exn AsyncioTimeoutError ""));
    ConnDict (failed_stat 2 (Exn AsyncsshError "Permission denied"));
    RoundDict [(1, 5%nat); (2, 6%nat)];
    RoundsDict [("round_1", 4%nat); ("round_2", 7%nat)] ].

Definition sample_rounds : dict string (dict Z conn_stat) :=
  [ ("round_1", [ (1, succeeded 1 0.1 1.5);
                  (2, succeeded 2 0.2 2.5);
                  (3, failed_stat 3 (Exn OSError "Connection refused"));
                  (4, succeeded 4 0.3 3.5) ]);
    ("round_2", [ (1, failed_stat 1 (Exn AsyncioTimeoutError ""));
                  (2, failed_stat 2 (Exn AsyncsshError "Permission denied")) ]) ].

(** The rounds of [sample_store] once more, stored elsewhere. *)
Definition moved_store : store :=
  [ RoundsDict [("round_1", 5%nat); ("round_2", 8%nat)];
    ConnDict (succeeded 4 0.3 3.5);
    ConnDict (failed_stat 3 (Exn OSError "Connection refused"));
    ConnDict (succeeded 2 0.2 2.5);
    ConnDict (succeeded 1 0.1 1.5);
    RoundDict [(1, 4%nat); (2, 3%nat); (3, 2%nat); (4, 1%nat)];
    ConnDict (failed_stat 2 (Exn AsyncsshError "Permission denied"));
    ConnDict (failed_stat 1 (Exn AsyncioTimeoutError ""));
    RoundDict [(1, 7%nat); (2, 6%nat)] ].

(** *** Failures of an attempt *)

(** The exception [e] is what one of the awaited calls of the attempt
    raises; the calls of the SFTP client only count for [_sftp]. *)
Definition raised_in (sftp : bool) (env : attempt_env) (user arg : string)
    (e : exn) : Prop :=
  connect env user = inl e
  ∨ connect_exit env = inl e
  ∨ (sftp = true ∧ start_sftp_client env = inl e)
  ∨ (sftp = true ∧ sftp_exit env = inl e)
  ∨ operation env arg = inl e
  ∨ sleeping env = inl e.


(** The coroutine of either kind. *)
Definition coroutine (sftp : bool) (fuel : nat) (wait : time → bool)
    (env : attempt_env) (count : Z) (user : string) (conn_wait : Z)
    (sftp_ls : string) : async conn_stat :=
  if sftp then _sftp fuel wait env count user conn_wait sftp_ls
  else _ssh fuel wait env count user conn_wait.

(** The argument of the protocol operation. *)
Definition operand (sftp : bool) (sftp_ls : string) : string :=
  if sftp then sftp_ls else "dir".



(** A server that refuses every connection. *)
Definition refused : attempt_env :=
  {| perf_start := 10; perf_auth := 10.5; perf_end := 12;
     connect := λ _, raise OSError "Connection refused";
     connect_exit := inr tt;
     start_sftp_client := inr tt; sftp_exit := inr tt;
     operation := λ _, inr (Listing []);
     operation_done := 500; sleeping := inr tt |}.

(** A world where every attempt is refused, and each wait finds only the
    youngest outstanding task completed. *)
Definition hostile_world : world :=
  {| gen_graph := λ _, inr tt;
     attempts := λ _ _, refused;
     completed := λ _ _ ids, match reverse ids with
                             | [] => []
                             | i :: _ => [i]
                             end;
     patience := 16;
     stale_timers := λ _, [];
     nan_delay := inr tt |}.

(** An instance with three usernames and room for two tasks. *)
Definition sample_instance : SSHstress :=
  {| user := cycle_new ["alice"; "bob"; "carol"];
     host := "target";
     port := 22;
     ssh_key := "/home/user/.ssh/id_rsa";
     ssh_pw := None;
     timeout := PyInt 36000;
     max_concurrent_tasks := 2 |}.

(** *** Invariants of the scheduler *)

(** An outcome stored under its own id. *)
Definition keyed (kc : Z * conn_stat) : Prop :=
  conn_id kc.2 = kc.1 ∧ well_formed kc.2 = true.

(** The ids handed out so far are [1..count], each either outstanding or
    collected, and the attempts were opened in that order. *)
Definition ids_inv (conns : Z) (s : hammer_state) : Prop :=
  0 ≤ count s ≤ conns
  ∧ task_id <$> opened s = seqZ 1 (count s)
  ∧ (task_id <$> tasks s) ++ dict_keys (perf_times s) ≡ₚ seqZ 1 (count s)
  ∧ Forall keyed (perf_times s).

(** The rotation of a cycle that started at position [p0] of [names]:
    the [i]-th attempt opened has the name at [(p0 + i) mod length names]. *)
Definition rotation_inv (names : list string) (p0 : nat) (s : hammer_state)
  : Prop :=
  saved (users s) = names
  ∧ position (users s) = ((p0 + length (opened s)) mod length names)%nat
  ∧ ∀ i t, opened s !! i = Some t →
           names !! ((p0 + i) mod length names)%nat = Some (task_user t).

(** What is left to do: four units per attempt not yet started, two
    per outstanding task, and the tests in between. *)
Definition effort (conns : Z) (s : hammer_state) : nat :=
  (4 * Z.to_nat (conns - count s) + 2 * length (tasks s)
   + match at_ s with
     | AtSleep => 2
     | AtRefill => 1
     | AtWhile =>
         match tasks s with
         | [] => if (count s <? conns)%Z then 2 else 0
         | _ => 0
         end
     end)%nat.

(** Every wait finds at least one of the outstanding tasks completed. *)
Definition fair (w : world) (round : nat) : Prop :=
  ∀ k ids, ids ≠ [] → ∃ i, i ∈ ids ∧ i ∈ completed w round k ids.

(** An instance whose limit is below zero. *)
Definition negative_limit : SSHstress :=
  {| user := cycle_new ["alice"];
     host := "target";
     port := 22;
     ssh_key := "/home/user/.ssh/id_rsa";
     ssh_pw := None;
     timeout := PyInt 36000;
     max_concurrent_tasks := -1 |}.

(** *** Invariants of the runner *)

(** The key of round [r] of [range(rounds)] (lines 306, 318). *)
Definition round_name (r : nat) : string :=
  "round_" +:+ pretty (Z.of_nat r + 1).

(** What the report of a run of [rounds] rounds of [conns] attempts
    looks like: the rounds under their names, each with the ids from 1
    to [conns] in ascending order, every outcome under its own id. *)
Definition report_shape (conns rounds : Z) (rep : report) : Prop :=
  dict_keys (round_data rep) = (λ n, "round_" +:+ pretty n) <$> seqZ 1 rounds
  ∧ ∀ name r, (name, r) ∈ round_data rep →
      dict_keys (conn_data r) = seqZ 1 conns
      ∧ ∀ k c, (k, c) ∈ conn_data r → conn_id c = k.

(** All attempts opened so far, over the rounds, follow the rotation of
    [names] from its first name on, and the instance stands where the
    next attempt has to take its name. *)
Definition rotation_log (names : list string) (log : run_log) : Prop :=
  saved (user (instance log)) = names
  ∧ position (user (instance log))
      = (length (concat (launched log)) mod length names)%nat
  ∧ ∀ j t, concat (launched log) !! j = Some t →
           names !! (j mod length names)%nat = Some (task_user t).

(** *** Edge cases of the scheduler *)

(** An instance without room for a single task. *)
Definition no_room : SSHstress :=
  {| user := cycle_new ["alice"];
     host := "target";
     port := 22;
     ssh_key := "/home/user/.ssh/id_rsa";
     ssh_pw := None;
     timeout := PyInt 36000;
     max_concurrent_tasks := 0 |}.

(** An instance created with [target_users=[]]. *)
Definition no_users : SSHstress :=
  {| user := cycle_new [];
     host := "target";
     port := 22;
     ssh_key := "/home/user/.ssh/id_rsa";
     ssh_pw := None;
     timeout := PyInt 36000;
     max_concurrent_tasks := 10000 |}.

(** None of the awaited calls of an attempt fails. *)
Definition unfailing (sftp : bool) (env : attempt_env) : Prop :=
  ∀ user arg e, ¬ raised_in sftp env user arg e.

(** Nothing has been collected before something was launched, and what
    was launched and not collected is still outstanding. *)
Definition stuck_inv (s : hammer_state) : Prop :=
  count s = 0 ∨ tasks s ≠ [].

(** The scheduler that has launched nothing. *)
Definition idle (s : hammer_state) : Prop :=
  at_ s ≠ AtSleep
  ∧ count s = 0 ∧ tasks s = [] ∧ opened s = [] ∧ perf_times s = [].

(** Every outstanding task was opened by this round, and every outcome
    collected is what the attempt opened under its key returned. *)
Definition own_results (attempt : task → async conn_stat) (s : hammer_state)
  : Prop :=
  (∀ t, t ∈ tasks s → t ∈ opened s)
  ∧ ∀ k c, (k, c) ∈ perf_times s →
      ∃ t, t ∈ opened s ∧ task_id t = k ∧ attempt t = Some (inr c).

(** *** Invariants of the statistics *)

(** A running maximum is the int it started as or a duration met. *)
Definition is_start_or_float (m : num) : Prop :=
  m = PyInt 0 ∨ ∃ x, m = PyFloat x.

(** The maxima and minima bound the durations of the successful
    outcomes seen so far, which carry both durations. *)
Definition bounded_by (t : totals) (seen : list conn_stat) : Prop :=
  is_start_or_float (max_auth t) ∧ is_start_or_float (max_conn t)
  ∧ ∀ c, c ∈ seen → success c = true →
      ∃ a d, auth_time c = Some a ∧ conn_time c = Some d
             ∧ num_lt_float (max_auth t) a = false
             ∧ (a <? min_auth t)%float = false
             ∧ num_lt_float (max_conn t) d = false
             ∧ (d <? min_conn t)%float = false.

(** The maxima and minima are the values they started with or durations
    of successful outcomes seen so far. *)
Definition attained_in (t : totals) (seen : list conn_stat) : Prop :=
  (max_auth t = PyInt 0
   ∨ ∃ c a, c ∈ seen ∧ success c = true ∧ auth_time c = Some a
            ∧ max_auth t = PyFloat a)
  ∧ (min_auth t = infinity
     ∨ ∃ c, c ∈ seen ∧ success c = true ∧ auth_time c = Some (min_auth t))
  ∧ (max_conn t = PyInt 0
     ∨ ∃ c d, c ∈ seen ∧ success c = true ∧ conn_time c = Some d
              ∧ max_conn t = PyFloat d)
  ∧ (min_conn t = infinity
     ∨ ∃ c, c ∈ seen ∧ success c = true ∧ conn_time c = Some (min_conn t)).

(* ================================================================== *)
(** ** The command line: [validate_names] *)

(** A [str] is the string of its code points; the alphabet of [string]
    holds those below 256.  [isspace c] is [c.isspace()] there: the
    characters [str.strip()] removes. *)
Definition isspace (c : ascii) : bool :=
  let n := N_of_ascii c in
  ((9 <=? n) && (n <=? 13) || (28 <=? n) && (n <=? 32)
   || (n =? 133) || (n =? 160))%N.

Fixpoint lstrip (s : string) : string :=
  match s with
  | EmptyString => EmptyString
  | String c s' => if isspace c then lstrip s' else s
  end.

Fixpoint rstrip (s : string) : string :=
  match s with
  | EmptyString => EmptyString
  | String c s' =>
      match rstrip s' with
      | EmptyString => if isspace c then EmptyString else String c EmptyString
      | t => String c t
      end
  end.

(** [s.strip()] *)
Definition strip (s : string) : string := rstrip (lstrip s).

(** [c in s] for a single character. *)
Fixpoint contains (c : ascii) (s : string) : bool :=
  match s with
  | EmptyString => false
  | String c' s' => if decide (c' = c) then true else contains c s'
  end.

(** [s.split(sep)] for a single character: the fields between the
    separators, at least one. *)
Fixpoint split (sep : ascii) (s : string) : list string :=
  match s with
  | EmptyString => [EmptyString]
  | String c s' =>
      if decide (c = sep) then EmptyString :: split sep s'
      else match split sep s' with
           | [] => [String c EmptyString]
           | field :: fields => String c field :: fields
           end
  end.

(** Lines 324-327. *)
Definition validate_names (names : string) : list string :=
  if contains ","%char names
  then filter (λ name, strip name ≠ "") (split ","%char names)
  else if decide (strip names ≠ "") then [names] else [].

(** [sep.join(fields)] *)
Fixpoint join (sep : ascii) (fields : list string) : string :=
  match fields with
  | [] => ""
  | [field] => field
  | field :: rest => field +:+ String sep (join sep rest)
  end.

(** A name that [validate_names] lets through. *)
Definition usable (name : string) : Prop :=
  strip name ≠ "" ∧ contains ","%char name = false.

(* ================================================================== *)
(** ** The chart: [gen_graph] *)

Module Chart.

(** The lists of one round (lines 29-33). *)
Record points := {
  x_axis : list Z;
  y1_axis : list (option float);
  y2_axis : list (option float);
  failed : list Z;
  max_time : num
}.

Definition points_init : points :=
  {| x_axis := []; y1_axis := []; y2_axis := []; failed := [];
     max_time := PyInt 0 |}.

(** Lines 35-44.  [max(max_time, None)] is a [TypeError]. *)
Fixpoint collect (values : list conn_stat) (a : points) : result points :=
  match values with
  | [] => inr a
  | data :: rest =>
      if success data then
        match conn_time data with
        | Some c =>
            collect rest
              {| x_axis := x_axis a ++ [conn_id data];
                 y1_axis := y1_axis a ++ [Some c];
                 y2_axis := y2_axis a ++ [auth_time data];
                 failed := failed a;
                 max_time := py_max (max_time a) c |}
        | None =>
            raise TypeError
              match max_time a with
              | PyInt _ =>
                  "'>' not supported between instances of 'NoneType' and 'int'"
              | PyFloat _ =>
                  "'>' not supported between instances of 'NoneType' and 'float'"
              end
        end
      else
        collect rest
          {| x_axis := x_axis a ++ [conn_id data];
             y1_axis := y1_axis a ++ [None];
             y2_axis := y2_axis a ++ [None];
             failed := failed a ++ [conn_id data];
             max_time := max_time a |}
  end.

(** What matplotlib answers: to [plt.subplots(1, cols, ...)] (line 15),
    to the calls of lines 46-66 on [axs[round_index]], as a function of
    the values they read (the index and name of the round, its
    statistics, the target time, the speed and the lists), and to
    [plt.tight_layout()] with [plt.show()] (lines 69-70). *)
Record pyplot := {
  subplots : Z → result unit;
  plot_round : nat → string → round_report → Z → num → points → result unit;
  show : result unit
}.

(** How a call ends: with the chart on the screen, or at the [return]
    of line 27. *)
Inductive verdict := Shown | NotEnoughData.

(** The loop of lines 24-67 and what follows it; [drawn] lists the
    rounds plotted so far. *)
Fixpoint for_rounds (plt : pyplot) (target_wait_time : Z) (conns_per_sec : num)
    (items : dict string round_report) (round_index : nat)
    (drawn : list (string * points))
  : result (list (string * points) * verdict) :=
  match items with
  | [] => _ ←ᵣ show plt; inr (drawn, Shown)
  | (round_name, stress_round) :: rest =>
      if dict_len (conn_data stress_round) <? 2
      then inr (drawn, NotEnoughData)
      else
        a ←ᵣ collect (dict_values (conn_data stress_round)) points_init;
        _ ←ᵣ plot_round plt round_index round_name stress_round
               target_wait_time conns_per_sec a;
        for_rounds plt target_wait_time conns_per_sec rest (S round_index)
          (drawn ++ [(round_name, a)])
  end.

(** Lines 7-70. *)
Definition gen_graph (plt : pyplot) (data : report)
  : result (list (string * points) * verdict) :=
  let perf_times := round_data data in
  let cols := dict_len perf_times in
  _ ←ᵣ subplots plt cols;
  let target_wait_time :=
    if 0 <? global_wait data then global_wait data else conn_wait data in
  for_rounds plt target_wait_time (conns_per_sec data) perf_times 0 [].

(** A backend none of whose calls fails. *)
Definition reliable (plt : pyplot) : Prop :=
  (∀ cols, subplots plt cols = inr tt)
  ∧ (∀ i name r target cps a, plot_round plt i name r target cps a = inr tt)
  ∧ show plt = inr tt.

(** A backend that, like matplotlib, refuses a figure without columns. *)
Definition strict_canvas : pyplot :=
  {| subplots := λ cols,
       if cols <=? 0
       then raise (OtherException "ValueError")
              "Number of columns must be a positive integer, not 0"
       else inr tt;
     plot_round := λ _ _ _ _ _ _, inr tt;
     show := inr tt |}.

(** A backend that draws whatever it is given. *)
Definition canvas : pyplot :=
  {| subplots := λ _, inr tt;
     plot_round := λ _ _ _ _ _ _, inr tt;
     show := inr tt |}.

(** The lists agree with the totals of [_calculate_stats] on the same
    outcomes. *)
Definition agree (a : points) (t : totals) (seen : list conn_stat) : Prop :=
  x_axis a = conn_id <$> seen
  ∧ length (y1_axis a) = length seen
  ∧ length (y2_axis a) = length seen
  ∧ failed a = conn_id <$> filter (λ c, success c = false) seen
  ∧ Z.of_nat (length (failed a)) = total_failed t
  ∧ max_time a = max_conn t.

End Chart.

(** A report of one round with a single, failed, outcome. *)
Definition lonely_report : report :=
  stats_literal 1 1 (PyInt 100) 0 0 "SFTP"
    [ ("round_1",
       {| avg_auth_time := PyInt 0; avg_conn_time := PyInt 0;
          max_auth_time := PyInt 0; max_conn_time := PyInt 0;
          min_auth_time := infinity; min_conn_time := infinity;
          failed_conns := 1;
          conn_data :=
            [ (1, failed_stat 1 (Exn OSError "Connection refused")) ] |}) ].

(** The world whose [gen_graph] is the function above on the backend
    [plt]. *)
Definition charting (plt : Chart.pyplot) (w : world) : world :=
  {| gen_graph := λ data, _ ←ᵣ Chart.gen_graph plt data; inr tt;
     attempts := attempts w;
     completed := completed w;
     patience := patience w;
     stale_timers := stale_timers w;
     nan_delay := nan_delay w |}.

(* ================================================================== *)
(** ** The program: lines 323-397 *)

(** What [json.dumps] makes of a value, before it is laid out as text. *)
Unset Elimination Schemes.
Inductive json :=
  | JNull
  | JBool (b : bool)
  | JInt (z : Z)
  | JFloat (f : float)
  | JString (s : string)
  | JArray (items : list json)
  | JObject (members : list (string * json)).
Set Elimination Schemes.

Definition json_of_num (a : num) : json :=
  match a with
  | PyInt z => JInt z
  | PyFloat f => JFloat f
  end.

Definition json_of_time (t : option float) : json :=
  match t with
  | Some f => JFloat f
  | None => JNull
  end.

(** A directory listing is a list of [str] and an error text a [str];
    the [SSHCompletedProcess] that [conn.run] returns is an object the
    encoder has no rule for. *)
Definition json_of_payload (p : payload) : result json :=
  match p with
  | Listing names => inr (JArray (JString <$> names))
  | ErrorText msg => inr (JString msg)
  | Completed _ =>
      raise TypeError
        "Object of type SSHCompletedProcess is not JSON serializable"
  end.

Definition json_of_conn_stat (c : conn_stat) : result json :=
  r ←ᵣ json_of_payload (results c);
  inr (JObject [ ("id", JInt (conn_id c));
                 ("success", JBool (success c));
                 ("auth_time", json_of_time (auth_time c));
                 ("conn_time", json_of_time (conn_time c));
                 ("results", r) ]).

(** The ids are ints: the encoder writes such keys as strings. *)
Fixpoint json_of_conn_data (d : dict Z conn_stat)
  : result (list (string * json)) :=
  match d with
  | [] => inr []
  | (k, c) :: rest =>
      j ←ᵣ json_of_conn_stat c;
      js ←ᵣ json_of_conn_data rest;
      inr ((pretty k, j) :: js)
  end.

(** The seven statistics of a round. *)
Definition round_members {D} (r : round_stats D) : list (string * json) :=
  [ ("avg_auth_time", json_of_num (avg_auth_time r));
    ("avg_conn_time", json_of_num (avg_conn_time r));
    ("max_auth_time", json_of_num (max_auth_time r));
    ("max_conn_time", json_of_num (max_conn_time r));
    ("min_auth_time", JFloat (min_auth_time r));
    ("min_conn_time", JFloat (min_conn_time r));
    ("failed_conns", JInt (failed_conns r)) ].

Definition json_of_round (r : round_report) : result json :=
  d ←ᵣ json_of_conn_data (conn_data r);
  inr (JObject (round_members r ++ [("conn_data", JObject d)])).

Fixpoint json_of_rounds (rs : dict string round_report)
  : result (list (string * json)) :=
  match rs with
  | [] => inr []
  | (name, r) :: rest =>
      j ←ᵣ json_of_round r;
      js ←ᵣ json_of_rounds rest;
      inr ((name, j) :: js)
  end.

(** [json.dumps(stats)] *)
Definition json_of_stats (s : report) : result json :=
  rs ←ᵣ json_of_rounds (round_data s);
  inr (JObject [ ("stress_type", JString (stress_type s));
                 ("rounds", JInt (rounds s));
                 ("conns_per_round", JInt (conns_per_round s));
                 ("total_conns", JInt (total_conns s));
                 ("conns_per_sec", json_of_num (conns_per_sec s));
                 ("conn_wait", JInt (conn_wait s));
                 ("global_wait", JInt (global_wait s));
                 ("round_data", JObject rs) ]).

(** Lines 379-383: every round without its ["conn_data"]. *)
Definition json_of_summary (s : report) : json :=
  JObject ((λ nr, (nr.1, JObject (round_members nr.2))) <$> round_data s).

(** [c.lower()] below 256: the capital letters of ASCII and of Latin-1. *)
Definition lower_char (c : ascii) : ascii :=
  let n := N_of_ascii c in
  if ((65 <=? n) && (n <=? 90)
      || (192 <=? n) && (n <=? 222) && negb (n =? 215))%N
  then ascii_of_N (n + 32)
  else c.

Fixpoint lower (s : string) : string :=
  match s with
  | EmptyString => EmptyString
  | String c s' => String (lower_char c) (lower s')
  end.

Module Cli.

(** The namespace [parse_args] returns; [users] is still the string of
    the command line, which the parser hands to [validate_names]. *)
Record args := {
  target : option string;
  port : Z;
  users : string;
  password : option string;
  key : string;
  connections : Z;
  global_wait : Z;
  connection_wait : Z;
  rounds : Z;
  speed : num;
  type : string;
  path : string;
  output : string;
  read : string;
  graph : bool
}.

(** The defaults of lines 330-344. *)
Definition defaults : args :=
  {| target := None; port := 22; users := "root"; password := None;
     key := "~/.ssh/id_rsa"; connections := 100; global_wait := 0;
     connection_wait := 0; rounds := 1; speed := PyInt 100; type := "sftp";
     path := "/"; output := ""; read := ""; graph := false |}.

(** The machine under the program: [os.path.expanduser],
    [os.path.exists], reading a report back from a file ([open] and
    [json.load]), and [open(file, 'w')]. *)
Record os := {
  expanduser : string → string;
  path_exists : string → bool;
  json_load : string → result report;
  open_w : string → result unit
}.

(** What the program leaves behind, besides its lines of progress. *)
Inductive event :=
  | Opened (file : string)             (* the file is created or emptied *)
  | Dumped (file : string) (j : json)  (* json.dump(stats, file) *)
  | Printed (j : json).                (* print(json.dumps(..)) *)

(** How the program ends: [sys.exit(code)], the end of the script, an
    exception nobody catches, a round that never ends, or one that has
    not ended yet. *)
Inductive status :=
  | Exit (code : Z)
  | Ends
  | Traceback (e : exn)
  | Hangs
  | Running.

(** What follows a finished run (lines 375-383 and 392). *)
Definition report_run (o : os) (a : args) (sftp : bool) (stats : report)
  : list event * status :=
  if sftp then
    let written :=
      if bool_decide (output a = "") then inr []
      else
        match open_w o (output a) with
        | inl e => inl ([], e)
        | inr _ =>
            match json_of_stats stats with
            | inl e => inl ([Opened (output a)], e)
            | inr j => inr [Opened (output a); Dumped (output a) j]
            end
        end in
    match written with
    | inl (events, e) => (events, Traceback e)
    | inr events => (events ++ [Printed (json_of_summary stats)], Ends)
    end
  else
    match json_of_stats stats with
    | inl e => ([], Traceback e)
    | inr j => ([Printed j], Ends)
    end.

(** A run of either kind, from an empty store, and its report. *)
Definition run (o : os) (w : world) (fuel : nat) (a : args) (sftp : bool)
    (self : SSHstress) : list event * status :=
  let out :=
    if sftp
    then stress_sftp w fuel self (connections a) (connection_wait a)
           (global_wait a) (path a) (speed a) (rounds a) (graph a) []
    else stress_ssh w fuel self (connections a) (connection_wait a)
           (global_wait a) (speed a) (rounds a) (graph a) [] in
  match out with
  | (Finished (stats, _), hf) =>
      match report_at hf stats with
      | inl e => ([], Traceback e)
      | inr data => report_run o a sftp data
      end
  | (Crashed e, _) => ([], Traceback e)
  | (Hung, _) => ([], Hangs)
  | (Unfinished, _) => ([], Running)
  end.

(** Lines 345-397. *)
Definition main (plt : Chart.pyplot) (o : os) (w : world) (fuel : nat)
    (a : args) : list event * status :=
  if bool_decide (read a ≠ "") then
    match json_load o (read a) with
    | inl e => ([], Traceback e)
    | inr json_data =>
        match Chart.gen_graph plt json_data with
        | inl e => ([], Traceback e)
        | inr _ => ([], Exit 0)
        end
    end
  else
    match validate_names (users a) with
    | [] => ([], Exit 2)
    | target_users =>
        match target a with
        | None | Some "" => ([], Exit 2)
        | Some target_address =>
            match __init__ (expanduser o)
                    (path_exists o (expanduser o (key a)))
                    target_address target_users (port a) (key a) (password a)
                    (PyInt 36000) 10000 with
            | None => ([], Exit 2)
            | Some ssh_stress_util =>
                if bool_decide (lower (type a) = "sftp")
                then run o (charting plt w) fuel a true ssh_stress_util
                else if bool_decide (lower (type a) = "ssh")
                then run o (charting plt w) fuel a false ssh_stress_util
                else ([], Exit 2)
            end
        end
    end.

End Cli.

(** The arguments pass the checks of lines 347-365 and [self] is the
    instance created from them. *)
Definition accepted (o : Cli.os) (a : Cli.args) (self : SSHstress) : Prop :=
  Cli.read a = ""
  ∧ validate_names (Cli.users a) ≠ []
  ∧ ∃ target_address,
      Cli.target a = Some target_address ∧ target_address ≠ ""
      ∧ __init__ (Cli.expanduser o)
          (Cli.path_exists o (Cli.expanduser o (Cli.key a)))
          target_address (validate_names (Cli.users a)) (Cli.port a)
          (Cli.key a) (Cli.password a) (PyInt 36000) 10000 = Some self.

(** The arguments fail one of the checks of lines 354-365 and 394. *)
Definition refused_arguments (o : Cli.os) (a : Cli.args) : Prop :=
  (∀ field, field ∈ split ","%char (Cli.users a) → strip field = "")
  ∨ Cli.target a = None
  ∨ Cli.target a = Some ""
  ∨ ((Cli.password a = None ∨ Cli.password a = Some "")
     ∧ (Cli.path_exists o (Cli.expanduser o (Cli.key a)) = false
        ∨ Cli.key a = ""))
  ∨ (lower (Cli.type a) ≠ "sftp" ∧ lower (Cli.type a) ≠ "ssh").

(** The outcomes of round [r] by value, under the name of the round:
    each is what one of the attempts [ts] that the round opened, the one
    with its id, returned. *)
Definition own_round (w : world) (cw gw : Z) (sftp : bool) (ls : string)
    (r : nat) (ts : list task) (nc : string * dict Z conn_stat) : Prop :=
  nc.1 = round_name r
  ∧ ∀ k c, (k, c) ∈ nc.2 →
      ∃ t, t ∈ ts ∧ task_id t = k
           ∧ attempt w r cw gw sftp ls t = Some (inr c).

(** The rounds stored so far are the rounds [past], one after the other,
    each with the attempts the log lists for it. *)
Definition own_rounds (w : world) (cw gw : Z) (sftp : bool) (ls : string)
    (past : list nat) (log : run_log)
    (input : dict string (dict Z conn_stat)) : Prop :=
  length past = length (launched log)
  ∧ Forall2 (λ rts nc, own_round w cw gw sftp ls rts.1 rts.2 nc)
      (zip past (launched log)) input.

(** A server on which the command of [_ssh] completes. *)
Definition completing : attempt_env :=
  {| perf_start := 10; perf_auth := 10.5; perf_end := 12;
     connect := λ _, inr tt; connect_exit := inr tt;
     start_sftp_client := inr tt; sftp_exit := inr tt;
     operation := λ _, inr (Completed "bin etc home");
     operation_done := 500; sleeping := inr tt |}.

Definition completing_world : world :=
  {| gen_graph := λ _, inr tt;
     attempts := λ _ _, completing;
     completed := λ _ _ ids, ids;
     patience := 16;
     stale_timers := λ _, [];
     nan_delay := inr tt |}.

(** A machine with a key file and a disk that can be written. *)
Definition sample_os : Cli.os :=
  {| Cli.expanduser := λ p, p;
     Cli.path_exists := λ _, true;
     Cli.json_load := λ _, inr lonely_report;
     Cli.open_w := λ _, inr tt |}.

(** [-t target -u alice,bob -c 2 --type SSH] *)
Definition sample_args : Cli.args :=
  {| Cli.target := Some "target"; Cli.port := 22; Cli.users := "alice,bob";
     Cli.password := None; Cli.key := "/home/user/.ssh/id_rsa";
     Cli.connections := 2; Cli.global_wait := 0; Cli.connection_wait := 0;
     Cli.rounds := 1; Cli.speed := PyInt 100; Cli.type := "SSH";
     Cli.path := "/"; Cli.output := "out.json"; Cli.read := "";
     Cli.graph := false |}.

(** [-t target -u alice,bob -c 2 --type Sftp -o out.json] *)
Definition sftp_args : Cli.args :=
  {| Cli.target := Some "target"; Cli.port := 22; Cli.users := "alice,bob";
     Cli.password := None; Cli.key := "/home/user/.ssh/id_rsa";
     Cli.connections := 2; Cli.global_wait := 0; Cli.connection_wait := 0;
     Cli.rounds := 1; Cli.speed := PyInt 100; Cli.type := "Sftp";
     Cli.path := "/"; Cli.output := "out.json"; Cli.read := "";
     Cli.graph := false |}.

(** The instance the program creates from either. *)
Definition cli_instance : SSHstress :=
  {| user := cycle_new ["alice"; "bob"];
     host := "target";
     port := 22;
     ssh_key := "/home/user/.ssh/id_rsa";
     ssh_pw := None;
     timeout := PyInt 36000;
     max_concurrent_tasks := 10000 |}.

(** ** Results *)
Lemma rbind_inr {A B} (m : result A) (k : A → result B) b :
  rbind m k = inr b → ∃ a, m = inr a ∧ k a = inr b.
Proof. destruct m as [e|a]; simpl; [done|eauto]. Qed.

(** ** Rounds without a success *)
Lemma sum_outcomes_failed values : ∀ t,
  Forall (λ c, success c = false) values →
  sum_outcomes t values =
    inr {| total_auth_time := total_auth_time t;
           total_conn_time := total_conn_time t;
           max_auth := max_auth t;
           max_conn := max_conn t;
           min_auth := min_auth t;
           min_conn := min_conn t;
           total_failed := total_failed t + Z.of_nat (length values) |}.
Proof.
  induction values as [|c values IH]; intros t Hall.
  - simpl. rewrite Z.add_0_r. by destruct t.
  - inversion Hall as [|? ? Hc Hrest]; subst.
    simpl. unfold add_outcome. rewrite Hc. simpl.
    rewrite IH by done. simpl. do 2 f_equal. lia.
Qed.

Lemma summarize_failed {D} values (round_data : D) :
  Forall (λ c, success c = false) values →
  summarize values round_data =
    inr {| avg_auth_time := PyInt 0;
           avg_conn_time := PyInt 0;
           max_auth_time := PyInt 0;
           max_conn_time := PyInt 0;
           min_auth_time := infinity;
           min_conn_time := infinity;
           failed_conns := Z.of_nat (length values);
           conn_data := round_data |}.
Proof.
  intros Hall. unfold summarize.
  rewrite sum_outcomes_failed by done. simpl.
  unfold averages. simpl.
  replace (Z.of_nat (length values) - (0 + Z.of_nat (length values))) with 0 by lia.
  reflexivity.
Qed.

Lemma same_inputs_refl h : same_inputs h h.
Proof. done. Qed.

Lemma same_inputs_trans h1 h2 h3 :
  same_inputs h1 h2 → same_inputs h2 h3 → same_inputs h1 h3.
Proof. intros H1 H2 l. destruct (H1 l), (H2 l). split; congruence. Qed.

Lemma same_inputs_alloc h o : is_input o = false → same_inputs h (h ++ [o]).
Proof.
  intros Ho l. unfold conn_at, round_at.
  destruct (decide (l < length h)%nat) as [Hl|Hl].
  - by rewrite lookup_app_l.
  - rewrite (lookup_ge_None_2 h l) by lia.
    destruct (decide (l = length h)) as [->|Hne].
    + rewrite list_lookup_middle by done. by destruct o.
    + rewrite lookup_ge_None_2; [done|]. rewrite length_app. simpl. lia.
Qed.

Lemma same_inputs_write h l o o' :
  h !! l = Some o → is_input o = false → is_input o' = false →
  same_inputs h (<[l := o']> h).
Proof.
  intros Hl Ho Ho' k. unfold conn_at, round_at.
  destruct (decide (k = l)) as [->|Hne].
  - rewrite list_lookup_insert_eq by (by eapply lookup_lt_Some).
    rewrite Hl. by destruct o, o'.
  - by rewrite list_lookup_insert_ne.
Qed.

Lemma same_inputs_outcomes h h' d :
  same_inputs h h' → outcomes_at h d = outcomes_at h' d.
Proof.
  intros Hs. induction d as [|[k l] d IH]; [done|].
  simpl. destruct (Hs l) as [-> _]. by rewrite IH.
Qed.

Lemma same_inputs_round_stats h h' rd :
  same_inputs h h' → round_stats_of h rd = round_stats_of h' rd.
Proof.
  intros Hs. unfold round_stats_of. destruct (Hs rd) as [_ ->].
  destruct (round_at h' rd) as [e|d]; [done|]. simpl.
  by rewrite (same_inputs_outcomes h h').
Qed.

Lemma same_inputs_stats_list h h' items :
  same_inputs h h' → stats_list h items = stats_list h' items.
Proof.
  intros Hs. induction items as [|[name rd] items IH]; [done|].
  simpl. by rewrite (same_inputs_round_stats h h'), IH.
Qed.

Lemma same_inputs_snapshot_rounds h h' items :
  same_inputs h h' → snapshot_rounds h items = snapshot_rounds h' items.
Proof.
  intros Hs. induction items as [|[name rd] items IH]; [done|].
  simpl. destruct (Hs rd) as [_ ->].
  destruct (round_at h' rd) as [e|d]; [done|]. simpl.
  by rewrite (same_inputs_outcomes h h'), IH.
Qed.

(** ** The loop over the rounds, in closed form *)
Lemma for_rounds_cons rl name rd items h :
  for_rounds rl ((name, rd) :: items) h =
    match round_stats_of h rd with
    | inl e => (inl e, h)
    | inr r =>
        let h1 := h ++ [RoundStatsDict r] in
        match h1 !! rl with
        | Some (RoundsDict d) =>
            for_rounds rl items
              (<[rl := RoundsDict (dict_set d name (length h))]> h1)
        | _ => (raise TypeError "not a dictionary of rounds", h1)
        end
    end.
Proof.
  simpl. unfold bind, gets, alloc, setitem_rounds.
  destruct (round_stats_of h rd) as [e|r]; [done|]. simpl.
  by destruct ((h ++ [RoundStatsDict r]) !! rl) as [[]|].
Qed.

Lemma for_rounds_run items : ∀ h rl acc,
  h !! rl = Some (RoundsDict acc) →
  match stats_list h items with
  | inr rs =>
      for_rounds rl items h =
        (inr tt,
         <[rl := RoundsDict (extend id acc items.*1 (length h))]>
           (h ++ (RoundStatsDict <$> rs)))
  | inl e => (for_rounds rl items h).1 = inl e
  end.
Proof.
  induction items as [|[name rd] items IH]; intros h rl acc Hrl.
  - simpl. rewrite app_nil_r. unfold ret.
    by rewrite list_insert_id.
  - rewrite for_rounds_cons.
    cbn [stats_list]. 
    destruct (round_stats_of h rd) as [e|r] eqn:Hr; [done|].
    cbn zeta.
    assert (Hlt : (rl < length h)%nat) by by eapply lookup_lt_Some.
    rewrite lookup_app_l, Hrl by done.
    set (h1 := h ++ [RoundStatsDict r]).
    set (h2 := <[rl := RoundsDict (dict_set acc name (length h))]> h1).
    assert (Hs : same_inputs h h2).
    { eapply same_inputs_trans; [by apply (same_inputs_alloc h (RoundStatsDict r))|].
      eapply (same_inputs_write h1 rl (RoundsDict acc)); try done.
      unfold h1. by rewrite lookup_app_l. }
    assert (Hlen : length h2 = S (length h)).
    { unfold h2, h1. rewrite length_insert, length_app. simpl. lia. }
    specialize (IH h2 rl (dict_set acc name (length h))).
    rewrite <- (same_inputs_stats_list h h2) in IH by done.
    assert (H2 : h2 !! rl = Some (RoundsDict (dict_set acc name (length h)))).
    { unfold h2. apply list_lookup_insert_eq.
      unfold h1. rewrite length_app. lia. }
    specialize (IH H2).
    destruct (stats_list h items) as [e|rs]; simpl; [done|].
    rewrite IH. f_equal. rewrite Hlen. unfold h2, h1.
    rewrite <- insert_app_l by (rewrite length_app; simpl; lia).
    rewrite list_insert_insert_eq.
    by rewrite <- app_assoc.
Qed.

Lemma calculate_stats_unfold w p conns rounds cps cw gw graph ty h :
  _calculate_stats w p conns rounds cps cw gw graph ty h =
    let n := length h in
    let h2 := h ++ [StatsDict (stats_literal conns rounds cps cw gw ty None);
                    RoundsDict []] in
    match rounds_at h2 p with
    | inl e => (inl e, h2)
    | inr items =>
        match for_rounds (S n) items h2 with
        | (inl e, h3) => (inl e, h3)
        | (inr _, h3) =>
            match set_round_data n (S n) h3 with
            | (inl e, h4) => (inl e, h4)
            | (inr _, h4) =>
                if graph then
                  match data ←ᵣ report_at h4 n; gen_graph w data with
                  | inl e => (inl e, h4)
                  | inr _ => (inr n, h4)
                  end
                else (inr n, h4)
            end
        end
    end.
Proof.
  unfold _calculate_stats, bind, alloc, gets, ret. cbn zeta.
  rewrite length_app, Nat.add_1_r. rewrite <- app_assoc. simpl.
  unfold stats_literal.
  destruct (rounds_at _ p) as [e|items]; [done|].
  destruct (for_rounds _ items _) as [[e|[]] h3]; [done|].
  destruct (set_round_data _ _ h3) as [[e|[]] h4]; [done|].
  destruct graph; [|done].
  by destruct (rbind _ _).
Qed.

Lemma calculate_stats_run w p conns rounds cps cw gw ty h items :
  rounds_at h p = inr items →
  match stats_list h items with
  | inr rs =>
      _calculate_stats w p conns rounds cps cw gw false ty h =
        (inr (length h),
         h ++ StatsDict (stats_literal conns rounds cps cw gw ty
                           (Some (S (length h))))
           :: RoundsDict (extend id [] items.*1 (S (S (length h))))
           :: (RoundStatsDict <$> rs))
  | inl e =>
      (_calculate_stats w p conns rounds cps cw gw false ty h).1 = inl e
  end.
Proof.
  intros Hp. rewrite calculate_stats_unfold. cbn zeta.
  set (s0 := stats_literal conns rounds cps cw gw ty None).
  set (h2 := h ++ [StatsDict s0; RoundsDict []]).
  assert (Hlt : (p < length h)%nat).
  { unfold rounds_at in Hp. destruct (h !! p) eqn:E; [|done].
    by eapply lookup_lt_Some. }
  assert (Hp2 : rounds_at h2 p = inr items).
  { unfold rounds_at, h2. by rewrite lookup_app_l. }
  rewrite Hp2.
  assert (Hs : same_inputs h h2).
  { unfold h2. change [StatsDict s0; RoundsDict []]
      with ([StatsDict s0] ++ [RoundsDict []]). rewrite app_assoc.
    eapply same_inputs_trans; by apply same_inputs_alloc. }
  assert (Hrl : h2 !! S (length h) = Some (RoundsDict [])).
  { unfold h2. rewrite lookup_app_r by lia.
    by replace (S (length h) - length h)%nat with 1%nat by lia. }
  pose proof (for_rounds_run items h2 (S (length h)) [] Hrl) as Hrun.
  rewrite <- (same_inputs_stats_list h h2) in Hrun by done.
  destruct (stats_list h items) as [e|rs].
  - destruct (for_rounds _ items h2) as [[e'|[]] h3]; simpl in *; congruence.
  - rewrite Hrun. unfold set_round_data.
    assert (Hlen2 : length h2 = S (S (length h))).
    { unfold h2. rewrite length_app. simpl. lia. }
    rewrite Hlen2.
    rewrite list_lookup_insert_ne by lia.
    unfold h2 at 1. rewrite <- app_assoc. cbn [app]. rewrite list_lookup_middle by done.
    unfold s0, stats_literal. simpl.
    f_equal. unfold h2. rewrite <- app_assoc. simpl.
    rewrite insert_app_r_alt by lia.
    replace (S (length h) - length h)%nat with 1%nat by lia. simpl.
    rewrite insert_app_r_alt by lia.
    by replace (length h - length h)%nat with 0%nat by lia.
Qed.

(** ** Nothing that was in the store is written *)
Lemma prefix_insert_ge (h0 h : store) l o :
  h0 `prefix_of` h → (length h0 ≤ l)%nat → h0 `prefix_of` <[l := o]> h.
Proof.
  intros [k ->] Hl. rewrite insert_app_r_alt by done. by eexists.
Qed.

Lemma for_rounds_prefix h0 rl items : ∀ h,
  (length h0 ≤ rl)%nat → h0 `prefix_of` h →
  h0 `prefix_of` (for_rounds rl items h).2.
Proof.
  induction items as [|[name rd] items IH]; intros h Hrl Hpre; [done|].
  rewrite for_rounds_cons.
  destruct (round_stats_of h rd) as [e|r]; [done|]. cbn zeta.
  assert (Hpre1 : h0 `prefix_of` h ++ [RoundStatsDict r])
    by by apply prefix_app_r.
  destruct ((h ++ [RoundStatsDict r]) !! rl) as [[]|]; try done.
  apply IH; [done|]. by apply prefix_insert_ge.
Qed.

Lemma calculate_stats_prefix w p conns rounds cps cw gw graph ty h :
  h `prefix_of` (_calculate_stats w p conns rounds cps cw gw graph ty h).2.
Proof.
  rewrite calculate_stats_unfold. cbn zeta.
  set (h2 := h ++ _).
  assert (H2 : h `prefix_of` h2) by by apply prefix_app_r.
  destruct (rounds_at h2 p) as [e|items]; [done|].
  pose proof (for_rounds_prefix h (S (length h)) items h2) as H3.
  destruct (for_rounds _ items h2) as [[e|[]] h3]; simpl in H3; [by apply H3; [lia|]|].
  assert (H3' : h `prefix_of` h3) by (apply H3; [lia|done]).
  unfold set_round_data.
  destruct (h3 !! length h) as [[]|]; try done.
  assert (H4 : ∀ o, h `prefix_of` <[length h := o]> h3)
    by (intros; by apply prefix_insert_ge).
  destruct graph; [|by apply H4].
  destruct (rbind _ _); by apply H4.
Qed.

Lemma summarize_with_data {D D'} values (d : D) (d' : D') :
  summarize values d' = (r ←ᵣ summarize values d; inr (with_data r d')).
Proof.
  unfold summarize. destruct (sum_outcomes _ _) as [e|t]; [done|]. simpl.
  by destruct (averages _ _) as [e|avg].
Qed.

Lemma summarize_data {D} values (d : D) r :
  summarize values d = inr r → conn_data r = d.
Proof.
  unfold summarize. intros H.
  destruct (sum_outcomes _ _) as [e|t]; [done|]. simpl in H.
  destruct (averages _ _) as [e|avg]; [done|]. simpl in H.
  by inversion H.
Qed.

(** ** Reading the report back from the final store *)
Lemma round_reports_at_set hf acc : ∀ accv name l r,
  round_reports_at hf acc = inr accv →
  round_report_at hf l = inr r →
  round_reports_at hf (dict_set acc name l) = inr (dict_set accv name r).
Proof.
  induction acc as [|[k l'] acc IH]; intros accv name l r Hacc Hl.
  - simpl in *. inversion Hacc. rewrite Hl. done.
  - simpl in Hacc.
    destruct (round_report_at hf l') as [e|r'] eqn:Hl'; [done|]. simpl in Hacc.
    destruct (round_reports_at hf acc) as [e|accv'] eqn:Hacc'; [done|].
    simpl in Hacc. inversion Hacc; subst. simpl.
    destruct (decide (k = name)) as [->|Hne]; simpl.
    + by rewrite Hl, Hacc'.
    + rewrite Hl'. simpl. by rewrite (IH accv' name l r).
Qed.

Lemma round_reports_at_extend hf names : ∀ acc accv n reports,
  round_reports_at hf acc = inr accv →
  length reports = length names →
  (∀ i r, reports !! i = Some r → round_report_at hf (n + i) = inr r) →
  round_reports_at hf (extend id acc names n) =
    inr (foldl (λ a nr, dict_set a nr.1 nr.2) accv (zip names reports)).
Proof.
  induction names as [|name names IH]; intros acc accv n reports Hacc Hlen Hr.
  - by destruct reports.
  - destruct reports as [|r reports]; [done|]. simpl.
    apply IH.
    + apply round_reports_at_set; [done|].
      specialize (Hr 0%nat r eq_refl). by rewrite Nat.add_0_r in Hr.
    + simpl in Hlen. lia.
    + intros i r' Hi. specialize (Hr (S i) r' Hi).
      by replace (S n + i)%nat with (n + S i)%nat by lia.
Qed.

(** ** The rounds by value *)
Lemma snapshot_summaries h items : ∀ input,
  snapshot_rounds h items = inr input →
  match summaries input with
  | inl e => stats_list h items = inl e
  | inr nrs =>
      ∃ rs, stats_list h items = inr rs ∧
            nrs.*1 = items.*1 ∧
            Forall2 (λ r nr, ∀ hf e,
                       same_inputs h hf →
                       hf !! e = Some (RoundStatsDict r) →
                       round_report_at hf e = inr nr.2) rs nrs
  end.
Proof.
  induction items as [|[name rd] items IH]; intros input Hin.
  - simpl in Hin. inversion Hin. simpl. exists []. by repeat constructor.
  - simpl in Hin.
    destruct (round_at h rd) as [e|d] eqn:Hd; [done|]. simpl in Hin.
    destruct (outcomes_at h d) as [e|cs] eqn:Hcs; [done|]. simpl in Hin.
    destruct (snapshot_rounds h items) as [e|input'] eqn:Hrest; [done|].
    simpl in Hin. inversion Hin; subst. clear Hin.
    specialize (IH input' eq_refl). simpl.
    unfold round_stats_of. rewrite Hd. simpl. rewrite Hcs. simpl.
    rewrite (summarize_with_data _ cs rd).
    destruct (summarize (dict_values cs) cs) as [e|r] eqn:Hr; [done|]. simpl.
    destruct (summaries input') as [e|nrs]; simpl.
    + by rewrite IH.
    + destruct IH as (rs & -> & Hnames & Hall). simpl.
      eexists. split; [done|]. split; [by f_equal|].
      constructor; [|done].
      intros hf e' Hs He'. unfold round_report_at. rewrite He'. simpl.
      destruct (Hs rd) as [_ <-]. rewrite Hd. simpl.
      rewrite <- (same_inputs_outcomes h hf) by done. rewrite Hcs. simpl.
      apply summarize_data in Hr. destruct r; simpl in *. by subst.
Qed.

Lemma same_inputs_app h k :
  Forall (λ o, is_input o = false) k → same_inputs h (h ++ k).
Proof.
  revert h. induction k as [|o k IH]; intros h Hk.
  - rewrite app_nil_r. apply same_inputs_refl.
  - inversion Hk; subst.
    eapply same_inputs_trans; [by apply (same_inputs_alloc h o)|].
    change (o :: k) with ([o] ++ k). rewrite app_assoc. by apply IH.
Qed.

Lemma calculate_stats_graph w p conns rounds cps cw gw ty h :
  _calculate_stats w p conns rounds cps cw gw true ty h =
    match _calculate_stats w p conns rounds cps cw gw false ty h with
    | (inl e, hf) => (inl e, hf)
    | (inr l, hf) =>
        match data ←ᵣ report_at hf l; gen_graph w data with
        | inl e => (inl e, hf)
        | inr _ => (inr l, hf)
        end
    end.
Proof.
  rewrite !calculate_stats_unfold. cbn zeta.
  destruct (rounds_at _ p) as [e|items]; [done|].
  destruct (for_rounds _ items _) as [[e|[]] h3]; [done|].
  by destruct (set_round_data _ _ h3) as [[e|[]] h4].
Qed.

(** ** The call computes the report of the rounds it is given *)
Lemma calculate_stats_by_value w p conns rounds cps cw gw graph ty h input :
  snapshot h p = inr input →
  by_value (_calculate_stats w p conns rounds cps cw gw graph ty h) =
    report_of w input conns rounds cps cw gw graph ty.
Proof.
  unfold snapshot. intros Hsnap.
  destruct (rounds_at h p) as [e|items] eqn:Hp; [done|]. simpl in Hsnap.
  pose proof (snapshot_summaries h items input Hsnap) as Hsum.
  pose proof (calculate_stats_run w p conns rounds cps cw gw ty h items Hp) as Hrun.
  assert (Hfalse :
    by_value (_calculate_stats w p conns rounds cps cw gw false ty h) =
      report_of w input conns rounds cps cw gw false ty).
  { unfold report_of, by_value.
    destruct (summaries input) as [e|nrs].
    - rewrite Hsum in Hrun. by rewrite Hrun.
    - destruct Hsum as (rs & Hrs & Hnames & Hall). rewrite Hrs in Hrun.
      rewrite Hrun. simpl.
      set (hf := h ++ _).
      assert (Hs : same_inputs h hf).
      { apply same_inputs_app. repeat constructor.
        apply Forall_fmap. by apply Forall_true. }
      unfold report_at. unfold hf at 1. rewrite list_lookup_middle by done.
      unfold stats_literal at 1. simpl.
      unfold rounds_at. unfold hf at 1.
      rewrite lookup_app_r by lia.
      replace (S (length h) - length h)%nat with 1%nat by lia. simpl.
      rewrite (round_reports_at_extend hf _ [] [] _ nrs.*2); try done.
      + rewrite <- Hnames. by rewrite zip_fst_snd.
      + rewrite <- Hnames. by rewrite !length_fmap.
      + intros i r Hi. rewrite list_lookup_fmap in Hi.
        destruct (nrs !! i) as [nr|] eqn:Hnr; [|done].
        simpl in Hi. inversion Hi; subst.
        destruct (Forall2_lookup_r _ _ _ _ _ Hall Hnr) as (r' & Hr' & Hprop).
        apply Hprop; [done|]. unfold hf.
        rewrite lookup_app_r by lia.
        replace (S (S (length h)) + i - length h)%nat with (S (S i)) by lia.
        simpl. by rewrite list_lookup_fmap, Hr'. }
  destruct graph; [|done].
  rewrite calculate_stats_graph.
  unfold report_of in *. unfold by_value in *.
  destruct (_calculate_stats w p conns rounds cps cw gw false ty h) as [[e|l] hf];
    simpl in *.
  - destruct (summaries input); simpl in *; [done|].
    inversion Hfalse.
  - destruct (summaries input) as [e|nrs]; simpl in *.
    + rewrite Hfalse. done.
    + rewrite Hfalse. simpl. destruct (gen_graph w _) as [e|[]]; [done|].
      simpl. done.
Qed.

Lemma float_of_int_small z :
  Z.abs z ≤ sys_maxsize → ∃ d, float_of_int z = inr d.
Proof.
  intros Hz. unfold float_of_int.
  assert (Hb : sys_maxsize < 2 ^ 1024 - 2 ^ 970) by (by vm_compute).
  set (B := 2 ^ 1024 - 2 ^ 970) in *.
  destruct (Z.ltb_spec (Z.abs z) B); [eauto|lia].
Qed.

Lemma add_outcome_inv t c seen :
  well_formed c = true → totals_inv t seen →
  ∃ t', add_outcome t c = inr t' ∧ totals_inv t' (seen + 1).
Proof.
  unfold well_formed, add_outcome. intros Hwf [Hf Hinv].
  destruct (success c); simpl in *.
  - apply andb_true_iff in Hwf as [Ha Hc].
    apply bool_decide_eq_true in Ha as [a ->].
    apply bool_decide_eq_true in Hc as [c' ->].
    assert (∀ x f, (x = PyInt 0 ∨ ∃ y, x = PyFloat y) →
                   ∃ y, py_add x f = inr (PyFloat y)) as Hadd.
    { intros x f [->|[y ->]]; simpl; eauto. }
    destruct (Hadd (total_auth_time t) a) as [ya ->];
      [destruct Hinv as [(-> & _)|(? & ? & -> & _)]; eauto|].
    destruct (Hadd (total_conn_time t) c') as [yc ->];
      [destruct Hinv as [(_ & -> & _)|(? & ? & _ & ->)]; eauto|].
    simpl. eexists. split; [done|]. split; simpl; [lia|]. right. eauto.
  - eexists. split; [done|]. split; simpl; [lia|].
    destruct Hinv as [(-> & -> & ->)|?]; [by left|by right].
Qed.

Lemma sum_outcomes_inv values : ∀ t seen,
  forallb well_formed values = true → totals_inv t seen →
  ∃ t', sum_outcomes t values = inr t'
        ∧ totals_inv t' (seen + Z.of_nat (length values)).
Proof.
  induction values as [|c values IH]; intros t seen Hwf Hinv.
  - simpl. rewrite Z.add_0_r. eauto.
  - simpl in Hwf. apply andb_true_iff in Hwf as [Hc Hrest].
    destruct (add_outcome_inv t c seen Hc Hinv) as (t1 & Ht1 & Hinv1).
    destruct (IH t1 (seen + 1) Hrest Hinv1) as (t' & Ht' & Hinv').
    exists t'. simpl. rewrite Ht1. simpl. split; [done|].
    by replace (seen + Z.of_nat (S (length values)))
      with (seen + 1 + Z.of_nat (length values)) by lia.
Qed.

Lemma averages_inv t n :
  totals_inv t n → n ≤ sys_maxsize → ∃ avg, averages t n = inr avg.
Proof.
  intros [Hf Hinv] Hn. unfold averages.
  destruct Hinv as [(-> & -> & ->)|(a & c & -> & ->)].
  - rewrite Z.sub_diag. simpl. eauto.
  - simpl. destruct (Z.eqb_spec (n - total_failed t) 0); [simpl; eauto|].
    destruct (float_of_int_small (n - total_failed t)) as [d ->]; [lia|].
    simpl. eauto.
Qed.

(** A round of well-formed outcomes is always summarized. *)
Lemma summarize_total {D} values (d : D) :
  forallb well_formed values = true →
  Z.of_nat (length values) ≤ sys_maxsize →
  ∃ r, summarize values d = inr r.
Proof.
  intros Hwf Hlen. unfold summarize.
  destruct (sum_outcomes_inv values totals_init 0 Hwf) as (t & -> & Hinv).
  { split; simpl; [lia|]. by left. }
  simpl. rewrite Z.add_0_l in Hinv.
  destruct (averages_inv t _ Hinv Hlen) as [avg ->]. simpl. eauto.
Qed.

(** ** What a call reports for each round *)
Lemma foldl_dict_set_fresh {V} (nrs acc : dict string V) :
  NoDup (acc.*1 ++ nrs.*1) →
  foldl (λ a nr, dict_set a nr.1 nr.2) acc nrs = acc ++ nrs.
Proof.
  revert acc. induction nrs as [|[k v] nrs IH]; intros acc Hnd.
  - by rewrite app_nil_r.
  - simpl.
    assert (Hset : dict_set acc k v = acc ++ [(k, v)]).
    { assert (Hk : k ∉ acc.*1).
      { apply NoDup_app in Hnd as (_ & Hd & _). intros Hin.
        apply (Hd k Hin). simpl. left. }
      clear -Hk. induction acc as [|[k' v'] acc IH]; [done|].
      simpl in *. destruct (decide (k' = k)) as [->|Hne].
      - exfalso. apply Hk. left.
      - f_equal. apply IH. intros Hin. apply Hk. by right. }
    rewrite Hset, IH.
    + by rewrite <- app_assoc.
    + rewrite fmap_app. simpl. by rewrite <- app_assoc.
Qed.

Lemma dict_get_elem {V} (d : dict string V) k v :
  NoDup d.*1 → (k, v) ∈ d → dict_get d k = Some v.
Proof.
  induction d as [|[k' v'] d IH]; intros Hnd Hin.
  - by apply elem_of_nil in Hin.
  - simpl in *. apply NoDup_cons in Hnd as [Hk' Hnd].
    apply elem_of_cons in Hin as [Heq|Hin].
    + inversion Heq; subst. by rewrite decide_True.
    + destruct (decide (k' = k)) as [->|Hne]; [|by apply IH].
      exfalso. apply Hk'. apply list_elem_of_fmap. by exists (k, v).
Qed.

Lemma summaries_total input :
  forallb (λ nc, round_ok nc.2) input = true →
  ∃ nrs, summaries input = inr nrs
         ∧ nrs.*1 = input.*1
         ∧ (∀ name cs, (name, cs) ∈ input →
              ∃ r, summarize (dict_values cs) cs = inr r ∧ (name, r) ∈ nrs)
         ∧ (∀ name r, (name, r) ∈ nrs →
              ∃ cs, (name, cs) ∈ input ∧ conn_data r = cs).
Proof.
  induction input as [|[name cs] input IH]; intros Hok.
  - exists []. split; [done|]. split; [done|].
    split; intros ? ? Hin; by apply elem_of_nil in Hin.
  - simpl in Hok. apply andb_true_iff in Hok as [Hcs Hrest].
    destruct (IH Hrest) as (nrs & Hnrs & Hnames & Hall & Hback).
    unfold round_ok in Hcs. apply andb_true_iff in Hcs as [Hwf Hlen].
    apply Z.leb_le in Hlen. unfold dict_len in Hlen.
    destruct (summarize_total (dict_values cs) cs Hwf) as [r Hr].
    { unfold dict_values. by rewrite length_fmap. }
    exists ((name, r) :: nrs). simpl. rewrite Hr, Hnrs. simpl.
    split; [done|]. split; [by f_equal|]. split.
    + intros name' cs' Hin. apply elem_of_cons in Hin as [Heq|Hin].
      * inversion Heq; subst. exists r. split; [done|]. left.
      * destruct (Hall name' cs' Hin) as (r' & Hr' & Hin').
        exists r'. split; [done|]. by right.
    + intros name' r' Hin. apply elem_of_cons in Hin as [Heq|Hin].
      * inversion Heq; subst. exists cs. split; [left|].
        by apply summarize_data in Hr.
      * destruct (Hback name' r' Hin) as (cs' & Hin' & Hdata).
        exists cs'. split; [by right|done].
Qed.

(** On rounds of well-formed outcomes under distinct names the call
    returns, and its report holds, under each name, the summary of that
    round. *)
Lemma calculate_stats_returns w p conns rounds cps cw gw ty h input :
  snapshot h p = inr input →
  dict_wf input →
  forallb (λ nc, round_ok nc.2) input = true →
  ∃ rep, by_value (_calculate_stats w p conns rounds cps cw gw false ty h)
           = inr rep
         ∧ dict_keys (round_data rep) = dict_keys input
         ∧ (∀ name cs, (name, cs) ∈ input →
              ∃ r, summarize (dict_values cs) cs = inr r
                   ∧ dict_get (round_data rep) name = Some r)
         ∧ (∀ name r, (name, r) ∈ round_data rep →
              ∃ cs, (name, cs) ∈ input ∧ conn_data r = cs).
Proof.
  intros Hsnap Hwf Hok.
  rewrite (calculate_stats_by_value _ _ _ _ _ _ _ _ _ _ input) by done.
  destruct (summaries_total input Hok) as (nrs & Hnrs & Hnames & Hall & Hback).
  unfold report_of. rewrite Hnrs. simpl. eexists. split; [done|]. simpl.
  unfold dict_wf, dict_keys in Hwf. rewrite <- Hnames in Hwf.
  rewrite foldl_dict_set_fresh by done. simpl.
  split; [done|]. split.
  - intros name cs Hin. destruct (Hall name cs Hin) as (r & Hr & Hin').
    exists r. split; [done|]. by apply dict_get_elem.
  - done.
Qed.

Lemma sample_snapshot : snapshot sample_store 8%nat = inr sample_rounds.
Proof. reflexivity. Qed.

Lemma sample_rounds_wf : dict_wf sample_rounds.
Proof. unfold dict_wf. apply (bool_decide_unpack _). by vm_compute. Qed.

Lemma no_success_Forall cs :
  no_success cs = true → Forall (λ c, success c = false) (dict_values cs).
Proof.
  unfold no_success. rewrite forallb_forall. intros Hnone.
  apply Forall_forall. intros c Hc. apply list_elem_of_In in Hc.
  specialize (Hnone c Hc). by destruct (success c).
Qed.

(** C1.  A round in which no outcome is successful is reported with both
    averages equal to the int [0] (the [ZeroDivisionError] of line 148
    is caught, so neither [nan] nor an exception comes out) and with
    [failed_conns] equal to the number of its outcomes; the call returns
    its report.  [perf_times] may hold other rounds, of well-formed
    outcomes; the chart is not asked for. *)
Theorem calculate_stats_no_success_averages
    w p conns rounds cps cw gw ty h input name cs :
  snapshot h p = inr input →
  dict_wf input →
  forallb (λ nc, round_ok nc.2) input = true →
  (name, cs) ∈ input →
  no_success cs = true →
  ∃ rep r,
    by_value (_calculate_stats w p conns rounds cps cw gw false ty h) = inr rep
    ∧ dict_get (round_data rep) name = Some r
    ∧ avg_auth_time r = PyInt 0
    ∧ avg_conn_time r = PyInt 0
    ∧ failed_conns r = dict_len cs.
Proof.
  intros Hsnap Hwf Hok Hin Hnone.
  destruct (calculate_stats_returns w p conns rounds cps cw gw ty h input
              Hsnap Hwf Hok) as (rep & Hrep & _ & Hall & _).
  destruct (Hall name cs Hin) as (r & Hr & Hget).
  exists rep, r. split; [done|]. split; [done|].
  rewrite summarize_failed in Hr.
  - inversion Hr; subst; simpl. unfold dict_len, dict_values.
    by rewrite length_fmap.
  - by apply no_success_Forall.
Qed.

Lemma calculate_stats_no_success_averages_witness :
  ∃ rep r,
    by_value (_calculate_stats smooth_world 8%nat 4 2 (PyFloat 100) 0 0 false
                "SFTP" sample_store) = inr rep
    ∧ dict_get (round_data rep) "round_2" = Some r
    ∧ avg_auth_time r = PyInt 0
    ∧ avg_conn_time r = PyInt 0
    ∧ failed_conns r = 2.
Proof.
  apply (calculate_stats_no_success_averages smooth_world 8%nat 4 2
           (PyFloat 100) 0 0 "SFTP" sample_store sample_rounds "round_2"
           [ (1, failed_stat 1 (Exn AsyncioTimeoutError ""));
             (2, failed_stat 2 (Exn AsyncsshError "Permission denied")) ]).
  - reflexivity.
  - exact sample_rounds_wf.
  - reflexivity.
  - apply list_elem_of_lookup. by exists 1%nat.
  - reflexivity.
Defined.

(** C2.  In the report of a round without a successful outcome the two
    minima are still the [float('inf')] they were initialised with, and
    the two maxima are the int [0]. *)
Theorem calculate_stats_no_success_extrema
    w p conns rounds cps cw gw ty h input name cs :
  snapshot h p = inr input →
  dict_wf input →
  forallb (λ nc, round_ok nc.2) input = true →
  (name, cs) ∈ input →
  no_success cs = true →
  ∃ rep r,
    by_value (_calculate_stats w p conns rounds cps cw gw false ty h) = inr rep
    ∧ dict_get (round_data rep) name = Some r
    ∧ min_auth_time r = infinity
    ∧ min_conn_time r = infinity
    ∧ max_auth_time r = PyInt 0
    ∧ max_conn_time r = PyInt 0.
Proof.
  intros Hsnap Hwf Hok Hin Hnone.
  destruct (calculate_stats_returns w p conns rounds cps cw gw ty h input
              Hsnap Hwf Hok) as (rep & Hrep & _ & Hall & _).
  destruct (Hall name cs Hin) as (r & Hr & Hget).
  exists rep, r. split; [done|]. split; [done|].
  rewrite summarize_failed in Hr by by apply no_success_Forall.
  by inversion Hr.
Qed.

Lemma calculate_stats_no_success_extrema_witness :
  ∃ rep r,
    by_value (_calculate_stats smooth_world 8%nat 4 2 (PyFloat 100) 0 0 false
                "SFTP" sample_store) = inr rep
    ∧ dict_get (round_data rep) "round_2" = Some r
    ∧ min_auth_time r = infinity
    ∧ min_conn_time r = infinity
    ∧ max_auth_time r = PyInt 0
    ∧ max_conn_time r = PyInt 0.
Proof.
  apply (calculate_stats_no_success_extrema smooth_world 8%nat 4 2
           (PyFloat 100) 0 0 "SFTP" sample_store sample_rounds "round_2"
           [ (1, failed_stat 1 (Exn AsyncioTimeoutError ""));
             (2, failed_stat 2 (Exn AsyncsshError "Permission denied")) ]).
  - reflexivity.
  - exact sample_rounds_wf.
  - reflexivity.
  - apply list_elem_of_lookup. by exists 1%nat.
  - reflexivity.
Defined.

(** C7, as stated, fails on the sample round: outcome 3 has failed,
    outcomes 1, 2 and 4 authenticated in 0.1, 0.2 and 0.3 seconds, and
    the average the call reports does not compare equal to [0.2]. *)
Lemma average_of_tenths_is_inexact :
  ∃ rep r x,
    by_value (_calculate_stats smooth_world 8%nat 4 2 (PyFloat 100) 0 0 false
                "SFTP" sample_store) = inr rep
    ∧ dict_get (round_data rep) "round_1" = Some r
    ∧ failed_conns r = 1
    ∧ avg_auth_time r = PyFloat x
    ∧ (x =? 0.2)%float = false.
Proof.
  eexists _, _, _. split; [by vm_compute|]. split; [by vm_compute|].
  split; [done|]. split; [done|]. by vm_compute.
Qed.

Lemma float_of_int_0 : float_of_int 0 = inr 0%float.
Proof. by vm_compute. Qed.

Lemma float_of_int_3 : float_of_int 3 = inr 3%float.
Proof. by vm_compute. Qed.

Lemma summarize_three_of_four {D} (d : D) c1 c2 c3 c4 :
  success c1 = true → auth_time c1 = Some 0.1%float →
  success c2 = true → auth_time c2 = Some 0.2%float →
  success c3 = false →
  success c4 = true → auth_time c4 = Some 0.3%float →
  ∀ r, summarize [c1; c2; c3; c4] d = inr r →
  failed_conns r = 1 ∧ avg_auth_time r = PyFloat 0.20000000000000004.
Proof.
  intros H1 A1 H2 A2 H3 H4 A4 r Hr.
  unfold summarize in Hr. cbn [sum_outcomes] in Hr.
  unfold add_outcome in Hr. rewrite H1, A1, H2, A2, H3, H4, A4 in Hr.
  destruct (conn_time c1) as [x1|]; [|done].
  destruct (conn_time c2) as [x2|]; [|done].
  destruct (conn_time c4) as [x4|]; [|done].
  cbn [totals_init rbind py_add total_auth_time total_conn_time] in Hr.
  rewrite float_of_int_0 in Hr.
  cbn [rbind py_add total_auth_time total_conn_time total_failed] in Hr.
  unfold averages in Hr.
  cbn [rbind py_truediv total_auth_time total_conn_time total_failed] in Hr.
  change (Z.of_nat (length [c1; c2; c3; c4]) - (total_failed totals_init + 1))
    with 3 in Hr.
  change (3 =? 0) with false in Hr. cbn iota in Hr.
  rewrite float_of_int_3 in Hr. cbn [rbind fst snd] in Hr.
  inversion Hr; subst. cbn [failed_conns avg_auth_time].
  split; [done|]. by vm_compute.
Qed.

(** C7, amended.  On a round of four outcomes where outcome 3 has failed
    and outcomes 1, 2 and 4 authenticated in 0.1, 0.2 and 0.3 seconds,
    the call reports [failed_conns == 1] and the average
    [0.20000000000000004], the binary64 value of
    [(0 + 0.1 + 0.2 + 0.3) / 3]; it lies within [1e-16] of [0.2]. *)
Theorem calculate_stats_three_of_four
    w p conns rounds cps cw gw ty h input name c1 c2 c3 c4 :
  snapshot h p = inr input →
  dict_wf input →
  forallb (λ nc, round_ok nc.2) input = true →
  (name, [(1, c1); (2, c2); (3, c3); (4, c4)]) ∈ input →
  success c1 = true → auth_time c1 = Some 0.1%float →
  success c2 = true → auth_time c2 = Some 0.2%float →
  success c3 = false →
  success c4 = true → auth_time c4 = Some 0.3%float →
  ∃ rep r x,
    by_value (_calculate_stats w p conns rounds cps cw gw false ty h) = inr rep
    ∧ dict_get (round_data rep) name = Some r
    ∧ failed_conns r = 1
    ∧ avg_auth_time r = PyFloat x
    ∧ x = 0.20000000000000004%float
    ∧ (abs (x - 0.2) <? 1e-16)%float = true.
Proof.
  intros Hsnap Hwf Hok Hin H1 A1 H2 A2 H3 H4 A4.
  destruct (calculate_stats_returns w p conns rounds cps cw gw ty h input
              Hsnap Hwf Hok) as (rep & Hrep & _ & Hall & _).
  destruct (Hall _ _ Hin) as (r & Hr & Hget).
  destruct (summarize_three_of_four _ c1 c2 c3 c4 H1 A1 H2 A2 H3 H4 A4 r Hr)
    as [Hfailed Havg].
  exists rep, r, 0.20000000000000004%float.
  repeat (split; [done|]). by vm_compute.
Qed.

Lemma calculate_stats_three_of_four_witness :
  ∃ rep r x,
    by_value (_calculate_stats smooth_world 8%nat 4 2 (PyFloat 100) 0 0 false
                "SFTP" sample_store) = inr rep
    ∧ dict_get (round_data rep) "round_1" = Some r
    ∧ failed_conns r = 1
    ∧ avg_auth_time r = PyFloat x
    ∧ x = 0.20000000000000004%float
    ∧ (abs (x - 0.2) <? 1e-16)%float = true.
Proof.
  apply (calculate_stats_three_of_four smooth_world 8%nat 4 2
           (PyFloat 100) 0 0 "SFTP" sample_store sample_rounds "round_1"
           (succeeded 1 0.1 1.5) (succeeded 2 0.2 2.5)
           (failed_stat 3 (Exn OSError "Connection refused"))
           (succeeded 4 0.3 3.5)).
  - reflexivity.
  - exact sample_rounds_wf.
  - reflexivity.
  - apply list_elem_of_lookup. by exists 0%nat.
  - reflexivity.
  - reflexivity.
  - reflexivity.
  - reflexivity.
  - reflexivity.
  - reflexivity.
  - reflexivity.
Defined.

(** ** Purity *)
Lemma prefix_conn_at h hf l c :
  h `prefix_of` hf → conn_at h l = inr c → conn_at hf l = inr c.
Proof.
  intros Hpre. unfold conn_at. destruct (h !! l) as [o|] eqn:Hl; [|done].
  by rewrite (prefix_lookup_Some _ _ _ _ Hl Hpre).
Qed.

Lemma prefix_round_at h hf l d :
  h `prefix_of` hf → round_at h l = inr d → round_at hf l = inr d.
Proof.
  intros Hpre. unfold round_at. destruct (h !! l) as [o|] eqn:Hl; [|done].
  by rewrite (prefix_lookup_Some _ _ _ _ Hl Hpre).
Qed.

Lemma prefix_outcomes_at h hf d : ∀ cs,
  h `prefix_of` hf → outcomes_at h d = inr cs → outcomes_at hf d = inr cs.
Proof.
  induction d as [|[k l] d IH]; intros cs Hpre Hcs; [done|].
  simpl in *. destruct (conn_at h l) as [e|c] eqn:Hc; [done|].
  rewrite (prefix_conn_at h hf l c) by done. simpl in *.
  destruct (outcomes_at h d) as [e|cs'] eqn:Hd; [done|].
  by rewrite (IH cs').
Qed.

Lemma prefix_snapshot_rounds h hf items : ∀ input,
  h `prefix_of` hf →
  snapshot_rounds h items = inr input → snapshot_rounds hf items = inr input.
Proof.
  induction items as [|[name l] items IH]; intros input Hpre; [done|].
  simpl. destruct (round_at h l) as [e|d] eqn:Hd; [done|].
  rewrite (prefix_round_at h hf l d) by done. simpl.
  destruct (outcomes_at h d) as [e|cs] eqn:Hcs; [done|].
  rewrite (prefix_outcomes_at h hf d cs) by done. simpl.
  destruct (snapshot_rounds h items) as [e|rs]; [done|].
  by rewrite (IH rs).
Qed.

Lemma prefix_snapshot h hf p input :
  h `prefix_of` hf → snapshot h p = inr input → snapshot hf p = inr input.
Proof.
  intros Hpre. unfold snapshot, rounds_at.
  destruct (h !! p) as [o|] eqn:Hp; [|done].
  rewrite (prefix_lookup_Some _ _ _ _ Hp Hpre).
  destruct o as [| |items| |]; try done. simpl.
  by apply prefix_snapshot_rounds.
Qed.

(** C9.  Two calls on stores that hold the same rounds of outcomes, at
    whatever places, end alike: in the same exception or in equal
    reports.  A call changes no object that was in the store, so the
    rounds it was given, down to every outcome record, read the same
    afterwards. *)
Theorem calculate_stats_pure
    w conns rounds cps cw gw graph ty h1 p1 h2 p2 input :
  snapshot h1 p1 = inr input →
  snapshot h2 p2 = inr input →
  by_value (_calculate_stats w p1 conns rounds cps cw gw graph ty h1)
    = by_value (_calculate_stats w p2 conns rounds cps cw gw graph ty h2)
  ∧ (∀ l o, h1 !! l = Some o →
       (_calculate_stats w p1 conns rounds cps cw gw graph ty h1).2 !! l
         = Some o)
  ∧ snapshot (_calculate_stats w p1 conns rounds cps cw gw graph ty h1).2 p1
      = inr input.
Proof.
  intros Hs1 Hs2.
  pose proof (calculate_stats_prefix w p1 conns rounds cps cw gw graph ty h1)
    as Hpre.
  split; [|split].
  - rewrite (calculate_stats_by_value _ _ _ _ _ _ _ _ _ _ input) by done.
    by rewrite (calculate_stats_by_value _ _ _ _ _ _ _ _ _ _ input).
  - intros l o Hl. by eapply prefix_lookup_Some.
  - by eapply prefix_snapshot.
Qed.

Lemma calculate_stats_pure_witness :
  by_value (_calculate_stats smooth_world 8%nat 4 2 (PyFloat 100) 0 0 true
              "SFTP" sample_store)
    = by_value (_calculate_stats smooth_world 0%nat 4 2 (PyFloat 100) 0 0 true
                  "SFTP" moved_store)
  ∧ (∀ l o, sample_store !! l = Some o →
       (_calculate_stats smooth_world 8%nat 4 2 (PyFloat 100) 0 0 true
          "SFTP" sample_store).2 !! l = Some o)
  ∧ snapshot (_calculate_stats smooth_world 8%nat 4 2 (PyFloat 100) 0 0 true
                "SFTP" sample_store).2 8%nat = inr sample_rounds.
Proof.
  apply (calculate_stats_pure smooth_world 4 2 (PyFloat 100) 0 0 true "SFTP"
           sample_store 8%nat moved_store 0%nat sample_rounds).
  - reflexivity.
  - reflexivity.
Defined.

(** ** One attempt *)

Lemma failed_stat_well_formed count e : well_formed (failed_stat count e) = true.
Proof. done. Qed.

(** What an attempt can end in: the exception of an awaited call that
    the [except] clause does not name, the failure dictionary of one it
    names, or the success dictionary when no call failed. *)
Lemma coroutine_outcome sftp fuel wait env count user cw ls :
  match coroutine sftp fuel wait env count user cw ls with
  | None => True
  | Some (inl e) =>
      raised_in sftp env user (operand sftp ls) e ∧ caught e = false
  | Some (inr c) =>
      conn_id c = count ∧ well_formed c = true
      ∧ ((success c = true ∧ ∀ e, ¬ raised_in sftp env user (operand sftp ls) e)
         ∨ (∃ e, raised_in sftp env user (operand sftp ls) e
                 ∧ caught e = true ∧ c = failed_stat count e))
  end.
Proof.
  unfold coroutine, _sftp, _ssh, try_except, async_with, operate_and_hold,
    raised_in, operand.
  destruct sftp;
    destruct (connect env user) as [e1|[]] eqn:E1;
    destruct (connect_exit env) as [e2|[]] eqn:E2;
    destruct (start_sftp_client env) as [e3|[]] eqn:E3;
    destruct (sftp_exit env) as [e4|[]] eqn:E4;
    try destruct (operation env _) as [e5|r] eqn:E5;
    try destruct (sleeping env) as [e6|[]] eqn:E6;
    try destruct (wait_phase _ _ _ _) as [t|];
    try done;
    repeat match goal with
      | |- context [caught ?e] => destruct (caught e) eqn:?
      end;
    try (split; [auto 10|done]);
    (split; [done|]); (split; [done|]);
    try (right; eexists; split; [|done]; auto 10);
    left; (split; [done|]); intros e He; intuition congruence.
Qed.

(** An attempt that returns carries the id it was started with. *)
Lemma coroutine_id sftp fuel wait env count user cw ls c :
  coroutine sftp fuel wait env count user cw ls = Some (inr c) →
  conn_id c = count ∧ well_formed c = true.
Proof.
  intros H. pose proof (coroutine_outcome sftp fuel wait env count user cw ls) as Ho.
  rewrite H in Ho. by destruct Ho as (? & ? & _).
Qed.

(** ** The wait of an attempt against the deadline *)

Lemma time_sleep_ok n : 0 ≤ n ≤ 9223372036 → time_sleep n = inr tt.
Proof.
  intros Hn. unfold time_sleep.
  destruct (Z.ltb_spec n (- 9223372036)); [lia|].
  destruct (Z.ltb_spec 9223372036 n); [lia|].
  by destruct (Z.ltb_spec n 0); [lia|].
Qed.

Lemma time_sleep_raises n :
  n < 0 ∨ 9223372036 < n → ∃ e, time_sleep n = inl e.
Proof.
  intros Hn. unfold time_sleep.
  destruct (Z.ltb_spec n (- 9223372036)); [by eexists|].
  destruct (Z.ltb_spec 9223372036 n); [by eexists|].
  destruct (Z.ltb_spec n 0); [by eexists|lia].
Qed.

(** A timer that [time.sleep] accepts keeps the flag set for [n]
    seconds. *)
Lemma drop_all_timer_armed n t :
  0 < n ≤ 9223372036 → drop_all_timer n t = (t <? 1000 * n).
Proof.
  intros Hn. unfold drop_all_timer.
  destruct (Z.eqb_spec n 0); [lia|]. by rewrite time_sleep_ok by lia.
Qed.

(** One that it refuses leaves the flag set for good. *)
Lemma drop_all_timer_stuck n t :
  n < 0 ∨ 9223372036 < n → drop_all_timer n t = true.
Proof.
  intros Hn. unfold drop_all_timer.
  destruct (Z.eqb_spec n 0); [lia|].
  by destruct (time_sleep_raises n Hn) as [e ->].
Qed.

(** The flag the attempts read is cleared no later than the flag of the
    round's own thread. *)
Lemma wait_flag_own n stale t :
  wait_flag n stale t = true → drop_all_timer n t = true.
Proof. unfold wait_flag. by intros [? _]%andb_true_iff. Qed.

Lemma wait_flag_stuck n stale t :
  n < 0 ∨ 9223372036 < n → wait_flag n stale t = true.
Proof.
  intros Hn. unfold wait_flag. rewrite drop_all_timer_stuck by done.
  by destruct (time_sleep_raises n Hn) as [e ->].
Qed.

Lemma wait_flag_fired n stale t :
  0 ≤ n ≤ 9223372036 → 1000 * n ≤ t → wait_flag n stale t = false.
Proof.
  intros Hn Ht. unfold wait_flag.
  destruct (decide (n = 0)) as [->|Hne]; [done|].
  rewrite drop_all_timer_armed by lia.
  by destruct (Z.ltb_spec t (1000 * n)); [lia|].
Qed.


(** In a round that no earlier timer thread reaches into, the attempts
    read the flag as the round's own thread writes it. *)
Lemma wait_flag_alone n t : wait_flag n [] t = drop_all_timer n t.
Proof.
  unfold wait_flag. cbn [forallb].
  destruct (time_sleep n); by rewrite andb_true_r.
Qed.

(** After the deadline the attempt sleeps for [conn_wait], in every
    round. *)
Lemma wait_phase_flag_fired fuel n stale t cw :
  0 < n ≤ 9223372036 → 1000 * n ≤ t →
  wait_phase fuel (wait_flag n stale) t cw = Some (t + 1000 * Z.max 0 cw).
Proof.
  intros Hn Ht. unfold wait_phase. by rewrite wait_flag_fired by lia.
Qed.

Lemma wait_phase_fired fuel n t cw :
  0 < n ≤ 9223372036 → 1000 * n ≤ t →
  wait_phase fuel (drop_all_timer n) t cw = Some (t + 1000 * Z.max 0 cw).
Proof.
  intros Hn Ht. unfold wait_phase. rewrite drop_all_timer_armed by done.
  by destruct (Z.ltb_spec t (1000 * n)); [lia|].
Qed.

(** C5 does not hold of the code.  With a global wait of one second and
    a connection wait of five, an attempt whose operation ends half a
    second after the round began is closed when the deadline fires; but
    one whose operation ends after two seconds finds the flag cleared
    and is held for the five seconds of the connection wait, where
    without a connection wait it would be closed at once. *)
Theorem wait_phase_honours_conn_wait_after_deadline :
  wait_phase 16 (drop_all_timer 1) 500 5 = Some 1000
  ∧ wait_phase 16 (drop_all_timer 1) 2000 5 = Some 7000
  ∧ wait_phase 16 (drop_all_timer 1) 2000 0 = Some 2000.
Proof. by vm_compute. Qed.

(** ** Dictionaries *)

Lemma dict_set_fresh {K V} `{EqDecision K} (d : dict K V) k v :
  k ∉ dict_keys d → dict_set d k v = d ++ [(k, v)].
Proof.
  unfold dict_keys. induction d as [|[k' v'] d IH]; intros Hk; [done|].
  simpl in *. destruct (decide (k' = k)) as [->|Hne].
  - exfalso. apply Hk. left.
  - f_equal. apply IH. intros Hin. apply Hk. by right.
Qed.

(** ** The scheduler *)

Section HammerFacts.
Variable w : world.
Variable round : nat.
Variable self : SSHstress.
Variable conns : Z.
Variable conn_wait : Z.
Variable global_wait : Z.
Variable sftp : bool.
Variable sftp_ls : string.
Variable loop_speed : num.

Local Abbreviation step1 :=
  (step w round self conns conn_wait global_wait sftp sftp_ls loop_speed).
Local Abbreviation steps1 :=
  (steps w round self conns conn_wait global_wait sftp sftp_ls loop_speed).
Local Abbreviation run1 :=
  (run w round self conns conn_wait global_wait sftp sftp_ls loop_speed).
Local Abbreviation attempt1 :=
  (attempt w round conn_wait global_wait sftp sftp_ls).
Local Abbreviation finished1 :=
  (finished w round conn_wait global_wait sftp sftp_ls).

Lemma attempt_coroutine t :
  attempt1 t =
    coroutine sftp (patience w) (wait_flag global_wait (stale_timers w round))
      (attempts w round (task_id t)) (task_id t) (task_user t) conn_wait sftp_ls.
Proof. done. Qed.

Lemma finished_id ids t c :
  finished1 ids t = Some (inr c) → keyed (task_id t, c).
Proof.
  unfold finished. case_bool_decide; [|done].
  rewrite attempt_coroutine. apply coroutine_id.
Qed.

(** Properties kept by every step hold wherever the loop gets. *)
Lemma steps_invariant (P : hammer_state → Prop) :
  (∀ s s', P s → step1 s = Next s' → P s') →
  ∀ n s s', P s → steps1 n s = Some s' → P s'.
Proof.
  intros Hstep. induction n as [|n IH]; intros s s' Hs Hn; simpl in Hn.
  - by inversion Hn; subst.
  - destruct (step1 s) as [s1| | |] eqn:E; try done. eauto.
Qed.

Lemma run_invariant (P : hammer_state → Prop) :
  (∀ s s', P s → step1 s = Next s' → P s') →
  ∀ fuel s s', P s → run1 fuel s = Returned s' →
  P s' ∧ step1 s' = Return_ s'.
Proof.
  intros Hstep. induction fuel as [|fuel IH]; intros s s' Hs Hrun; [done|].
  simpl in Hrun. destruct (step1 s) as [s1|s1| |] eqn:E; try done.
  - eauto.
  - inversion Hrun; subst. 
    assert (s = s') as ->; [|done].
    unfold step in E. destruct (at_ s); [|repeat case_match; done..].
    destruct (tasks s); repeat case_match; try done. by inversion E.
Qed.

(** The reap leaves the other tasks outstanding and files each outcome
    under the id of its task. *)
Lemma reap_spec ids : ∀ ts perf perf',
  NoDup ((task_id <$> ts) ++ dict_keys perf) →
  Forall keyed perf →
  reap (omap (finished1 ids) ts) perf = inr perf' →
  (task_id <$> filter (λ t, finished1 ids t = None) ts) ++ dict_keys perf'
    ≡ₚ (task_id <$> ts) ++ dict_keys perf
  ∧ Forall keyed perf'.
Proof.
  induction ts as [|t ts IH]; intros perf perf' Hnd Hkeyed Hreap.
  - simpl in *. by inversion Hreap; subst.
  - rewrite fmap_cons in Hnd. simpl in Hnd. apply NoDup_cons in Hnd as [Ht Hnd].
    simpl in Hreap. rewrite filter_cons.
    destruct (finished1 ids t) as [[e|c]|] eqn:Hf.
    + done.
    + simpl in Hreap.
      destruct (finished_id ids t c Hf) as [Hid Hwf]. simpl in Hid.
      rewrite Hid in Hreap.
      rewrite dict_set_fresh in Hreap
        by (intros Hin; apply Ht; apply elem_of_app; by right).
      rewrite decide_False by done.
      destruct (IH (perf ++ [(task_id t, c)]) perf') as [Hperm Hall]; try done.
      * unfold dict_keys. rewrite fmap_app. simpl.
        rewrite app_assoc. apply NoDup_app. split; [done|]. split.
        -- intros x Hx Hx'. apply list_elem_of_singleton in Hx'. by subst.
        -- apply NoDup_singleton.
      * apply Forall_app. split; [done|]. by repeat constructor.
      * split; [|done]. rewrite Hperm. unfold dict_keys.
        rewrite fmap_app, (fmap_cons task_id). simpl.
        rewrite app_assoc. symmetry. apply Permutation_cons_append.
    + rewrite decide_True by done. rewrite fmap_cons. simpl.
      destruct (IH perf perf') as [Hperm Hall]; try done.
      split; [|done]. by rewrite Hperm.
Qed.

Lemma step_ids s s' : ids_inv conns s → step1 s = Next s' → ids_inv conns s'.
Proof.
  intros (Hcount & Hopened & Hperm & Hkeyed) Hstep. unfold step in Hstep.
  destruct (at_ s).
  - destruct (tasks s) as [|t ts] eqn:Hts.
    + case_match; [|done]. by inversion Hstep; subst.
    + set (ids := completed w round (waits s) (task_id <$> t :: ts)) in *.
      destruct (omap (finished1 ids) (t :: ts)) as [|d ds] eqn:Hdone; [done|].
      destruct (reap (d :: ds) (perf_times s)) as [e|perf'] eqn:Hreap; [done|].
      inversion Hstep; subst. unfold ids_inv. simpl.
      rewrite <- Hdone in Hreap.
      destruct (reap_spec ids (t :: ts) (perf_times s) perf') as [Hp Hk];
        try done.
      { rewrite Hperm. apply NoDup_seqZ. }
      split; [done|]. split; [done|]. split; [|done].
      by rewrite Hp.
  - case_match eqn:Hguard.
    + apply andb_true_iff in Hguard as [Hlt _]. apply Z.ltb_lt in Hlt.
      destruct (cycle_next (users s)) as [[u users']|]; [|done].
      inversion Hstep; subst. unfold ids_inv. simpl.
      assert (Hseq : seqZ 1 (count s + 1) = seqZ 1 (count s) ++ [count s + 1]).
      { rewrite seqZ_app by lia. f_equal.
        rewrite seqZ_cons by lia. rewrite seqZ_nil by lia. f_equal. lia. }
      split; [lia|]. split; [|split; [|done]].
      * rewrite fmap_app. simpl. by rewrite Hopened, Hseq.
      * rewrite fmap_app. simpl. rewrite Hseq. rewrite <- Hperm.
        rewrite <- !app_assoc. apply Permutation_app_head. apply Permutation_app_comm.
    + inversion Hstep; subst. by unfold ids_inv.
  - destruct (asyncio_sleep w loop_speed) as [[e|[]]|]; try done.
    inversion Hstep; subst. by unfold ids_inv.
Qed.

Lemma init_ids : 0 ≤ conns → ids_inv conns (hammer_init self).
Proof.
  intros Hconns. unfold ids_inv, hammer_init. simpl.
  by rewrite seqZ_nil by lia.
Qed.

(** With at least zero slots, no step leaves more tasks outstanding than
    the instance allows. *)
Lemma step_bounded s s' :
  (Z.of_nat (length (tasks s)) ≤ max_concurrent_tasks self) →
  step1 s = Next s' →
  Z.of_nat (length (tasks s')) ≤ max_concurrent_tasks self.
Proof.
  intros Hb Hstep. unfold step in Hstep. destruct (at_ s).
  - destruct (tasks s) as [|t ts] eqn:Hts.
    + case_match; [|done]. by inversion Hstep; subst.
    + repeat case_match; try done. inversion Hstep; subst. simpl.
      etrans; [|exact Hb]. apply Nat2Z.inj_le. apply length_filter.
  - case_match eqn:Hguard.
    + apply andb_true_iff in Hguard as [_ Hlt]. apply Z.ltb_lt in Hlt.
      destruct (cycle_next (users s)) as [[u users']|]; [|done].
      inversion Hstep; subst. simpl. rewrite length_app. simpl. lia.
    + by inversion Hstep; subst.
  - destruct (asyncio_sleep w loop_speed) as [[e|[]]|]; try done.
    by inversion Hstep; subst.
Qed.

(** The username rotation goes on from step to step. *)
Lemma cycle_next_spec c :
  (position c < length (saved c))%nat →
  ∃ u, saved c !! position c = Some u
       ∧ cycle_next c =
           Some (u, {| saved := saved c;
                       position := (S (position c) mod length (saved c))%nat |}).
Proof.
  intros Hp. destruct (lookup_lt_is_Some_2 _ _ Hp) as [u Hu].
  exists u. split; [done|]. unfold cycle_next. rewrite Hu. do 3 f_equal.
  case_decide as Hlen.
  - rewrite Hlen. by rewrite Nat.Div0.mod_same.
  - rewrite Nat.mod_small; [done|lia].
Qed.

Lemma rotation_position names p0 s :
  names ≠ [] → rotation_inv names p0 s →
  (position (users s) < length (saved (users s)))%nat.
Proof.
  intros Hne (Hsaved & Hpos & _). rewrite Hsaved, Hpos.
  apply Nat.mod_upper_bound. by destruct names.
Qed.

Lemma step_rotation names p0 s s' :
  names ≠ [] → rotation_inv names p0 s → step1 s = Next s' →
  rotation_inv names p0 s'.
Proof.
  intros Hne Hinv Hstep.
  pose proof (rotation_position names p0 s Hne Hinv) as Hlt.
  destruct Hinv as (Hsaved & Hpos & Hopened).
  unfold step in Hstep. destruct (at_ s).
  - destruct (tasks s) as [|t ts] eqn:Hts.
    + case_match; [|done]. by injection Hstep as <-.
    + repeat case_match; try done. by injection Hstep as <-.
  - case_match.
    + destruct (cycle_next_spec (users s) Hlt) as (u & Hu & Hnext).
      rewrite Hnext in Hstep. injection Hstep as <-.
      unfold rotation_inv. simpl. split; [done|]. split.
      * rewrite Hpos, length_app. simpl. rewrite Hsaved.
        replace (p0 + (length (opened s) + 1))%nat
          with (1 + (p0 + length (opened s)))%nat by lia.
        by rewrite <- (Nat.Div0.add_mod_idemp_r 1 (p0 + length (opened s))
                       (length names)).
      * intros i t Hi.
        destruct (decide (i < length (opened s))%nat) as [Hlt'|Hge].
        -- rewrite lookup_app_l in Hi by done. by apply Hopened.
        -- rewrite lookup_app_r in Hi by lia.
           destruct (i - length (opened s))%nat as [|k] eqn:Hk; [|done].
           simpl in Hi. injection Hi as <-. simpl.
           replace i with (length (opened s)) by lia.
           by rewrite <- Hpos, <- Hsaved.
    + by injection Hstep as <-.
  - destruct (asyncio_sleep w loop_speed) as [[e|[]]|]; try done.
    by injection Hstep as <-.
Qed.

Lemma init_rotation c :
  (position c < length (saved c))%nat →
  user self = c → rotation_inv (saved c) (position c) (hammer_init self).
Proof.
  intros Hlt Hc. unfold rotation_inv, hammer_init. simpl. rewrite Hc.
  split; [done|]. split.
  - rewrite Nat.add_0_r. by rewrite Nat.mod_small.
  - intros i t Hi. done.
Qed.

(** ** The loop ends *)

Lemma reap_ok done_ : ∀ perf,
  Forall (λ r, ∃ c : conn_stat, r = inr c) done_ →
  ∃ perf', reap done_ perf = inr perf'.
Proof.
  induction done_ as [|r done_ IH]; intros perf Hall; [by eexists|].
  inversion Hall as [|? ? [c ->] Hrest]; subst. simpl. by apply IH.
Qed.



Section Completion.
Hypothesis conns_nonneg : 0 ≤ conns.
Hypothesis room : 1 ≤ max_concurrent_tasks self.
Hypothesis fair_world : fair w round.
Hypothesis reliable : ∀ t, ∃ c, attempt1 t = Some (inr c).
Hypothesis paced : asyncio_sleep w loop_speed = Some (inr tt).

Lemma step_effort names p0 s :
  names ≠ [] → rotation_inv names p0 s → 0 ≤ count s ≤ conns →
  match step1 s with
  | Next s' => (effort conns s' < effort conns s)%nat
  | Return_ _ => True
  | Raise_ _ | Never => False
  end.
Proof.
  intros Hne Hrot Hcount.
  pose proof (rotation_position names p0 s Hne Hrot) as Hlt.
  unfold step, effort. destruct (at_ s).
  - destruct (tasks s) as [|t ts] eqn:Hts.
    + destruct (Z.ltb_spec (count s) conns); [|done]. simpl. lia.
    + set (ids := completed w round (waits s) (task_id <$> t :: ts)).
      destruct (fair_world (waits s) (task_id <$> t :: ts)) as (i & Hi & Hdone);
        [done|].
      apply list_elem_of_fmap in Hi as (t0 & -> & Ht0).
      destruct (reliable t0) as [c Hc].
      assert (Hf0 : finished1 ids t0 = Some (inr c)).
      { unfold finished. by rewrite bool_decide_eq_true_2. }
      assert (Hin : inr c ∈ omap (finished1 ids) (t :: ts)).
      { apply list_elem_of_omap. by exists t0. }
      destruct (omap (finished1 ids) (t :: ts)) as [|d ds] eqn:Hom.
      { by apply elem_of_nil in Hin. }
      destruct (reap_ok (d :: ds) (perf_times s)) as [perf' ->].
      { rewrite <- Hom. apply Forall_forall. intros r Hr.
        apply list_elem_of_omap in Hr as (t1 & _ & Hf1).
        unfold finished in Hf1. case_bool_decide; [|done].
        destruct (reliable t1) as [c1 Hc1]. exists c1. congruence. }
      simpl.
      assert ((length (filter (λ t1, finished1 ids t1 = None) (t :: ts))
               < length (t :: ts))%nat) as Hless.
      { apply (length_filter_lt _ _ t0); [done|]. by rewrite Hf0. }
      simpl in Hless. lia.
  - destruct (Z.ltb_spec (count s) conns) as [Hc|Hc]; simpl.
    + destruct (Z.ltb_spec (Z.of_nat (length (tasks s)))
                  (max_concurrent_tasks self)) as [Hm|Hm]; simpl.
      * destruct (cycle_next_spec (users s) Hlt) as (u & _ & ->). simpl.
        rewrite length_app. simpl.
        replace (Z.to_nat (conns - (count s + 1)))
          with (Z.to_nat (conns - count s) - 1)%nat by lia.
        assert (1 ≤ Z.to_nat (conns - count s))%nat by lia. lia.
      * destruct (tasks s) as [|t ts] eqn:Hts; simpl in *; [lia|].
        lia.
    + destruct (tasks s) as [|t ts] eqn:Hts; simpl.
      * destruct (Z.ltb_spec (count s) conns); lia.
      * lia.
  - rewrite paced. simpl. lia.
Qed.

Lemma run_completes names p0 fuel : ∀ s,
  names ≠ [] → rotation_inv names p0 s → ids_inv conns s →
  (effort conns s < fuel)%nat →
  ∃ s', run1 fuel s = Returned s'.
Proof.
  induction fuel as [|fuel IH]; intros s Hne Hrot Hids Hfuel; [lia|].
  pose proof (step_effort names p0 s Hne Hrot (proj1 Hids)) as Heff.
  simpl. destruct (step1 s) as [s1|s1|e|] eqn:Hstep; try done.
  - apply IH; try done.
    + by eapply step_rotation.
    + by eapply step_ids.
    + lia.
  - by eexists.
Qed.

End Completion.

End HammerFacts.

(** ** The round as a whole *)

Lemma hammer_returned w round self conns cw gw sftp ls fuel cps s :
  0 ≤ conns →
  _hammer w round self conns cw gw sftp ls fuel cps = Returned s →
  ids_inv conns s ∧ tasks s = [] ∧ count s = conns.
Proof.
  intros Hconns Hrun. unfold _hammer in Hrun.
  destruct (py_truediv (PyInt 1) cps) as [e|loop_speed]; [done|].
  destruct (run_invariant w round self conns cw gw sftp ls loop_speed
              (ids_inv conns)
              (step_ids w round self conns cw gw sftp ls loop_speed)
              fuel (hammer_init self) s (init_ids self conns Hconns) Hrun)
    as [Hinv Hret].
  split; [done|]. destruct Hinv as (Hcount & _).
  unfold step in Hret. destruct (at_ s); [|repeat case_match; done..].
  destruct (tasks s); [|repeat case_match; done].
  destruct (Z.ltb_spec (count s) conns); [done|]. split; [done|]. lia.
Qed.

(** A delay that is a finite float comes to an end. *)
Lemma asyncio_sleep_finite w delay :
  is_finite delay = true → asyncio_sleep w (PyFloat delay) = Some (inr tt).
Proof.
  unfold is_finite. intros Hf. apply negb_true_iff in Hf.
  apply orb_false_iff in Hf as [Hnan Hinf]. unfold asyncio_sleep.
  rewrite Hnan, Hinf. by destruct (delay <=? 0)%float.
Qed.

Lemma hammer_completes w round self conns cw gw sftp ls fuel cps delay :
  0 ≤ conns →
  1 ≤ max_concurrent_tasks self →
  fair w round →
  (∀ t, ∃ c, attempt w round cw gw sftp ls t = Some (inr c)) →
  (position (user self) < length (saved (user self)))%nat →
  py_truediv (PyInt 1) cps = inr (PyFloat delay) →
  is_finite delay = true →
  (4 * Z.to_nat conns + 2 < fuel)%nat →
  ∃ s, _hammer w round self conns cw gw sftp ls fuel cps = Returned s.
Proof.
  intros Hconns Hroom Hfair Hrel Hpos Hcps Hfin Hfuel.
  unfold _hammer. rewrite Hcps.
  apply (run_completes w round self conns cw gw sftp ls (PyFloat delay)
           Hroom Hfair Hrel (asyncio_sleep_finite w delay Hfin)
           (saved (user self)) (position (user self))).
  - intros Hnil. rewrite Hnil in Hpos. simpl in Hpos. lia.
  - by apply init_rotation.
  - by apply init_ids.
  - unfold effort, hammer_init. simpl. rewrite Z.sub_0_r.
    destruct (0 <? conns); lia.
Qed.

(** C3, as stated for any limit, fails below zero: the scheduler that
    has launched nothing already holds more tasks than a limit of -1. *)
Lemma hammer_limit_below_zero :
  ∃ s, steps smooth_world 0 negative_limit 0 0 0 true "/" (PyFloat 0.01) 0
         (hammer_init negative_limit) = Some s
       ∧ ¬ Z.of_nat (length (tasks s)) ≤ max_concurrent_tasks negative_limit.
Proof. eexists. split; [done|]. simpl. lia. Qed.

(** C3, amended.  For any [conns] and any limit that is not negative,
    at every step of the loop the tasks the scheduler holds (every
    attempt launched and not yet collected, hence every attempt launched
    and not yet completed) are at most [max_concurrent_tasks]. *)
Theorem hammer_outstanding_bounded
    w round self conns cw gw sftp ls loop_speed n s :
  0 ≤ max_concurrent_tasks self →
  steps w round self conns cw gw sftp ls loop_speed n (hammer_init self)
    = Some s →
  Z.of_nat (length (tasks s)) ≤ max_concurrent_tasks self.
Proof.
  intros Hmax Hsteps.
  apply (steps_invariant w round self conns cw gw sftp ls loop_speed
           (λ s, Z.of_nat (length (tasks s)) ≤ max_concurrent_tasks self)
           (step_bounded w round self conns cw gw sftp ls loop_speed)
           n (hammer_init self) s); [|done].
  by simpl.
Qed.

Lemma hammer_outstanding_bounded_witness :
  ∃ s, steps hostile_world 0 sample_instance 5 0 0 true "/" (PyFloat 0.01) 8
         (hammer_init sample_instance) = Some s
       ∧ Z.of_nat (length (tasks s)) ≤ max_concurrent_tasks sample_instance.
Proof.
  eexists. split; [by vm_compute|].
  apply (hammer_outstanding_bounded hostile_world 0 sample_instance 5 0 0
           true "/" (PyFloat 0.01) 8).
  - simpl. lia.
  - by vm_compute.
Defined.

(** C4.  A completed round with [conns >= 0] has collected exactly
    [conns] outcomes, under the ids [1..conns], each id once and each
    outcome under its own id; the ids were handed out in increasing
    order as the attempts were launched.  This holds for every limit;
    [hammer_completes] shows that rounds complete under a limit of at
    least one. *)
Theorem hammer_collects_all_ids
    w round self conns cw gw sftp ls fuel cps s :
  0 ≤ conns →
  _hammer w round self conns cw gw sftp ls fuel cps = Returned s →
  dict_len (perf_times s) = conns
  ∧ dict_keys (perf_times s) ≡ₚ seqZ 1 conns
  ∧ NoDup (dict_keys (perf_times s))
  ∧ (∀ k c, (k, c) ∈ perf_times s → conn_id c = k)
  ∧ task_id <$> opened s = seqZ 1 conns.
Proof.
  intros Hconns Hrun.
  destruct (hammer_returned w round self conns cw gw sftp ls fuel cps s
              Hconns Hrun) as ((_ & Hopened & Hperm & Hkeyed) & Hts & Hcount).
  rewrite Hts in Hperm. simpl in Hperm. rewrite Hcount in *.
  split; [|split; [done|split; [|split; [|done]]]].
  - unfold dict_len. apply Permutation_length in Hperm.
    unfold dict_keys in Hperm. rewrite length_fmap, length_seqZ in Hperm. lia.
  - rewrite Hperm. apply NoDup_seqZ.
  - intros k c Hin. rewrite Forall_forall in Hkeyed.
    by destruct (Hkeyed _ Hin).
Qed.

Lemma hammer_collects_all_ids_witness :
  ∃ s, _hammer hostile_world 0 sample_instance 5 0 0 true "/" 32 (PyFloat 100)
         = Returned s
       ∧ dict_len (perf_times s) = 5
       ∧ dict_keys (perf_times s) ≡ₚ seqZ 1 5
       ∧ NoDup (dict_keys (perf_times s))
       ∧ (∀ k c, (k, c) ∈ perf_times s → conn_id c = k)
       ∧ task_id <$> opened s = seqZ 1 5.
Proof.
  eexists. split; [by vm_compute|].
  apply (hammer_collects_all_ids hostile_world 0 sample_instance 5 0 0
           true "/" 32 (PyFloat 100)).
  - lia.
  - by vm_compute.
Defined.





(** ** Sorting the outcomes of a round *)

Lemma Sorted_seqZ m n : Sorted Z.le (seqZ m n).
Proof.
  remember (Z.to_nat n) as k eqn:Hk. revert m n Hk.
  induction k as [|k IH]; intros m n Hk.
  - rewrite seqZ_nil by lia. constructor.
  - rewrite seqZ_cons by lia. constructor.
    + apply IH. lia.
    + destruct (decide (Z.pred n ≤ 0)).
      * rewrite seqZ_nil by done. constructor.
      * rewrite seqZ_cons by lia. constructor. lia.
Qed.

Lemma merge_sort_ids ks n :
  ks ≡ₚ seqZ 1 n → merge_sort Z.le ks = seqZ 1 n.
Proof.
  intros Hperm. apply (Sorted_unique Z.le).
  - apply Sorted_merge_sort. apply _.
  - apply Sorted_seqZ.
  - by rewrite merge_sort_Permutation.
Qed.

Lemma dict_get_Some {V} (d : dict Z V) k :
  k ∈ dict_keys d → ∃ v, dict_get d k = Some v ∧ (k, v) ∈ d.
Proof.
  unfold dict_keys. induction d as [|[k' v'] d IH]; intros Hin.
  - by apply elem_of_nil in Hin.
  - simpl. destruct (decide (k' = k)) as [->|Hne].
    + exists v'. split; [done|]. left.
    + apply elem_of_cons in Hin as [?|Hin]; [by subst|].
      destruct (IH Hin) as (v & Hv & Hin'). exists v. split; [done|]. by right.
Qed.

Lemma comprehension_spec times : ∀ ks acc,
  NoDup (dict_keys acc ++ ks) →
  (∀ k, k ∈ ks → k ∈ dict_keys times) →
  ∃ new, comprehension times ks acc = inr (acc ++ new)
         ∧ dict_keys new = ks
         ∧ ∀ kc, kc ∈ new → kc ∈ times.
Proof.
  induction ks as [|k ks IH]; intros acc Hnd Hks.
  - exists []. rewrite app_nil_r. split; [done|]. split; [done|].
    intros kc Hkc. by apply elem_of_nil in Hkc.
  - destruct (dict_get_Some times k) as (v & Hv & Hin); [apply Hks; left|].
    simpl. rewrite Hv.
    rewrite dict_set_fresh.
    2:{ apply NoDup_app in Hnd as (_ & Hd & _). intros Hk.
        apply (Hd k Hk). left. }
    destruct (IH (acc ++ [(k, v)])) as (new & Hnew & Hkeys & Hall).
    + unfold dict_keys in *. rewrite fmap_app. simpl.
      by rewrite <- app_assoc.
    + intros k' Hk'. apply Hks. by right.
    + exists ((k, v) :: new). rewrite Hnew, <- app_assoc. split; [done|].
      split.
      * unfold dict_keys in *. rewrite fmap_cons. simpl. by f_equal.
      * intros kc Hkc. apply elem_of_cons in Hkc as [->|Hkc]; [done|].
        by apply Hall.
Qed.

(** The outcomes of a completed round, re-ordered: the ids [1..conns]
    in ascending order, each with its outcome. *)
Lemma sorted_by_id_spec times conns :
  dict_keys times ≡ₚ seqZ 1 conns →
  ∃ sorted, sorted_by_id times = inr sorted
            ∧ dict_keys sorted = seqZ 1 conns
            ∧ ∀ kc, kc ∈ sorted → kc ∈ times.
Proof.
  intros Hperm. unfold sorted_by_id. rewrite (merge_sort_ids _ conns) by done.
  destruct (comprehension_spec times (seqZ 1 conns) []) as (new & Hnew & Hk & Hall).
  - simpl. apply NoDup_seqZ.
  - intros k Hk. by rewrite Hperm.
  - exists new. by rewrite Hnew.
Qed.

(** ** A round enters the store *)

Lemma store_outcomes_run times : ∀ h,
  ∃ d, store_outcomes times h = (inr d, h ++ (ConnDict <$> dict_values times))
       ∧ ∀ hf, h ++ (ConnDict <$> dict_values times) `prefix_of` hf →
               outcomes_at hf d = inr times.
Proof.
  induction times as [|[k c] times IH]; intros h.
  - exists []. simpl. by rewrite app_nil_r.
  - destruct (IH (h ++ [ConnDict c])) as (d & Hd & Hread).
    exists ((k, length h) :: d). simpl.
    unfold bind at 1. unfold alloc at 1. unfold bind at 1.
    rewrite Hd. unfold ret. rewrite <- app_assoc. simpl. split; [done|].
    intros hf Hpre. unfold conn_at.
    assert (hf !! length h = Some (ConnDict c)) as ->.
    { eapply prefix_lookup_Some; [|exact Hpre]. by apply list_lookup_middle. }
    simpl. rewrite Hread; [done|].
    by rewrite <- app_assoc.
Qed.

Lemma store_round_run times h :
  ∃ l h1, store_round times h = (inr l, h1)
          ∧ h `prefix_of` h1
          ∧ (length h ≤ l)%nat
          ∧ ∀ hf, h1 `prefix_of` hf →
                  ∃ d, round_at hf l = inr d ∧ outcomes_at hf d = inr times.
Proof.
  destruct (store_outcomes_run times h) as (d & Hd & Hread).
  unfold store_round, bind. rewrite Hd. unfold alloc.
  eexists _, _. split; [done|]. split; [|split].
  - rewrite <- app_assoc. by apply prefix_app_r.
  - rewrite length_app. lia.
  - intros hf Hpre. exists d. split.
    + unfold round_at.
      assert (hf !! length (h ++ (ConnDict <$> dict_values times))
              = Some (RoundDict d)) as ->; [|done].
      eapply prefix_lookup_Some; [|exact Hpre]. by apply list_lookup_middle.
    + apply Hread. etrans; [|exact Hpre]. by apply prefix_app_r.
Qed.

Lemma snapshot_rounds_app h d1 d2 :
  snapshot_rounds h (d1 ++ d2) =
    (x ←ᵣ snapshot_rounds h d1; y ←ᵣ snapshot_rounds h d2; inr (x ++ y)).
Proof.
  induction d1 as [|[name l] d1 IH]; simpl.
  - by destruct (snapshot_rounds h d2).
  - destruct (round_at h l) as [e|d]; [done|]. simpl.
    destruct (outcomes_at h d) as [e|cs]; [done|]. simpl.
    rewrite IH. destruct (snapshot_rounds h d1) as [e|x]; [done|]. simpl.
    by destruct (snapshot_rounds h d2).
Qed.

Lemma snapshot_rounds_keys h d : ∀ input,
  snapshot_rounds h d = inr input → dict_keys input = dict_keys d.
Proof.
  unfold dict_keys.
  induction d as [|[name l] d IH]; intros input Hin; simpl in Hin.
  - by inversion Hin.
  - destruct (round_at h l) as [e|dl]; [done|]. simpl in Hin.
    destruct (outcomes_at h dl) as [e|cs]; [done|]. simpl in Hin.
    destruct (snapshot_rounds h d) as [e|rest]; [done|]. simpl in Hin.
    inversion Hin; subst. rewrite !fmap_cons. simpl. f_equal. by apply IH.
Qed.

(** ** The rotation of usernames over the rounds *)

Lemma hammer_rotation w round self conns cw gw sftp ls fuel cps s :
  (position (user self) < length (saved (user self)))%nat →
  _hammer w round self conns cw gw sftp ls fuel cps = Returned s →
  rotation_inv (saved (user self)) (position (user self)) s.
Proof.
  intros Hpos Hrun. unfold _hammer in Hrun.
  destruct (py_truediv (PyInt 1) cps) as [e|loop_speed]; [done|].
  assert (Hne : saved (user self) ≠ []).
  { intros Hnil. rewrite Hnil in Hpos. simpl in Hpos. lia. }
  apply (run_invariant w round self conns cw gw sftp ls loop_speed
           (rotation_inv (saved (user self)) (position (user self)))
           (λ s s', step_rotation w round self conns cw gw sftp ls loop_speed
                      (saved (user self)) (position (user self)) s s' Hne)
           fuel (hammer_init self) s); [|done].
  by apply init_rotation.
Qed.

Section RunnerFacts.
Variable w : world.
Variable fuel : nat.
Variable conns : Z.
Variable conn_wait : Z.
Variable global_wait : Z.
Variable conns_per_sec : num.
Variable sftp : bool.
Variable sftp_ls : string.

Local Abbreviation loop :=
  (for_stress_rounds w fuel conns conn_wait global_wait conns_per_sec sftp
     sftp_ls).

Lemma loop_cons all_rounds r rest log h :
  loop all_rounds (r :: rest) log h =
    match _hammer w r (instance log) conns conn_wait global_wait sftp sftp_ls
            fuel conns_per_sec with
    | Returned s =>
        match sorted_by_id (perf_times s) with
        | inl e => (Crashed e, h)
        | inr times =>
            match store_round times h with
            | (inl e, h1) => (Crashed e, h1)
            | (inr times_loc, h1) =>
                match setitem_rounds all_rounds (round_name r) times_loc h1 with
                | (inl e, h2) => (Crashed e, h2)
                | (inr _, h2) =>
                    loop all_rounds rest
                      {| instance := with_user (instance log) (users s);
                         started := started log ++ [Z.of_nat r + 1];
                         launched := launched log ++ [opened s] |} h2
                end
            end
        end
    | Raised e => (Crashed e, h)
    | Blocked => (Hung, h)
    | OutOfFuel => (Unfinished, h)
    end.
Proof. done. Qed.

Lemma loop_rotation names all_rounds : ∀ todo log h log' h',
  names ≠ [] →
  rotation_log names log →
  loop all_rounds todo log h = (Finished log', h') →
  rotation_log names log'.
Proof.
  induction todo as [|r rest IH]; intros log h log' h' Hne Hrot Hrun.
  - simpl in Hrun. by inversion Hrun; subst.
  - rewrite loop_cons in Hrun.
    destruct (_hammer w r (instance log) conns conn_wait global_wait sftp
                sftp_ls fuel conns_per_sec) as [s|e| |] eqn:Hhammer; try done.
    destruct (sorted_by_id (perf_times s)) as [e|times]; [done|].
    destruct (store_round times h) as [[e|times_loc] h1]; [done|].
    destruct (setitem_rounds all_rounds (round_name r) times_loc h1)
      as [[e|[]] h2]; [done|].
    apply IH in Hrun; [done|done|]. clear IH Hrun.
    destruct Hrot as (Hsaved & Hpos & Hlog).
    assert (Hlen : (0 < length names)%nat) by (destruct names; [done|simpl; lia]).
    apply hammer_rotation in Hhammer.
    2:{ rewrite Hsaved, Hpos. apply Nat.mod_upper_bound. lia. }
    destruct Hhammer as (Hsaved' & Hpos' & Hopened).
    rewrite Hsaved in Hsaved', Hpos', Hopened. rewrite Hpos in Hpos', Hopened.
    unfold rotation_log. simpl.
    rewrite concat_app, length_app. simpl. rewrite app_nil_r.
    split; [done|]. split.
    + rewrite Hpos'. by rewrite Nat.Div0.add_mod_idemp_l.
    + intros j t Hj.
      destruct (decide (j < length (concat (launched log)))%nat) as [Hlt|Hge].
      * rewrite lookup_app_l in Hj by done. by apply Hlog.
      * rewrite lookup_app_r in Hj by lia.
        specialize (Hopened _ _ Hj).
        rewrite Nat.Div0.add_mod_idemp_l in Hopened.
        by replace (length (concat (launched log))
                    + (j - length (concat (launched log))))%nat
          with j in Hopened by lia.
Qed.

End RunnerFacts.

(** ** Every round is run *)

Lemma round_name_inj : Inj (=) (=) round_name.
Proof.
  intros r1 r2 H. unfold round_name in H.
  apply (inj (String.app "round_")) in H. apply (inj pretty) in H. lia.
Qed.

Lemma keyed_round_ok (cs : dict Z conn_stat) conns :
  0 ≤ conns ≤ sys_maxsize →
  dict_keys cs = seqZ 1 conns → Forall keyed cs → round_ok cs = true.
Proof.
  intros Hconns Hkeys Hkeyed. unfold round_ok.
  apply andb_true_iff. split.
  - apply forallb_forall. intros c Hc. apply list_elem_of_In in Hc.
    unfold dict_values in Hc. apply list_elem_of_fmap in Hc as ([k c'] & -> & Hin).
    rewrite Forall_forall in Hkeyed. by destruct (Hkeyed _ Hin).
  - apply Z.leb_le. unfold dict_len.
    assert (length cs = length (seqZ 1 conns)) as ->.
    { rewrite <- Hkeys. unfold dict_keys. by rewrite length_fmap. }
    rewrite length_seqZ. lia.
Qed.

Section RunnerCompletion.
Variable w : world.
Variable fuel : nat.
Variable conns : Z.
Variable conn_wait : Z.
Variable global_wait : Z.
Variable conns_per_sec : num.
Variable delay : float.
Variable sftp : bool.
Variable sftp_ls : string.
Hypothesis conns_range : 0 ≤ conns ≤ sys_maxsize.
Hypothesis fair_world : ∀ r, fair w r.
Hypothesis reliable :
  ∀ r t, ∃ c, attempt w r conn_wait global_wait sftp sftp_ls t = Some (inr c).
Hypothesis paced : py_truediv (PyInt 1) conns_per_sec = inr (PyFloat delay).
Hypothesis finite_delay : is_finite delay = true.
Hypothesis enough : (4 * Z.to_nat conns + 2 < fuel)%nat.

Local Abbreviation loop :=
  (for_stress_rounds w fuel conns conn_wait global_wait conns_per_sec sftp
     sftp_ls).

Lemma loop_completes all_rounds : ∀ todo log h d0 input,
  h !! all_rounds = Some (RoundsDict d0) →
  snapshot_rounds h d0 = inr input →
  NoDup (dict_keys d0 ++ (round_name <$> todo)) →
  1 ≤ max_concurrent_tasks (instance log) →
  (position (user (instance log)) < length (saved (user (instance log))))%nat →
  ∃ log' h' d' new,
    loop all_rounds todo log h = (Finished log', h')
    ∧ h' !! all_rounds = Some (RoundsDict d')
    ∧ snapshot_rounds h' d' = inr (input ++ new)
    ∧ dict_keys new = round_name <$> todo
    ∧ Forall (λ nc, dict_keys nc.2 = seqZ 1 conns ∧ Forall keyed nc.2) new
    ∧ started log' = started log ++ ((λ r, Z.of_nat r + 1) <$> todo)
    ∧ length (launched log') = (length (launched log) + length todo)%nat.
Proof.
  induction todo as [|r rest IH]; intros log h d0 input Hall Hsnap Hnd Hroom Hpos.
  - exists log, h, d0, []. simpl. rewrite !app_nil_r.
    repeat split; done || lia.
  - rewrite loop_cons.
    destruct (hammer_completes w r (instance log) conns conn_wait global_wait
                sftp sftp_ls fuel conns_per_sec delay)
      as [s Hhammer]; try done; [lia|].
    rewrite Hhammer.
    destruct (hammer_returned _ _ _ _ _ _ _ _ _ _ _ (proj1 conns_range) Hhammer)
      as ((_ & _ & Hperm & Hkeyed) & Hts & Hcount).
    rewrite Hts, Hcount in Hperm. simpl in Hperm.
    destruct (sorted_by_id_spec (perf_times s) conns Hperm)
      as (times & -> & Hkeys & Hfrom).
    assert (Hkeyed' : Forall keyed times).
    { apply Forall_forall. intros kc Hkc. rewrite Forall_forall in Hkeyed.
      apply Hkeyed. by apply Hfrom. }
    destruct (store_round_run times h) as (l & h1 & -> & Hpre & Hl & Hread).
    destruct (Hread h1) as (d & Hd & Hcs); [done|].
    assert (H1 : h1 !! all_rounds = Some (RoundsDict d0))
      by by eapply prefix_lookup_Some.
    unfold setitem_rounds. rewrite H1.
    assert (Hfresh : round_name r ∉ dict_keys d0).
    { apply NoDup_app in Hnd as (_ & Hdisj & _). intros Hin.
      apply (Hdisj _ Hin). rewrite fmap_cons. left. }
    rewrite dict_set_fresh by done.
    set (h2 := <[all_rounds := RoundsDict (d0 ++ [(round_name r, l)])]> h1).
    assert (Hs : same_inputs h1 h2)
      by by apply (same_inputs_write h1 all_rounds (RoundsDict d0)).
    destruct (IH {| instance := with_user (instance log) (users s);
                    started := started log ++ [Z.of_nat r + 1];
                    launched := launched log ++ [opened s] |}
                h2 (d0 ++ [(round_name r, l)]) (input ++ [(round_name r, times)]))
      as (log' & h' & d' & new & Hrun & Hall' & Hsnap' & Hnames & Hnew & Hstarted
          & Hlaunched).
    + unfold h2. apply list_lookup_insert_eq. by eapply lookup_lt_Some.
    + rewrite snapshot_rounds_app.
      rewrite <- (same_inputs_snapshot_rounds h1 h2) by done.
      rewrite (prefix_snapshot_rounds h h1 d0 input) by done. simpl.
      destruct (Hs l) as [_ <-]. rewrite Hd. simpl.
      rewrite <- (same_inputs_outcomes h1 h2) by done. by rewrite Hcs.
    + unfold dict_keys in *. rewrite fmap_app. simpl.
      rewrite fmap_cons in Hnd. by rewrite <- app_assoc.
    + done.
    + simpl. apply hammer_rotation in Hhammer; [|done].
      eapply rotation_position; [|exact Hhammer].
      intros Hnil. rewrite Hnil in Hpos. simpl in Hpos. lia.
    + exists log', h', d', ((round_name r, times) :: new).
      rewrite Hrun. split; [done|]. split; [done|]. split.
      { by rewrite <- app_assoc in Hsnap'. }
      split.
      { unfold dict_keys in *. rewrite !fmap_cons. simpl. by f_equal. }
      split; [by constructor|].
      split.
      { rewrite Hstarted. cbn [started]. rewrite fmap_cons.
        by rewrite <- app_assoc. }
      rewrite Hlaunched. cbn [launched]. rewrite length_app. simpl. lia.
Qed.

End RunnerCompletion.

Lemma seqZ_from_1 {A} (f : Z → A) n :
  f <$> seqZ 1 n = (λ r : nat, f (Z.of_nat r + 1)) <$> seq 0 (Z.to_nat n).
Proof. unfold seqZ. by rewrite <- list_fmap_compose. Qed.

(** A chart that is drawn without an exception leaves the call as it is
    without one. *)
Lemma calculate_stats_chart w p conns rounds cps cw gw graph ty h input rep :
  snapshot h p = inr input →
  by_value (_calculate_stats w p conns rounds cps cw gw false ty h) = inr rep →
  (graph = true → gen_graph w rep = inr tt) →
  by_value (_calculate_stats w p conns rounds cps cw gw graph ty h) = inr rep.
Proof.
  intros Hsnap Hrep Hchart. destruct graph; [|done].
  rewrite (calculate_stats_by_value _ _ _ _ _ _ _ _ _ _ input) by done.
  rewrite (calculate_stats_by_value _ _ _ _ _ _ _ _ _ _ input) in Hrep by done.
  unfold report_of in *. destruct (summaries input) as [e|rs]; [done|].
  cbn [rbind] in *. injection Hrep as <-. by rewrite Hchart.
Qed.

Lemma stress_completes
    w fuel self conns cw gw cps delay sftp ls rounds graph ty h :
  0 ≤ conns ≤ sys_maxsize →
  1 ≤ max_concurrent_tasks self →
  (position (user self) < length (saved (user self)))%nat →
  (∀ r, fair w r) →
  (∀ r t, ∃ c, attempt w r cw gw sftp ls t = Some (inr c)) →
  py_truediv (PyInt 1) cps = inr (PyFloat delay) →
  is_finite delay = true →
  (graph = true →
   ∀ data, report_shape conns rounds data → gen_graph w data = inr tt) →
  (4 * Z.to_nat conns + 2 < fuel)%nat →
  ∃ stats log hf rep,
    stress w fuel conns cw gw cps sftp ls self rounds graph ty h
      = (Finished (stats, log), hf)
    ∧ started log = seqZ 1 rounds
    ∧ length (launched log) = Z.to_nat rounds
    ∧ report_at hf stats = inr rep
    ∧ report_shape conns rounds rep.
Proof.
  intros Hconns Hroom Hpos Hfair Hrel Hcps Hfin Hchart Hfuel.
  unfold stress, alloc.
  destruct (loop_completes w fuel conns cw gw cps delay sftp ls
              Hconns Hfair Hrel Hcps Hfin Hfuel (length h)
              (seq 0 (Z.to_nat rounds))
              {| instance := self; started := []; launched := [] |}
              (h ++ [RoundsDict []]) [] [])
    as (log & h1 & d' & new & -> & Hall & Hsnap & Hnames & Hnew & Hstarted
        & Hlaunched); try done.
  { by apply list_lookup_middle. }
  { simpl. apply NoDup_fmap_2; [apply round_name_inj|apply NoDup_seq]. }
  simpl in Hsnap, Hstarted, Hlaunched. rewrite length_seq in Hlaunched.
  assert (Hsnapshot : snapshot h1 (length h) = inr new).
  { unfold snapshot, rounds_at. by rewrite Hall. }
  destruct (calculate_stats_returns w (length h) conns rounds cps cw gw ty h1
              new Hsnapshot) as (rep & Hrep & Hkeys & _ & Hback).
  { unfold dict_wf. rewrite Hnames.
    apply NoDup_fmap_2; [apply round_name_inj|apply NoDup_seq]. }
  { apply forallb_forall. intros [name cs] Hin. apply list_elem_of_In in Hin.
    rewrite Forall_forall in Hnew. destruct (Hnew _ Hin) as [Hk Hkeyed].
    by apply (keyed_round_ok cs conns). }
  assert (Hshape : report_shape conns rounds rep).
  { split.
    { rewrite Hkeys, Hnames. by rewrite seqZ_from_1. }
    intros name r Hin. destruct (Hback name r Hin) as (cs & Hcs & ->).
    rewrite Forall_forall in Hnew. destruct (Hnew _ Hcs) as [Hk Hkeyed].
    split; [done|]. intros k c Hkc. rewrite Forall_forall in Hkeyed.
    by destruct (Hkeyed _ Hkc). }
  apply (calculate_stats_chart _ _ _ _ _ _ _ graph _ _ new) in Hrep;
    [|done|by intros Hg; apply Hchart].
  unfold by_value in Hrep.
  destruct (_calculate_stats w (length h) conns rounds cps cw gw graph ty h1)
    as [[e|stats] hf]; [done|]. simpl in Hrep.
  exists stats, log, hf, rep. split; [done|]. split.
  { by rewrite Hstarted. }
  done.
Qed.

(** C8.  [stress_sftp] and [stress_ssh] call the scheduler once per
    round, [rounds] times in a row, whether the attempts succeed or
    fail; the rounds enter the report as ["round_1"] to
    ["round_<rounds>"], each with its outcomes in ascending order of id,
    and the statistics are computed from them.  The attempts are only
    asked to end in an outcome, successful or not, and each wait to find
    some task completed; the delay between two launches, [1 /
    conns_per_sec], has to be a finite number of seconds, for the sleep
    of line 295 to end; and the chart, when [graph] asks for one, to be
    drawn without an exception from a report of these rounds. *)
Theorem stress_runs_every_round
    w fuel self conns cw gw path cps delay rounds graph sftp h :
  0 ≤ conns ≤ sys_maxsize →
  1 ≤ max_concurrent_tasks self →
  (position (user self) < length (saved (user self)))%nat →
  (∀ r, fair w r) →
  (∀ r t, ∃ c, attempt w r cw gw sftp (if sftp then path else "/") t
               = Some (inr c)) →
  py_truediv (PyInt 1) cps = inr (PyFloat delay) →
  is_finite delay = true →
  (graph = true →
   ∀ data,
     dict_keys (round_data data)
       = (λ n, "round_" +:+ pretty n) <$> seqZ 1 rounds →
     (∀ name r, (name, r) ∈ round_data data →
        dict_keys (conn_data r) = seqZ 1 conns
        ∧ ∀ k c, (k, c) ∈ conn_data r → conn_id c = k) →
     gen_graph w data = inr tt) →
  (4 * Z.to_nat conns + 2 < fuel)%nat →
  ∃ stats log hf rep,
    (if sftp
     then stress_sftp w fuel self conns cw gw path cps rounds graph
     else stress_ssh w fuel self conns cw gw cps rounds graph) h
      = (Finished (stats, log), hf)
    ∧ started log = seqZ 1 rounds
    ∧ length (launched log) = Z.to_nat rounds
    ∧ report_at hf stats = inr rep
    ∧ dict_keys (round_data rep)
        = (λ n, "round_" +:+ pretty n) <$> seqZ 1 rounds
    ∧ ∀ name r, (name, r) ∈ round_data rep →
        dict_keys (conn_data r) = seqZ 1 conns
        ∧ ∀ k c, (k, c) ∈ conn_data r → conn_id c = k.
Proof.
  intros Hconns Hroom Hpos Hfair Hrel Hcps Hfin Hchart Hfuel.
  assert (Hchart' : graph = true →
            ∀ data, report_shape conns rounds data → gen_graph w data = inr tt).
  { intros Hg data [Hkeys Hrounds]. by apply Hchart. }
  destruct sftp; unfold stress_sftp, stress_ssh;
    (edestruct stress_completes
       as (stats & log & hf & rep & Hrun & Hs & Hl & Hrep & Hk & Hr);
     [exact Hconns|exact Hroom|exact Hpos|exact Hfair|exact Hrel|exact Hcps
     |exact Hfin|exact Hchart'|exact Hfuel|]);
    by exists stats, log, hf, rep.
Qed.

(** C10.  The usernames go round over the whole run: the attempt with
    launch index [j], counted from zero through all rounds in the order
    of launch, is given the name at [j mod len] of the list the instance
    was created with, so a round goes on in the rotation where the round
    before it stopped. *)
Theorem username_rotation_spans_rounds
    expanded key_exists target names port key pw tmo limit self
    w fuel conns cw gw cps sftp ls rounds graph ty h stats log hf :
  names ≠ [] →
  __init__ expanded key_exists target names port key pw tmo limit = Some self →
  stress w fuel conns cw gw cps sftp ls self rounds graph ty h
    = (Finished (stats, log), hf) →
  ∀ j t, concat (launched log) !! j = Some t →
         names !! (j mod length names)%nat = Some (task_user t).
Proof.
  intros Hne Hinit Hrun.
  assert (Huser : user self = cycle_new names).
  { unfold __init__ in Hinit. case_match; [done|]. by inversion Hinit. }
  unfold stress in Hrun. unfold alloc in Hrun.
  destruct (for_stress_rounds _ _ _ _ _ _ _ _ _ _ _ _) as [[log1| | |] h1]
    eqn:Hloop; try done.
  destruct (_calculate_stats _ _ _ _ _ _ _ _ _ _) as [[e|stats'] h2]; [done|].
  inversion Hrun; subst. clear Hrun.
  apply loop_rotation with (names := names) in Hloop; [|done|].
  - by destruct Hloop as (_ & _ & Hlog).
  - unfold rotation_log. simpl. rewrite Huser. simpl.
    split; [done|]. split; [|done].
    rewrite Nat.Div0.mod_0_l. done.
Qed.

(** ** The sample run: two rounds of four refused attempts *)

Lemma hostile_world_fair r : fair hostile_world r.
Proof.
  intros k ids Hne. unfold hostile_world. simpl.
  destruct (reverse ids) as [|i rest] eqn:Hrev.
  - apply (f_equal reverse) in Hrev. rewrite reverse_involutive in Hrev.
    by subst.
  - exists i. split; [|left].
    apply elem_of_reverse. rewrite Hrev. left.
Qed.

Lemma hostile_world_reliable r t :
  ∃ c, attempt hostile_world r 0 0 true "/" t = Some (inr c).
Proof. by eexists. Qed.

Lemma stress_runs_every_round_witness :
  ∃ stats log hf rep,
    stress_sftp hostile_world 32 sample_instance 4 0 0 "/" (PyFloat 100) 2
      true []
      = (Finished (stats, log), hf)
    ∧ started log = seqZ 1 2
    ∧ length (launched log) = Z.to_nat 2
    ∧ report_at hf stats = inr rep
    ∧ dict_keys (round_data rep)
        = (λ n, "round_" +:+ pretty n) <$> seqZ 1 2
    ∧ ∀ name r, (name, r) ∈ round_data rep →
        dict_keys (conn_data r) = seqZ 1 4
        ∧ ∀ k c, (k, c) ∈ conn_data r → conn_id c = k.
Proof.
  apply (stress_runs_every_round hostile_world 32 sample_instance 4 0 0 "/"
           (PyFloat 100) 0.01 2 true true []).
  - by vm_compute.
  - by vm_compute.
  - simpl. lia.
  - exact hostile_world_fair.
  - exact hostile_world_reliable.
  - by vm_compute.
  - by vm_compute.
  - done.
  - simpl. lia.
Defined.

Lemma username_rotation_spans_rounds_witness :
  ∃ stats log hf,
    stress hostile_world 32 4 0 0 (PyFloat 100) true "/" sample_instance 2
      false "SFTP" []
      = (Finished (stats, log), hf)
    ∧ task_user <$> concat (launched log)
        = ["alice"; "bob"; "carol"; "alice"; "bob"; "carol"; "alice"; "bob"]
    ∧ ∀ j t, concat (launched log) !! j = Some t →
             ["alice"; "bob"; "carol"] !! (j mod 3)%nat = Some (task_user t).
Proof.
  eexists _, _, _. split; [by vm_compute|]. split; [by vm_compute|].
  eapply (username_rotation_spans_rounds (λ p, p) true "target"
           ["alice"; "bob"; "carol"] 22 "/home/user/.ssh/id_rsa" None
           (PyInt 36000) 2 sample_instance
           hostile_world 32 4 0 0 (PyFloat 100) true "/" 2 false "SFTP" []).
  - done.
  - reflexivity.
  - by vm_compute.
Defined.

(* ================================================================== *)
(** * Further properties *)

(** ** The scheduler at its edges *)

Lemma truediv_by_zero cps :
  cps = PyInt 0 ∨ (∃ f, cps = PyFloat f ∧ (f =? 0)%float = true) →
  ∃ msg, py_truediv (PyInt 1) cps = inl (Exn ZeroDivisionError msg).
Proof.
  intros [->|(f & -> & Hf)].
  - by eexists.
  - unfold py_truediv, to_float.
    replace (float_of_int 1) with (inr 1%float : result float)
      by (by vm_compute).
    cbn [rbind]. rewrite Hf. by eexists.
Qed.

(** X1.  With [conns_per_sec] zero, as an int or as a float of either sign,
    the division of line 271 raises [ZeroDivisionError]: [_hammer] is
    left before the timer thread is started and before any attempt is
    launched, and a run of at least one round ends in that exception
    with nothing in its dictionary of rounds. *)
Theorem zero_speed_raises_before_launch
    w round fuel self conns cw gw cps sftp ls rounds graph ty h :
  cps = PyInt 0 ∨ (∃ f, cps = PyFloat f ∧ (f =? 0)%float = true) →
  1 ≤ rounds →
  ∃ msg,
    _hammer w round self conns cw gw sftp ls fuel cps
      = Raised (Exn ZeroDivisionError msg)
    ∧ stress w fuel conns cw gw cps sftp ls self rounds graph ty h
      = (Crashed (Exn ZeroDivisionError msg), h ++ [RoundsDict []]).
Proof.
  intros Hz Hr. destruct (truediv_by_zero cps Hz) as (msg & Hdiv).
  exists msg. split.
  - unfold _hammer. by rewrite Hdiv.
  - unfold stress, alloc.
    destruct (Z.to_nat rounds) as [|n] eqn:En; [lia|].
    cbn [seq for_stress_rounds]. unfold _hammer. by rewrite Hdiv.
Qed.

Lemma zero_speed_raises_before_launch_witness :
  ∃ msg,
    _hammer smooth_world 0 sample_instance 5 0 0 true "/" 32 (PyFloat 0)
      = Raised (Exn ZeroDivisionError msg)
    ∧ stress smooth_world 32 5 0 0 (PyFloat 0) true "/" sample_instance 1
        false "SFTP" []
      = (Crashed (Exn ZeroDivisionError msg), [] ++ [RoundsDict []]).
Proof.
  apply (zero_speed_raises_before_launch smooth_world 0 32 sample_instance
           5 0 0 (PyFloat 0) true "/" 1 false "SFTP" []).
  - right. exists 0%float. split; [done|]. by vm_compute.
  - lia.
Defined.

(** X2.  With [conns <= 0] the outer loop is not entered: [_hammer] returns
    the empty dictionary at its first test, launches nothing and takes
    no username from the rotation. *)
Theorem hammer_nothing_to_launch
    w round self conns cw gw sftp ls fuel cps loop_speed :
  conns ≤ 0 →
  py_truediv (PyInt 1) cps = inr loop_speed →
  _hammer w round self conns cw gw sftp ls (S fuel) cps
    = Returned (hammer_init self)
  ∧ perf_times (hammer_init self) = []
  ∧ opened (hammer_init self) = []
  ∧ users (hammer_init self) = user self.
Proof.
  intros Hc Hdiv. unfold _hammer. rewrite Hdiv.
  cbn [run]. unfold step, hammer_init at 1 2 3. cbn [at_ tasks count].
  destruct (Z.ltb_spec 0 conns); [lia|]. done.
Qed.

Lemma hammer_nothing_to_launch_witness :
  _hammer smooth_world 0 sample_instance (-3) 0 0 true "/" 1 (PyFloat 100)
    = Returned (hammer_init sample_instance)
  ∧ perf_times (hammer_init sample_instance) = []
  ∧ opened (hammer_init sample_instance) = []
  ∧ users (hammer_init sample_instance) = user sample_instance.
Proof.
  apply (hammer_nothing_to_launch smooth_world 0 sample_instance (-3) 0 0
           true "/" 0 (PyFloat 100) (PyFloat 0.01)).
  - lia.
  - by vm_compute.
Defined.

Section Edges.
Variable w : world.
Variable round : nat.
Variable self : SSHstress.
Variable conns : Z.
Variable conn_wait : Z.
Variable global_wait : Z.
Variable sftp : bool.
Variable sftp_ls : string.
Variable loop_speed : num.

Local Abbreviation step1 :=
  (step w round self conns conn_wait global_wait sftp sftp_ls loop_speed).
Local Abbreviation steps1 :=
  (steps w round self conns conn_wait global_wait sftp sftp_ls loop_speed).
Local Abbreviation run1 :=
  (run w round self conns conn_wait global_wait sftp sftp_ls loop_speed).
Local Abbreviation attempt1 :=
  (attempt w round conn_wait global_wait sftp sftp_ls).
Local Abbreviation finished1 :=
  (finished w round conn_wait global_wait sftp sftp_ls).

Lemma step_idle s :
  max_concurrent_tasks self ≤ 0 → 1 ≤ conns → idle s →
  ∃ s', step1 s = Next s' ∧ idle s'.
Proof.
  intros Hmax Hconns (Ha & Hc & Ht & Ho & Hp). unfold step.
  destruct (at_ s); [| |done].
  - rewrite Ht, Hc. destruct (Z.ltb_spec 0 conns); [|lia].
    eexists. split; [done|]. by repeat split.
  - rewrite Ht, Hc. cbn [length].
    destruct (Z.ltb_spec (Z.of_nat 0) (max_concurrent_tasks self)); [lia|].
    rewrite andb_false_r. eexists. split; [done|]. by repeat split.
Qed.

Lemma run_idle fuel : ∀ s,
  max_concurrent_tasks self ≤ 0 → 1 ≤ conns → idle s →
  run1 fuel s = OutOfFuel ∧ ∃ s', steps1 fuel s = Some s' ∧ idle s'.
Proof.
  induction fuel as [|fuel IH]; intros s Hmax Hconns Hidle.
  - split; [done|]. by exists s.
  - destruct (step_idle s Hmax Hconns Hidle) as (s' & Hstep & Hidle').
    cbn [run steps]. rewrite Hstep. by apply IH.
Qed.

Lemma dict_set_elem {K V} `{EqDecision K} (d : dict K V) k v kv :
  kv ∈ dict_set d k v → kv ∈ d ∨ kv = (k, v).
Proof.
  induction d as [|[k' v'] d IH]; simpl.
  - intros ->%list_elem_of_singleton. by right.
  - destruct (decide (k' = k)) as [->|Hne].
    + intros [->|Hin]%elem_of_cons; [by right|]. left. by right.
    + intros [->|Hin]%elem_of_cons; [left; left|].
      destruct (IH Hin) as [?|?]; [left; by right|by right].
Qed.

Lemma reap_elems done_ : ∀ perf perf' kc,
  reap done_ perf = inr perf' → kc ∈ perf' →
  kc ∈ perf ∨ ∃ c, inr c ∈ done_ ∧ kc = (conn_id c, c).
Proof.
  induction done_ as [|[e|c] done_ IH]; intros perf perf' kc; simpl.
  - intros [= ->] Hin. by left.
  - done.
  - intros Hreap Hin. destruct (IH _ _ _ Hreap Hin) as [Hold|(c' & Hc' & ->)].
    + destruct (dict_set_elem _ _ _ _ Hold) as [?|Heq]; [by left|].
      right. exists c. split; [left|done].
    + right. exists c'. split; [by right|done].
Qed.

Lemma step_own_results s s' :
  own_results attempt1 s → step1 s = Next s' → own_results attempt1 s'.
Proof.
  intros (Hts & Hperf). unfold step.
  destruct (at_ s).
  - destruct (tasks s) as [|t0 ts] eqn:Et.
    + destruct (count s <? conns); [|done]. intros [= <-]. split; simpl.
      * intros t Hin. by apply elem_of_nil in Hin.
      * done.
    + set (ids := completed w round (waits s) (task_id <$> t0 :: ts)).
      destruct (omap (finished1 ids) (t0 :: ts)) as [|d0 ds] eqn:Ed; [done|].
      destruct (reap (d0 :: ds) (perf_times s)) as [e|perf'] eqn:Er; [done|].
      intros [= <-]. split; cbn [tasks opened perf_times].
      * intros t Hin. apply list_elem_of_filter in Hin as [_ Hin].
        apply Hts. by rewrite ?Et.
      * intros k c Hin.
        destruct (reap_elems _ _ _ _ Er Hin) as [Hold|(c' & Hc' & Heq)].
        { by apply Hperf. }
        injection Heq as -> ->. rewrite <- Ed in Hc'.
        apply list_elem_of_omap in Hc' as (t & Ht & Hfin).
        exists t. split; [apply Hts; by rewrite ?Et|].
        pose proof (finished_id w round conn_wait global_wait sftp sftp_ls
                      ids t c' Hfin) as [Hid _].
        split; [done|]. unfold finished in Hfin.
        by case_bool_decide.
  - destruct ((count s <? conns)
              && (Z.of_nat (length (tasks s)) <? max_concurrent_tasks self)).
    + destruct (cycle_next (users s)) as [[u users']|]; [|done].
      intros [= <-]. split; cbn [tasks opened perf_times].
      * intros t [Hin|Hin]%elem_of_app.
        -- apply elem_of_app. left. by apply Hts.
        -- apply elem_of_app. by right.
      * intros k c Hin. destruct (Hperf k c Hin) as (t & Ht & Hid & Ha).
        exists t. split; [|done]. apply elem_of_app. by left.
    + intros [= <-]. by split.
  - destruct (asyncio_sleep w loop_speed) as [[e|[]]|]; try done.
    intros [= <-]. by split.
Qed.

Lemma init_own_results : own_results attempt1 (hammer_init self).
Proof.
  split; simpl.
  - intros t Hin. by apply elem_of_nil in Hin.
  - intros k c Hin. by apply elem_of_nil in Hin.
Qed.

(** Under a flag that is never cleared no attempt whose calls succeed
    comes to an end, so no task is ever found done. *)
Lemma run_stuck fuel : ∀ s,
  1 ≤ conns → (∀ t, attempt1 t = None) → stuck_inv s →
  ∀ s', run1 fuel s ≠ Returned s'.
Proof.
  induction fuel as [|fuel IH]; intros s Hconns Hnone Hinv s'; [done|].
  cbn [run]. unfold step. destruct (at_ s).
  - destruct (tasks s) as [|t0 ts] eqn:Et.
    + destruct Hinv as [Hc|Hne]; [|by rewrite Et in Hne].
      rewrite Hc. destruct (Z.ltb_spec 0 conns); [|lia].
      apply IH; [done|done|]. left. done.
    + assert (Hall : ∀ ids l, omap (finished1 ids) l = []).
      { intros ids l. induction l as [|t l IHl]; [done|].
        cbn [omap list_omap]. fold (omap (finished1 ids) l). rewrite IHl.
        unfold finished. rewrite Hnone. by destruct (bool_decide _). }
      by rewrite Hall.
  - destruct ((count s <? conns)
              && (Z.of_nat (length (tasks s)) <? max_concurrent_tasks self)).
    + destruct (cycle_next (users s)) as [[u users']|]; [|done].
      apply IH; [done|done|]. right. cbn [tasks].
      by destruct (tasks s).
    + apply IH; [done|done|]. exact Hinv.
  - destruct (asyncio_sleep w loop_speed) as [[e|[]]|]; try done.
    apply IH; [done|done|]. exact Hinv.
Qed.
End Edges.

(** X3.  With [max_concurrent_tasks <= 0] and at least one connection to
    open, the inner loop never launches and the outer one never ends:
    after any number of steps the scheduler is still running, with
    nothing launched and nothing collected. *)
Theorem hammer_spins_without_room
    w round self conns cw gw sftp ls cps loop_speed fuel :
  max_concurrent_tasks self ≤ 0 →
  1 ≤ conns →
  py_truediv (PyInt 1) cps = inr loop_speed →
  _hammer w round self conns cw gw sftp ls fuel cps = OutOfFuel
  ∧ ∃ s, steps w round self conns cw gw sftp ls loop_speed fuel
           (hammer_init self) = Some s
         ∧ opened s = [] ∧ tasks s = [] ∧ perf_times s = [].
Proof.
  intros Hmax Hconns Hdiv. unfold _hammer. rewrite Hdiv.
  destruct (run_idle w round self conns cw gw sftp ls loop_speed fuel
              (hammer_init self) Hmax Hconns)
    as (Hrun & s & Hsteps & _ & _ & Ht & Ho & Hp).
  { by repeat split. }
  split; [done|]. by exists s.
Qed.

Lemma hammer_spins_without_room_witness :
  _hammer smooth_world 0 no_room 3 0 0 true "/" 50 (PyFloat 100) = OutOfFuel
  ∧ ∃ s, steps smooth_world 0 no_room 3 0 0 true "/" (PyFloat 0.01) 50
           (hammer_init no_room) = Some s
         ∧ opened s = [] ∧ tasks s = [] ∧ perf_times s = [].
Proof.
  apply (hammer_spins_without_room smooth_world 0 no_room 3 0 0 true "/"
           (PyFloat 100) (PyFloat 0.01) 50).
  - simpl. lia.
  - lia.
  - by vm_compute.
Defined.

(** X4.  An instance created with an empty list of usernames fails at its
    first launch: [next(self.user)] raises [StopIteration] inside the
    coroutine, which leaves [_hammer] as a [RuntimeError] before any
    attempt is created. *)
Theorem hammer_without_usernames
    w round self conns cw gw sftp ls fuel cps loop_speed :
  saved (user self) = [] →
  1 ≤ conns →
  1 ≤ max_concurrent_tasks self →
  py_truediv (PyInt 1) cps = inr loop_speed →
  _hammer w round self conns cw gw sftp ls (S (S fuel)) cps
    = Raised (Exn RuntimeError "coroutine raised StopIteration").
Proof.
  intros Hsaved Hconns Hmax Hdiv. unfold _hammer. rewrite Hdiv.
  cbn [run]. unfold step at 1. cbn [hammer_init at_ tasks count].
  destruct (Z.ltb_spec 0 conns); [|lia].
  unfold step. cbn [at_ tasks count users length].
  destruct (Z.ltb_spec 0 conns); [|lia].
  destruct (Z.ltb_spec (Z.of_nat 0) (max_concurrent_tasks self)); [|lia].
  cbn [andb]. unfold cycle_next, hammer_init. cbn [users].
  rewrite Hsaved. by rewrite lookup_nil.
Qed.

Lemma hammer_without_usernames_witness :
  _hammer smooth_world 0 no_users 3 0 0 true "/" 2 (PyFloat 100)
    = Raised (Exn RuntimeError "coroutine raised StopIteration").
Proof.
  apply (hammer_without_usernames smooth_world 0 no_users 3 0 0 true "/" 0
           (PyFloat 100) (PyFloat 0.01)).
  - done.
  - lia.
  - simpl. lia.
  - by vm_compute.
Defined.

Lemma hammer_own_results w round self conns cw gw sftp ls fuel cps s :
  _hammer w round self conns cw gw sftp ls fuel cps = Returned s →
  own_results (attempt w round cw gw sftp ls) s.
Proof.
  intros Hrun. unfold _hammer in Hrun.
  destruct (py_truediv (PyInt 1) cps) as [e|loop_speed]; [done|].
  by destruct (run_invariant w round self conns cw gw sftp ls loop_speed
                 (own_results (attempt w round cw gw sftp ls))
                 (step_own_results w round self conns cw gw sftp ls loop_speed)
                 fuel (hammer_init self) s
                 (init_own_results w round self cw gw sftp ls) Hrun).
Qed.

(** X5.  Every outcome a round returns is the return value of the attempt
    that was launched under its key: outcomes are not mixed up between
    tasks, in whatever order the tasks complete. *)
Theorem hammer_outcomes_belong_to_their_attempts
    w round self conns cw gw sftp ls fuel cps s :
  _hammer w round self conns cw gw sftp ls fuel cps = Returned s →
  ∀ k c, (k, c) ∈ perf_times s →
    ∃ t, t ∈ opened s ∧ task_id t = k
         ∧ attempt w round cw gw sftp ls t = Some (inr c).
Proof.
  intros Hrun. by destruct (hammer_own_results _ _ _ _ _ _ _ _ _ _ _ Hrun).
Qed.

Lemma hammer_outcomes_belong_to_their_attempts_witness :
  ∃ s, _hammer hostile_world 0 sample_instance 5 0 0 true "/" 32 (PyFloat 100)
         = Returned s
       ∧ ∀ k c, (k, c) ∈ perf_times s →
           ∃ t, t ∈ opened s ∧ task_id t = k
                ∧ attempt hostile_world 0 0 0 true "/" t = Some (inr c).
Proof.
  eexists. split; [by vm_compute|].
  apply (hammer_outcomes_belong_to_their_attempts hostile_world 0
           sample_instance 5 0 0 true "/" 32 (PyFloat 100)).
  by vm_compute.
Defined.

(** ** The deadline flag *)

Lemma poll_never fuel (wait : time → bool) : ∀ t,
  (∀ t', wait t' = true) → poll fuel wait t = None.
Proof.
  induction fuel as [|fuel IH]; intros t Hw; [done|].
  cbn [poll]. rewrite Hw. by apply IH.
Qed.

Lemma wait_phase_never fuel (wait : time → bool) t cw :
  (∀ t', wait t' = true) → wait_phase fuel wait t cw = None.
Proof.
  intros Hw. unfold wait_phase. rewrite Hw. by apply poll_never.
Qed.




Lemma coroutine_hangs sftp fuel (wait : time → bool) env count user cw ls :
  (∀ t, wait t = true) → unfailing sftp env →
  coroutine sftp fuel wait env count user cw ls = None.
Proof.
  intros Hn Hok.
  pose proof (coroutine_outcome sftp fuel wait env count user cw ls) as Ho.
  destruct (coroutine _ _ _ _ _ _ _ _) as [[e|c]|] eqn:Ec; [| |done].
  - destruct Ho as [Hr _]. by destruct (Hok _ _ _ Hr).
  - exfalso. revert Ec.
    unfold coroutine, _sftp, _ssh, try_except, async_with, operate_and_hold.
    rewrite wait_phase_never by done.
    assert (Hc : ∀ u, ∃ x, connect env u = inr x).
    { intros u. destruct (connect env u) as [e|x] eqn:E; [|by exists x].
      destruct (Hok u "" e). by left. }
    assert (Ho' : ∀ a, ∃ x, operation env a = inr x).
    { intros a. destruct (operation env a) as [e|x] eqn:E; [|by exists x].
      destruct (Hok "" a e). do 4 right. by left. }
    assert (Hs : ∃ x, sleeping env = inr x).
    { destruct (sleeping env) as [e|x] eqn:E; [|by exists x].
      destruct (Hok "" "" e). by do 5 right. }
    destruct (Hc user) as ([] & ->), Hs as ([] & ->).
    destruct sftp.
    + destruct (Ho' ls) as (p & ->).
      destruct (start_sftp_client env) as [e|[]] eqn:E.
      { destruct (Hok "" "" e). do 2 right. by left. }
      done.
    + destruct (Ho' "dir") as (p & ->). done.
Qed.

(** X7.  A negative global wait leaves the flag set for good ([time.sleep]
    refuses it in the timer thread): the polling loop of an attempt is
    never left, an attempt whose calls all succeed never returns, and a
    round of at least one connection with such attempts never
    returns. *)
Theorem negative_global_wait_never_returns
    w round self conns cw gw sftp ls cps :
  gw < 0 → 1 ≤ conns →
  (∀ i, unfailing sftp (attempts w round i)) →
  (∀ fuel t cw', wait_phase fuel (drop_all_timer gw) t cw' = None)
  ∧ (∀ t, attempt w round cw gw sftp ls t = None)
  ∧ ∀ fuel s, _hammer w round self conns cw gw sftp ls fuel cps ≠ Returned s.
Proof.
  intros Hgw Hconns Hok.
  assert (Hnone : ∀ t, attempt w round cw gw sftp ls t = None).
  { intros t. rewrite attempt_coroutine. apply coroutine_hangs; [|done].
    intros t'. apply wait_flag_stuck. by left. }
  split; [|split; [done|]].
  - intros fuel t cw'. apply wait_phase_never.
    intros t'. apply drop_all_timer_stuck. by left.
  - intros fuel s. unfold _hammer.
    destruct (py_truediv (PyInt 1) cps) as [e|loop_speed]; [done|].
    apply run_stuck; [done|done|]. by left.
Qed.

Lemma smooth_attempt_unfailing sftp : unfailing sftp smooth_attempt.
Proof.
  intros u a e [H|[H|[[_ H]|[[_ H]|[H|H]]]]]; discriminate.
Qed.

Lemma negative_global_wait_never_returns_witness :
  (∀ fuel t cw', wait_phase fuel (drop_all_timer (-1)) t cw' = None)
  ∧ (∀ t, attempt smooth_world 0 0 (-1) true "/" t = None)
  ∧ ∀ fuel s, _hammer smooth_world 0 sample_instance 3 0 (-1) true "/" fuel
                (PyFloat 100) ≠ Returned s.
Proof.
  apply (negative_global_wait_never_returns smooth_world 0 sample_instance
           3 0 (-1) true "/" (PyFloat 100)).
  - lia.
  - lia.
  - intros i. apply smooth_attempt_unfailing.
Defined.

(** ** Termination of a round *)



(** ** A delay that never ends *)

Lemma asyncio_sleep_infinity w : asyncio_sleep w (PyFloat infinity) = None.
Proof. reflexivity. Qed.

(** X25.  A positive speed so small that its reciprocal is [inf] (a float
    of at most [2^-1024], as [1e-320]) stops the scheduler at its first
    delay: the first attempt is launched, [asyncio.sleep(inf)] sets a
    timer that never fires, and [_hammer] neither returns nor raises,
    whatever becomes of the attempt; the run hangs in its first round,
    with nothing stored. *)
Theorem infinite_delay_blocks_after_first_launch
    w round self conns cw gw sftp ls fuel cps rounds graph ty h :
  py_truediv (PyInt 1) cps = inr (PyFloat infinity) →
  1 ≤ conns →
  1 ≤ max_concurrent_tasks self →
  (position (user self) < length (saved (user self)))%nat →
  1 ≤ rounds →
  _hammer w round self conns cw gw sftp ls (S (S (S fuel))) cps = Blocked
  ∧ (∃ s, steps w round self conns cw gw sftp ls (PyFloat infinity) 2
            (hammer_init self) = Some s
          ∧ at_ s = AtSleep
          ∧ task_id <$> opened s = [1]
          ∧ tasks s = opened s
          ∧ perf_times s = [])
  ∧ stress w (S (S (S fuel))) conns cw gw cps sftp ls self rounds graph ty h
    = (Hung, h ++ [RoundsDict []]).
Proof.
  intros Hdiv Hconns Hroom Hpos Hrounds.
  destruct (cycle_next_spec (user self) Hpos) as (u & _ & Hnext).
  assert (Hrun : ∀ r, _hammer w r self conns cw gw sftp ls (S (S (S fuel))) cps
                      = Blocked).
  { intros r. unfold _hammer. rewrite Hdiv.
    cbn [run]. unfold step at 1. cbn [hammer_init at_ tasks count].
    destruct (Z.ltb_spec 0 conns); [|lia].
    unfold step at 1. cbn [at_ tasks count users length].
    destruct (Z.ltb_spec 0 conns); [|lia].
    destruct (Z.ltb_spec (Z.of_nat 0) (max_concurrent_tasks self)); [|lia].
    cbn [andb]. change (users (hammer_init self)) with (user self).
    rewrite Hnext.
    unfold step. cbn [at_]. by rewrite asyncio_sleep_infinity. }
  split; [done|]. split.
  - cbn [steps]. unfold step at 1. cbn [hammer_init at_ tasks count].
    destruct (Z.ltb_spec 0 conns); [|lia].
    unfold step at 1. cbn [at_ tasks count users length].
    destruct (Z.ltb_spec 0 conns); [|lia].
    destruct (Z.ltb_spec (Z.of_nat 0) (max_concurrent_tasks self)); [|lia].
    cbn [andb]. change (users (hammer_init self)) with (user self).
    rewrite Hnext. by eexists.
  - unfold stress, alloc.
    destruct (Z.to_nat rounds) as [|n] eqn:En; [lia|].
    cbn [seq for_stress_rounds instance]. by rewrite Hrun.
Qed.

Lemma infinite_delay_blocks_after_first_launch_witness :
  _hammer smooth_world 0 sample_instance 5 0 0 true "/" 3 (PyFloat 1e-320)
    = Blocked
  ∧ (∃ s, steps smooth_world 0 sample_instance 5 0 0 true "/"
            (PyFloat infinity) 2 (hammer_init sample_instance) = Some s
          ∧ at_ s = AtSleep
          ∧ task_id <$> opened s = [1]
          ∧ tasks s = opened s
          ∧ perf_times s = [])
  ∧ stress smooth_world 3 5 0 0 (PyFloat 1e-320) true "/" sample_instance 2
      false "SFTP" []
    = (Hung, [] ++ [RoundsDict []]).
Proof.
  apply (infinite_delay_blocks_after_first_launch smooth_world 0
           sample_instance 5 0 0 true "/" 0 (PyFloat 1e-320) 2 false "SFTP"
           []).
  - by vm_compute.
  - lia.
  - simpl. lia.
  - simpl. lia.
  - lia.
Defined.

(** X26.  A global wait beyond 9223372036 seconds does not fit the 64-bit
    count of nanoseconds of [time.sleep]: the timer thread ends in an
    [OverflowError] with the flag set, so an attempt whose calls all
    succeed never leaves its polling loop, and a round of at least one
    connection with such attempts never returns. *)
Theorem oversized_global_wait_never_returns
    w round self conns cw gw sftp ls cps :
  9223372036 < gw → 1 ≤ conns →
  (∀ i, unfailing sftp (attempts w round i)) →
  (∃ msg, time_sleep gw = inl (Exn OverflowError msg))
  ∧ (∀ t, attempt w round cw gw sftp ls t = None)
  ∧ ∀ fuel s, _hammer w round self conns cw gw sftp ls fuel cps ≠ Returned s.
Proof.
  intros Hgw Hconns Hok.
  assert (Hnone : ∀ t, attempt w round cw gw sftp ls t = None).
  { intros t. rewrite attempt_coroutine. apply coroutine_hangs; [|done].
    intros t'. apply wait_flag_stuck. by right. }
  split; [|split; [done|]].
  - unfold time_sleep. destruct (Z.ltb_spec gw (- 9223372036)); [lia|].
    destruct (Z.ltb_spec 9223372036 gw); [|lia]. by eexists.
  - intros fuel s. unfold _hammer.
    destruct (py_truediv (PyInt 1) cps) as [e|loop_speed]; [done|].
    apply run_stuck; [done|done|]. by left.
Qed.

Lemma oversized_global_wait_never_returns_witness :
  (∃ msg, time_sleep (10 ^ 10) = inl (Exn OverflowError msg))
  ∧ (∀ t, attempt smooth_world 0 0 (10 ^ 10) true "/" t = None)
  ∧ ∀ fuel s, _hammer smooth_world 0 sample_instance 3 0 (10 ^ 10) true "/"
                fuel (PyFloat 100) ≠ Returned s.
Proof.
  apply (oversized_global_wait_never_returns smooth_world 0 sample_instance
           3 0 (10 ^ 10) true "/" (PyFloat 100)).
  - lia.
  - lia.
  - intros i. apply smooth_attempt_unfailing.
Defined.

(** ** The order of the floats *)

Lemma SFltb_trans x y z :
  SFltb x y = true → SFltb y z = true → SFltb x z = true.
Proof.
  unfold SFltb, SFcompare.
  destruct x as [sx|sx| |sx mx ex], y as [sy|sy| |sy my ey],
    z as [sz|sz| |sz mz ez];
    try destruct sx; try destruct sy; try destruct sz; try done;
    change (PosDef.Pos.compare_cont Eq) with Pos.compare;
    repeat match goal with
      | |- context [(?a ?= ?b)%Z] => destruct (Z.compare_spec a b)
      | |- context [(?a ?= ?b)%positive] => destruct (Pos.compare_spec a b)
      end;
    cbn; try done; intros; subst; lia.
Qed.

Lemma SFltb_irrefl x : SFltb x x = false.
Proof.
  unfold SFltb, SFcompare. destruct x as [s|s| |s m e]; try destruct s; try done;
    change (PosDef.Pos.compare_cont Eq) with Pos.compare;
    rewrite Z.compare_refl, Pos.compare_refl; done.
Qed.

Lemma ltb_trans (x y z : float) :
  (x <? y)%float = true → (y <? z)%float = true → (x <? z)%float = true.
Proof. rewrite !FloatAxioms.ltb_spec. apply SFltb_trans. Qed.

Lemma ltb_irrefl (x : float) : (x <? x)%float = false.
Proof. rewrite FloatAxioms.ltb_spec. apply SFltb_irrefl. Qed.

(** The int [0] is below a float exactly when the float is positive. *)
Lemma int_lt_float_0 f :
  int_lt_float 0 f =
    match Prim2SF f with
    | S754_zero _ | S754_nan => false
    | S754_infinity s | S754_finite s _ _ => negb s
    end.
Proof.
  unfold int_lt_float. destruct (Prim2SF f) as [s|s| |s m e]; try done.
  destruct (Z.leb_spec 0 e) as [He|He].
  - pose proof (Z.pow_pos_nonneg 2 e). destruct s; simpl.
    + apply Z.ltb_ge. nia.
    + apply Z.ltb_lt. nia.
  - rewrite Z.mul_0_l. by destruct s.
Qed.

Lemma zero_lt_trans (y z : float) :
  int_lt_float 0 y = true → (y <? z)%float = true → int_lt_float 0 z = true.
Proof.
  rewrite FloatAxioms.ltb_spec, !int_lt_float_0. unfold SFltb, SFcompare.
  destruct (Prim2SF y) as [sy|sy| |sy my ey], (Prim2SF z) as [sz|sz| |sz mz ez];
    try destruct sy; try destruct sz; done.
Qed.

Lemma num_lt_trans m y z :
  is_start_or_float m →
  num_lt_float m y = true → (y <? z)%float = true → num_lt_float m z = true.
Proof.
  intros [->|(x & ->)]; simpl; [apply zero_lt_trans|apply ltb_trans].
Qed.

Lemma py_max_bound m f g :
  is_start_or_float m →
  num_lt_float m g = false → num_lt_float (py_max m f) g = false.
Proof.
  intros Hm Hg. unfold py_max. destruct (num_lt_float m f) eqn:Hf; [|done].
  simpl. destruct (g <? f)%float eqn:E; destruct (f <? g)%float eqn:E'; try done.
  - by rewrite (num_lt_trans m f g Hm Hf E') in Hg.
  - by rewrite (num_lt_trans m f g Hm Hf E') in Hg.
Qed.

Lemma py_max_self m f : num_lt_float (py_max m f) f = false.
Proof.
  unfold py_max. destruct (num_lt_float m f) eqn:Hf; [|done].
  simpl. apply ltb_irrefl.
Qed.

Lemma py_max_start m f : is_start_or_float m → is_start_or_float (py_max m f).
Proof.
  intros Hm. unfold py_max. destruct (num_lt_float m f); [|done].
  right. by eexists.
Qed.

Lemma py_min_bound m f g :
  (g <? m)%float = false → (g <? py_min m f)%float = false.
Proof.
  intros Hg. unfold py_min. destruct (f <? m)%float eqn:Hf; [|done].
  destruct (g <? f)%float eqn:E; [|done].
  by rewrite (ltb_trans g f m E Hf) in Hg.
Qed.

Lemma py_min_self m f : (f <? py_min m f)%float = false.
Proof.
  unfold py_min. destruct (f <? m)%float eqn:Hf; [|done]. apply ltb_irrefl.
Qed.

(** ** The statistics of a round *)

Lemma add_outcome_failed_count t c t' :
  add_outcome t c = inr t' →
  total_failed t' = total_failed t + (if success c then 0 else 1).
Proof.
  unfold add_outcome. destruct (success c).
  - destruct (auth_time c); [|done].
    destruct (py_add _ _); [done|]. cbn [rbind].
    destruct (conn_time c); [|done].
    destruct (py_add _ _); [done|]. cbn [rbind].
    intros [= <-]. simpl. lia.
  - by intros [= <-].
Qed.

Lemma sum_outcomes_failed_count values : ∀ t t',
  sum_outcomes t values = inr t' →
  total_failed t' =
    total_failed t
    + Z.of_nat (length (filter (λ c, success c = false) values)).
Proof.
  induction values as [|c values IH]; intros t t'; simpl.
  - intros [= <-]. lia.
  - destruct (add_outcome t c) as [e|t1] eqn:E1; [done|]. cbn [rbind].
    intros Hrest. rewrite (IH _ _ Hrest), (add_outcome_failed_count _ _ _ E1).
    rewrite filter_cons.
    destruct (success c);
      [rewrite decide_False by done|rewrite decide_True by done];
      cbn [length]; lia.
Qed.

Lemma add_outcome_bounded t c t' seen :
  bounded_by t seen → add_outcome t c = inr t' → bounded_by t' (seen ++ [c]).
Proof.
  intros (Hma & Hmc & Hall). unfold add_outcome.
  destruct (success c) eqn:Hs.
  - destruct (auth_time c) as [a|] eqn:Ea; [|done].
    destruct (py_add _ _); [done|]. cbn [rbind].
    destruct (conn_time c) as [d|] eqn:Ed; [|done].
    destruct (py_add _ _); [done|]. cbn [rbind].
    intros [= <-]. split; [by apply py_max_start|].
    split; [by apply py_max_start|]. cbn.
    intros c' [Hin|Hin]%elem_of_app Hs'.
    + destruct (Hall c' Hin Hs') as (a' & d' & Ha' & Hd' & H1 & H2 & H3 & H4).
      exists a', d'. split; [done|]. split; [done|].
      split; [by apply py_max_bound|]. split; [by apply py_min_bound|].
      split; [by apply py_max_bound|]. by apply py_min_bound.
    + apply list_elem_of_singleton in Hin as ->.
      exists a, d. split; [done|]. split; [done|].
      split; [apply py_max_self|]. split; [apply py_min_self|].
      split; [apply py_max_self|]. apply py_min_self.
  - intros [= <-]. split; [done|]. split; [done|]. cbn.
    intros c' [Hin|Hin]%elem_of_app Hs'.
    + by apply Hall.
    + apply list_elem_of_singleton in Hin as ->. congruence.
Qed.

Lemma sum_outcomes_bounded values : ∀ t seen t',
  bounded_by t seen → sum_outcomes t values = inr t' →
  bounded_by t' (seen ++ values).
Proof.
  induction values as [|c values IH]; intros t seen t' Hinv; simpl.
  - intros [= <-]. by rewrite app_nil_r.
  - destruct (add_outcome t c) as [e|t1] eqn:E1; [done|]. cbn [rbind].
    intros Hrest. rewrite cons_middle, app_assoc.
    eapply IH; [|done]. by eapply add_outcome_bounded.
Qed.

Lemma attained_in_weaken t seen c : attained_in t seen → attained_in t (seen ++ [c]).
Proof.
  intros (H1 & H2 & H3 & H4).
  repeat split.
  - destruct H1 as [?|(c' & a & ? & ?)]; [by left|right].
    exists c', a. split; [|done]. apply elem_of_app. by left.
  - destruct H2 as [?|(c' & ? & ?)]; [by left|right].
    exists c'. split; [|done]. apply elem_of_app. by left.
  - destruct H3 as [?|(c' & a & ? & ?)]; [by left|right].
    exists c', a. split; [|done]. apply elem_of_app. by left.
  - destruct H4 as [?|(c' & ? & ?)]; [by left|right].
    exists c'. split; [|done]. apply elem_of_app. by left.
Qed.

Lemma add_outcome_attained t c t' seen :
  attained_in t seen → add_outcome t c = inr t' → attained_in t' (seen ++ [c]).
Proof.
  intros Hinv. pose proof (attained_in_weaken t seen c Hinv) as (H1 & H2 & H3 & H4).
  assert (Hc : c ∈ seen ++ [c]).
  { apply elem_of_app. right. by apply list_elem_of_singleton. }
  unfold add_outcome.
  destruct (success c) eqn:Hs.
  - destruct (auth_time c) as [a|] eqn:Ea; [|done].
    destruct (py_add _ _); [done|]. cbn [rbind].
    destruct (conn_time c) as [d|] eqn:Ed; [|done].
    destruct (py_add _ _); [done|]. cbn [rbind].
    intros [= <-]. unfold attained_in, py_max, py_min. cbn.
    repeat split.
    + destruct (num_lt_float (max_auth t) a); [|done].
      right. by exists c, a.
    + destruct (a <? min_auth t)%float; [|done]. right. by exists c.
    + destruct (num_lt_float (max_conn t) d); [|done].
      right. by exists c, d.
    + destruct (d <? min_conn t)%float; [|done]. right. by exists c.
  - by intros [= <-].
Qed.

Lemma sum_outcomes_attained values : ∀ t seen t',
  attained_in t seen → sum_outcomes t values = inr t' →
  attained_in t' (seen ++ values).
Proof.
  induction values as [|c values IH]; intros t seen t' Hinv; simpl.
  - intros [= <-]. by rewrite app_nil_r.
  - destruct (add_outcome t c) as [e|t1] eqn:E1; [done|]. cbn [rbind].
    intros Hrest. rewrite cons_middle, app_assoc.
    eapply IH; [|done]. by eapply add_outcome_attained.
Qed.

Lemma summarize_totals {D} values (d : D) r :
  summarize values d = inr r →
  ∃ t, sum_outcomes totals_init values = inr t
       ∧ max_auth_time r = max_auth t ∧ min_auth_time r = min_auth t
       ∧ max_conn_time r = max_conn t ∧ min_conn_time r = min_conn t
       ∧ failed_conns r = total_failed t.
Proof.
  unfold summarize.
  destruct (sum_outcomes totals_init values) as [e|t]; [done|]. cbn [rbind].
  destruct (averages t _) as [e|avg]; [done|]. cbn [rbind].
  intros [= <-]. by exists t.
Qed.

(** ** The report of a call *)

Lemma foldl_dict_set_elem {V} (nrs : dict string V) : ∀ acc kv,
  kv ∈ foldl (λ a nr, dict_set a nr.1 nr.2) acc nrs → kv ∈ acc ∨ kv ∈ nrs.
Proof.
  induction nrs as [|[k v] nrs IH]; intros acc kv; simpl; [by left|].
  intros Hin. destruct (IH _ _ Hin) as [Hacc|Hrest].
  - destruct (dict_set_elem _ _ _ _ Hacc) as [?|Heq]; [by left|].
    right. rewrite Heq. left.
  - right. by right.
Qed.

Lemma summaries_elem input : ∀ nrs name r,
  summaries input = inr nrs → (name, r) ∈ nrs →
  ∃ cs, (name, cs) ∈ input ∧ summarize (dict_values cs) cs = inr r.
Proof.
  induction input as [|[n cs] input IH]; intros nrs name r; simpl.
  - intros [= <-] Hin. by apply elem_of_nil in Hin.
  - destruct (summarize (dict_values cs) cs) as [e|r0] eqn:E0; [done|].
    cbn [rbind]. destruct (summaries input) as [e|rs]; [done|]. cbn [rbind].
    intros [= <-] [Heq|Hin]%elem_of_cons.
    + injection Heq as -> ->. exists cs. split; [left|done].
    + destruct (IH rs name r eq_refl Hin) as (cs' & Hin' & Hs).
      exists cs'. split; [by right|done].
Qed.

(** Every round of a report is the summary of the outcomes it carries,
    which are those of a round of the argument. *)
Lemma report_rounds w p conns rounds cps cw gw graph ty h input rep :
  snapshot h p = inr input →
  by_value (_calculate_stats w p conns rounds cps cw gw graph ty h) = inr rep →
  ∀ name r, (name, r) ∈ round_data rep →
    (name, conn_data r) ∈ input
    ∧ summarize (dict_values (conn_data r)) (conn_data r) = inr r.
Proof.
  intros Hsnap. rewrite (calculate_stats_by_value _ _ _ _ _ _ _ _ _ _ input)
    by done.
  unfold report_of. destruct (summaries input) as [e|nrs] eqn:Es; [done|].
  cbn [rbind]. destruct (if graph then _ else _) as [e|[]]; [done|].
  cbn [rbind]. intros [= <-] name r Hin. cbn [round_data] in Hin.
  apply foldl_dict_set_elem in Hin as [Hin|Hin]; [by apply elem_of_nil in Hin|].
  destruct (summaries_elem _ _ _ _ Es Hin) as (cs & Hcs & Hsum).
  pose proof (summarize_data _ _ _ Hsum) as Hd. by rewrite Hd.
Qed.

(** X9.  In every round of a report, [failed_conns] is the number of the
    outcomes of that round whose [success] is false; it lies between 0
    and the number of outcomes. *)
Theorem failed_conns_counts_failures
    w p conns rounds cps cw gw graph ty h input rep name r :
  snapshot h p = inr input →
  by_value (_calculate_stats w p conns rounds cps cw gw graph ty h) = inr rep →
  (name, r) ∈ round_data rep →
  failed_conns r =
    Z.of_nat (length (filter (λ c, success c = false)
                        (dict_values (conn_data r))))
  ∧ 0 ≤ failed_conns r ≤ dict_len (conn_data r).
Proof.
  intros Hsnap Hcall Hin.
  destruct (report_rounds _ _ _ _ _ _ _ _ _ _ _ _ Hsnap Hcall _ _ Hin)
    as [_ Hsum].
  destruct (summarize_totals _ _ _ Hsum) as (t & Ht & _ & _ & _ & _ & ->).
  rewrite (sum_outcomes_failed_count _ _ _ Ht). simpl.
  split; [done|]. split; [lia|].
  unfold dict_len. apply inj_le.
  etrans; [apply length_filter|]. unfold dict_values. by rewrite length_fmap.
Qed.

Lemma failed_conns_counts_failures_witness :
  ∃ rep r,
    by_value (_calculate_stats smooth_world 8%nat 4 2 (PyFloat 100) 0 0 false
                "SFTP" sample_store) = inr rep
    ∧ dict_get (round_data rep) "round_1" = Some r
    ∧ failed_conns r =
        Z.of_nat (length (filter (λ c, success c = false)
                            (dict_values (conn_data r))))
    ∧ 0 ≤ failed_conns r ≤ dict_len (conn_data r).
Proof.
  eexists. eexists. split; [by vm_compute|]. split; [by vm_compute|].
  eapply (failed_conns_counts_failures smooth_world 8%nat 4 2 (PyFloat 100)
            0 0 false "SFTP" sample_store sample_rounds _ "round_1").
  - exact sample_snapshot.
  - by vm_compute.
  - apply list_elem_of_lookup. by exists 0%nat.
Defined.

(** X10.  No duration of a successful outcome of a round lies above the
    maximum or below the minimum that the report gives for the round,
    for the authentication times and for the connection times; a
    successful outcome in a report carries both durations. *)
Theorem extrema_bound_successful_times
    w p conns rounds cps cw gw graph ty h input rep name r k c :
  snapshot h p = inr input →
  by_value (_calculate_stats w p conns rounds cps cw gw graph ty h) = inr rep →
  (name, r) ∈ round_data rep →
  (k, c) ∈ conn_data r →
  success c = true →
  ∃ a d, auth_time c = Some a ∧ conn_time c = Some d
         ∧ num_lt_float (max_auth_time r) a = false
         ∧ (a <? min_auth_time r)%float = false
         ∧ num_lt_float (max_conn_time r) d = false
         ∧ (d <? min_conn_time r)%float = false.
Proof.
  intros Hsnap Hcall Hin Hc Hs.
  destruct (report_rounds _ _ _ _ _ _ _ _ _ _ _ _ Hsnap Hcall _ _ Hin)
    as [_ Hsum].
  destruct (summarize_totals _ _ _ Hsum) as (t & Ht & -> & -> & -> & -> & _).
  destruct (sum_outcomes_bounded (dict_values (conn_data r)) totals_init [] t) as (_ & _ & Hall);
    [|exact Ht|].
  - split; [by left|]. split; [by left|].
    intros c' Hin'. by apply elem_of_nil in Hin'.
  - apply Hall; [|done]. simpl. unfold dict_values.
    apply list_elem_of_fmap. by exists (k, c).
Qed.

Lemma extrema_bound_successful_times_witness :
  ∃ rep r c,
    by_value (_calculate_stats smooth_world 8%nat 4 2 (PyFloat 100) 0 0 false
                "SFTP" sample_store) = inr rep
    ∧ dict_get (round_data rep) "round_1" = Some r
    ∧ dict_get (conn_data r) 2 = Some c
    ∧ ∃ a d, auth_time c = Some a ∧ conn_time c = Some d
             ∧ num_lt_float (max_auth_time r) a = false
             ∧ (a <? min_auth_time r)%float = false
             ∧ num_lt_float (max_conn_time r) d = false
             ∧ (d <? min_conn_time r)%float = false.
Proof.
  eexists. eexists. eexists.
  split; [by vm_compute|]. split; [by vm_compute|]. split; [by vm_compute|].
  eapply (extrema_bound_successful_times smooth_world 8%nat 4 2 (PyFloat 100)
            0 0 false "SFTP" sample_store sample_rounds _ "round_1" _ 2).
  - exact sample_snapshot.
  - by vm_compute.
  - apply list_elem_of_lookup. by exists 0%nat.
  - apply list_elem_of_lookup. by exists 1%nat.
  - done.
Defined.

(** X11.  The extrema of a round are values of the round: each maximum is the
    int [0] it started as or the duration of a successful outcome of
    the round, each minimum is [float('inf')] or the duration of a
    successful outcome of the round. *)
Theorem extrema_are_attained
    w p conns rounds cps cw gw graph ty h input rep name r :
  snapshot h p = inr input →
  by_value (_calculate_stats w p conns rounds cps cw gw graph ty h) = inr rep →
  (name, r) ∈ round_data rep →
  (max_auth_time r = PyInt 0
   ∨ ∃ k c a, (k, c) ∈ conn_data r ∧ success c = true
              ∧ auth_time c = Some a ∧ max_auth_time r = PyFloat a)
  ∧ (min_auth_time r = infinity
     ∨ ∃ k c, (k, c) ∈ conn_data r ∧ success c = true
              ∧ auth_time c = Some (min_auth_time r))
  ∧ (max_conn_time r = PyInt 0
     ∨ ∃ k c d, (k, c) ∈ conn_data r ∧ success c = true
                ∧ conn_time c = Some d ∧ max_conn_time r = PyFloat d)
  ∧ (min_conn_time r = infinity
     ∨ ∃ k c, (k, c) ∈ conn_data r ∧ success c = true
              ∧ conn_time c = Some (min_conn_time r)).
Proof.
  intros Hsnap Hcall Hin.
  destruct (report_rounds _ _ _ _ _ _ _ _ _ _ _ _ Hsnap Hcall _ _ Hin)
    as [_ Hsum].
  destruct (summarize_totals _ _ _ Hsum) as (t & Ht & -> & -> & -> & -> & _).
  destruct (sum_outcomes_attained (dict_values (conn_data r)) totals_init [] t) as (H1 & H2 & H3 & H4);
    [|exact Ht|].
  { repeat split; by left. }
  assert (Hback : ∀ c, c ∈ [] ++ dict_values (conn_data r) →
                       ∃ k, (k, c) ∈ conn_data r).
  { intros c Hc. simpl in Hc. unfold dict_values in Hc.
    apply list_elem_of_fmap in Hc as ([k c'] & -> & Hc). by exists k. }
  repeat split.
  - destruct H1 as [?|(c & a & Hc & ? & ? & ?)]; [by left|right].
    destruct (Hback c Hc) as [k Hk]. by exists k, c, a.
  - destruct H2 as [?|(c & Hc & ? & ?)]; [by left|right].
    destruct (Hback c Hc) as [k Hk]. by exists k, c.
  - destruct H3 as [?|(c & a & Hc & ? & ? & ?)]; [by left|right].
    destruct (Hback c Hc) as [k Hk]. by exists k, c, a.
  - destruct H4 as [?|(c & Hc & ? & ?)]; [by left|right].
    destruct (Hback c Hc) as [k Hk]. by exists k, c.
Qed.

Lemma extrema_are_attained_witness :
  ∃ rep r,
    by_value (_calculate_stats smooth_world 8%nat 4 2 (PyFloat 100) 0 0 false
                "SFTP" sample_store) = inr rep
    ∧ dict_get (round_data rep) "round_1" = Some r
    ∧ (max_auth_time r = PyInt 0
       ∨ ∃ k c a, (k, c) ∈ conn_data r ∧ success c = true
                  ∧ auth_time c = Some a ∧ max_auth_time r = PyFloat a)
    ∧ (min_auth_time r = infinity
       ∨ ∃ k c, (k, c) ∈ conn_data r ∧ success c = true
                ∧ auth_time c = Some (min_auth_time r))
    ∧ (max_conn_time r = PyInt 0
       ∨ ∃ k c d, (k, c) ∈ conn_data r ∧ success c = true
                  ∧ conn_time c = Some d ∧ max_conn_time r = PyFloat d)
    ∧ (min_conn_time r = infinity
       ∨ ∃ k c, (k, c) ∈ conn_data r ∧ success c = true
                ∧ conn_time c = Some (min_conn_time r)).
Proof.
  eexists. eexists. split; [by vm_compute|]. split; [by vm_compute|].
  eapply (extrema_are_attained smooth_world 8%nat 4 2 (PyFloat 100)
            0 0 false "SFTP" sample_store sample_rounds _ "round_1").
  - exact sample_snapshot.
  - by vm_compute.
  - apply list_elem_of_lookup. by exists 0%nat.
Defined.

(** ** Sharing *)

Lemma extend_fresh {V} (f : nat → V) names : ∀ acc n,
  NoDup (acc.*1 ++ names) →
  extend f acc names n = acc ++ zip names (f <$> seq n (length names)).
Proof.
  induction names as [|name names IH]; intros acc n Hnd; simpl.
  - by rewrite app_nil_r.
  - rewrite dict_set_fresh.
    + rewrite IH.
      * by rewrite <- app_assoc.
      * rewrite fmap_app. simpl. by rewrite <- app_assoc.
    + apply NoDup_app in Hnd as (_ & Hdis & _). intros Hin.
      apply (Hdis name Hin). left.
Qed.

Lemma stats_list_lookup h items : ∀ rs i name l,
  stats_list h items = inr rs → items !! i = Some (name, l) →
  ∃ r, rs !! i = Some r ∧ round_stats_of h l = inr r.
Proof.
  induction items as [|[n0 l0] items IH]; intros rs i name l; simpl; [done|].
  destruct (round_stats_of h l0) as [e|r0] eqn:E0; [done|]. cbn [rbind].
  destruct (stats_list h items) as [e|rs0]; [done|]. cbn [rbind].
  intros [= <-]. destruct i as [|i]; simpl.
  - intros [= -> ->]. by exists r0.
  - intros Hi. by apply (IH rs0 i name l).
Qed.

Lemma round_stats_of_data h l r : round_stats_of h l = inr r → conn_data r = l.
Proof.
  unfold round_stats_of. destruct (round_at h l) as [e|d]; [done|].
  cbn [rbind]. destruct (outcomes_at h d) as [e|cs]; [done|]. cbn [rbind].
  apply summarize_data.
Qed.

Lemma stats_list_length h items : ∀ rs,
  stats_list h items = inr rs → length rs = length items.
Proof.
  induction items as [|[n0 l0] items IH]; intros rs; simpl.
  - by intros [= <-].
  - destruct (round_stats_of h l0) as [e|r0]; [done|]. cbn [rbind].
    destruct (stats_list h items) as [e|rs0]; [done|]. cbn [rbind].
    intros [= <-]. simpl. f_equal. by apply IH.
Qed.

(** X12.  The report does not copy the outcomes: under ["conn_data"], each
    round of the dictionary a call returns holds the very dictionary
    that [perf_times] holds under the name of that round. *)
Theorem calculate_stats_shares_conn_data
    w p conns rounds cps cw gw graph ty h items stats hf name l :
  rounds_at h p = inr items →
  dict_wf items →
  _calculate_stats w p conns rounds cps cw gw graph ty h = (inr stats, hf) →
  (name, l) ∈ items →
  ∃ r, lookup_round hf stats name = Some r ∧ conn_data r = l.
Proof.
  intros Hp Hwf Hcall Hin.
  assert (Hfalse :
    _calculate_stats w p conns rounds cps cw gw false ty h = (inr stats, hf)).
  { destruct graph; [|done]. rewrite calculate_stats_graph in Hcall.
    destruct (_calculate_stats w p conns rounds cps cw gw false ty h)
      as [[e|l0] hf0]; [by inversion Hcall|].
    destruct (rbind _ _) as [e|[]]; by inversion Hcall. }
  pose proof (calculate_stats_run w p conns rounds cps cw gw ty h items Hp)
    as Hrun.
  destruct (stats_list h items) as [e|rs] eqn:Hrs.
  { rewrite Hfalse in Hrun. done. }
  rewrite Hfalse in Hrun. injection Hrun as -> ->.
  apply list_elem_of_lookup in Hin as [i Hi].
  destruct (stats_list_lookup h items rs i name l Hrs Hi) as (r & Hr & Hof).
  exists r. split; [|by eapply round_stats_of_data].
  unfold lookup_round. rewrite list_lookup_middle by done.
  unfold stats_literal at 1. cbn [round_data].
  rewrite lookup_app_r by lia.
  replace (S (length h) - length h)%nat with 1%nat by lia.
  cbn [lookup list_lookup].
  rewrite (extend_fresh id _ []) by done. cbn [app].
  rewrite (dict_get_elem _ name (S (S (length h)) + i)%nat).
  - rewrite lookup_app_r by lia.
    replace (S (S (length h)) + i - length h)%nat with (S (S i)) by lia.
    change ((?a :: ?b :: ?t) !! S (S i)) with (t !! i).
    by rewrite list_lookup_fmap, Hr.
  - rewrite fst_zip; [done|]. by rewrite !length_fmap, length_seq.
  - apply list_elem_of_lookup. exists i. apply lookup_zip_with_Some.
    exists name, (S (S (length h)) + i)%nat. split; [done|].
    split; [by rewrite list_lookup_fmap, Hi|].
    rewrite list_lookup_fmap, lookup_seq_lt; [done|].
    rewrite length_fmap. by eapply lookup_lt_Some.
Qed.

Lemma calculate_stats_shares_conn_data_witness :
  ∃ stats hf,
    _calculate_stats smooth_world 8%nat 4 2 (PyFloat 100) 0 0 true "SFTP"
      sample_store = (inr stats, hf)
    ∧ ∃ r, lookup_round hf stats "round_2" = Some r ∧ conn_data r = 7%nat.
Proof.
  eexists. eexists. split; [by vm_compute|].
  eapply (calculate_stats_shares_conn_data smooth_world 8%nat 4 2
            (PyFloat 100) 0 0 true "SFTP" sample_store
            [("round_1", 4%nat); ("round_2", 7%nat)]).
  - done.
  - unfold dict_wf. apply (bool_decide_unpack _). by vm_compute.
  - by vm_compute.
  - apply list_elem_of_lookup. by exists 1%nat.
Defined.

(** ** The runner at its edges *)

Lemma dict_wf_functional {K V} (d : dict K V) k v v' :
  NoDup d.*1 → (k, v) ∈ d → (k, v') ∈ d → v = v'.
Proof.
  induction d as [|[k0 v0] d IH]; simpl; intros Hnd Hin Hin'.
  - by apply elem_of_nil in Hin.
  - apply NoDup_cons in Hnd as [Hk0 Hnd].
    apply elem_of_cons in Hin as [Heq|Hin];
      apply elem_of_cons in Hin' as [Heq'|Hin'].
    + congruence.
    + injection Heq as -> ->. destruct Hk0.
      apply list_elem_of_fmap. by exists (k0, v').
    + injection Heq' as -> ->. destruct Hk0.
      apply list_elem_of_fmap. by exists (k0, v).
    + by apply IH.
Qed.

(** X13.  The comprehension of lines 305 and 317 never fails on a dictionary:
    it returns the same items, each id with its own outcome, in
    ascending order of the ids. *)
Theorem sorted_by_id_sorts times :
  dict_wf times →
  ∃ sorted, sorted_by_id times = inr sorted
            ∧ sorted ≡ₚ times
            ∧ dict_wf sorted
            ∧ StronglySorted Z.le (dict_keys sorted).
Proof.
  intros Hwf. unfold sorted_by_id.
  pose proof (merge_sort_Permutation Z.le (dict_keys times)) as Hperm.
  destruct (comprehension_spec times (merge_sort Z.le (dict_keys times)) [])
    as (new & Hnew & Hk & Hall).
  - simpl. by rewrite Hperm.
  - intros k Hin. by rewrite <- Hperm.
  - exists new. split; [by rewrite Hnew|].
    assert (Hnd : dict_wf new).
    { unfold dict_wf. rewrite Hk, Hperm. exact Hwf. }
    split; [|split; [done|]].
    + apply NoDup_Permutation.
      * by eapply NoDup_fmap_1.
      * by eapply NoDup_fmap_1.
      * intros [k c]. split; [by apply Hall|]. intros Hin.
        assert (Hkin : k ∈ dict_keys new).
        { rewrite Hk, Hperm. unfold dict_keys. apply list_elem_of_fmap.
          by exists (k, c). }
        unfold dict_keys in Hkin.
        apply list_elem_of_fmap in Hkin as ([k' c'] & Heq & Hin').
        simpl in Heq. subst k'.
        pose proof (Hall _ Hin') as Hin''.
        by rewrite (dict_wf_functional times k c c' Hwf Hin Hin'').
    + rewrite Hk. apply StronglySorted_merge_sort; apply _.
Qed.

Lemma sorted_by_id_sorts_witness :
  ∃ sorted,
    sorted_by_id [ (3, failed_stat 3 (Exn OSError "Connection refused"));
                   (1, succeeded 1 0.1 1.5);
                   (2, succeeded 2 0.2 2.5) ] = inr sorted
    ∧ sorted ≡ₚ [ (3, failed_stat 3 (Exn OSError "Connection refused"));
                  (1, succeeded 1 0.1 1.5);
                  (2, succeeded 2 0.2 2.5) ]
    ∧ dict_wf sorted
    ∧ StronglySorted Z.le (dict_keys sorted).
Proof.
  apply (sorted_by_id_sorts
           [ (3, failed_stat 3 (Exn OSError "Connection refused"));
             (1, succeeded 1 0.1 1.5);
             (2, succeeded 2 0.2 2.5) ]).
  unfold dict_wf. apply (bool_decide_unpack _). by vm_compute.
Defined.

(** X14.  With [rounds <= 0] the loop over [range(rounds)] is empty: no round
    is started, nothing is launched, the speed is not even divided by,
    and the statistics are those of a report without a round, with
    [total_conns] the product [conns * rounds].  Without [graph] the run
    returns that report.  With [graph] the report goes to [gen_graph]
    first, which asks matplotlib for a figure of zero columns and then
    shows it: the run returns the report if the chart raises nothing,
    and ends in the exception of the chart otherwise. *)
Theorem stress_without_rounds
    w fuel self conns cw gw cps sftp ls rounds graph ty h :
  rounds ≤ 0 →
  ∃ stats hf,
    report_at hf stats = inr (stats_literal conns rounds cps cw gw ty [])
    ∧ stress w fuel conns cw gw cps sftp ls self rounds graph ty h
      = (match (if graph
                then gen_graph w (stats_literal conns rounds cps cw gw ty [])
                else inr tt) with
         | inr _ => Finished (stats, {| instance := self; started := [];
                                        launched := [] |})
         | inl e => Crashed e
         end, hf)
    ∧ ∀ plt,
        Chart.gen_graph plt (stats_literal conns rounds cps cw gw ty [])
        = (_ ←ᵣ Chart.subplots plt 0;
           _ ←ᵣ Chart.show plt;
           inr ([], Chart.Shown)).
Proof.
  intros Hr.
  pose proof (calculate_stats_run w (length h) conns rounds cps cw gw ty
                (h ++ [RoundsDict []]) []) as Hrun.
  cbn [stats_list] in Hrun.
  set (hf := (h ++ [RoundsDict []]) ++ _) in Hrun.
  assert (Hrep : report_at hf (length (h ++ [RoundsDict []]))
                 = inr (stats_literal conns rounds cps cw gw ty [])).
  { unfold report_at, hf. rewrite list_lookup_middle by done.
    unfold stats_literal at 1. cbn [round_data].
    unfold rounds_at. rewrite lookup_app_r by lia.
    replace (S (length (h ++ [RoundsDict []])) - length (h ++ [RoundsDict []]))%nat
      with 1%nat by lia.
    done. }
  exists (length (h ++ [RoundsDict []])), hf. split; [done|]. split; [|done].
  unfold stress, alloc.
  replace (Z.to_nat rounds) with 0%nat by lia. cbn [seq for_stress_rounds].
  destruct graph.
  - rewrite calculate_stats_graph, Hrun.
    + rewrite Hrep. cbn [rbind]. by destruct (gen_graph w _) as [e|[]].
    + unfold rounds_at. by rewrite list_lookup_middle.
  - rewrite Hrun; [done|].
    unfold rounds_at. by rewrite list_lookup_middle.
Qed.

Lemma stress_without_rounds_witness :
  ∃ stats hf,
    report_at hf stats = inr (stats_literal 5 0 (PyFloat 0) 0 0 "SFTP" [])
    ∧ stress (charting Chart.strict_canvas smooth_world) 32 5 0 0 (PyFloat 0)
        true "/" sample_instance 0 true "SFTP" []
      = (Crashed (Exn (OtherException "ValueError")
                    "Number of columns must be a positive integer, not 0"),
         hf)
    ∧ ∀ plt,
        Chart.gen_graph plt (stats_literal 5 0 (PyFloat 0) 0 0 "SFTP" [])
        = (_ ←ᵣ Chart.subplots plt 0;
           _ ←ᵣ Chart.show plt;
           inr ([], Chart.Shown)).
Proof.
  apply (stress_without_rounds (charting Chart.strict_canvas smooth_world) 32
           sample_instance 5 0 0 (PyFloat 0) true "/" 0 true "SFTP" []).
  lia.
Defined.

(** ** The list of usernames *)

Lemma split_nonempty sep s : split sep s ≠ [].
Proof.
  destruct s as [|c s]; simpl; [done|].
  destruct (decide (c = sep)); [done|]. by destruct (split sep s).
Qed.

Lemma split_without_separator sep s :
  contains sep s = false → split sep s = [s].
Proof.
  induction s as [|c s IH]; simpl; [done|].
  destruct (decide (c = sep)); [done|]. intros Hs. by rewrite IH.
Qed.

Lemma split_fields sep s field :
  field ∈ split sep s → contains sep field = false.
Proof.
  revert field. induction s as [|c s IH]; intros field; simpl.
  - by intros ->%list_elem_of_singleton.
  - destruct (decide (c = sep)) as [->|Hne].
    + intros [->|Hin]%elem_of_cons; [done|]. by apply IH.
    + pose proof (split_nonempty sep s) as Hnil.
      destruct (split sep s) as [|f fs]; [done|].
      intros [->|Hin]%elem_of_cons.
      * simpl. rewrite decide_False by done. apply IH. left.
      * apply IH. by right.
Qed.

Lemma split_cons_field sep field rest :
  contains sep field = false →
  split sep (field +:+ String sep rest) = field :: split sep rest.
Proof.
  induction field as [|c field IH]; simpl.
  - intros _. by rewrite decide_True.
  - destruct (decide (c = sep)); [done|]. intros Hf. by rewrite IH.
Qed.

Lemma contains_app_separator sep field rest :
  contains sep (field +:+ String sep rest) = true.
Proof.
  induction field as [|c field IH]; simpl.
  - by rewrite decide_True.
  - by destruct (decide (c = sep)).
Qed.

Lemma split_join sep fields :
  fields ≠ [] →
  Forall (λ field, contains sep field = false) fields →
  split sep (join sep fields) = fields.
Proof.
  induction fields as [|field fields IH]; [done|]. intros _ Hall.
  apply Forall_cons in Hall as [Hf Hall].
  destruct fields as [|field' fields].
  - simpl. by apply split_without_separator.
  - change (join sep (field :: field' :: fields))
      with (field +:+ String sep (join sep (field' :: fields))).
    rewrite split_cons_field by done. f_equal. by apply IH.
Qed.

Lemma validate_names_fields names :
  validate_names names = filter (λ name, strip name ≠ "") (split ","%char names).
Proof.
  unfold validate_names. destruct (contains ","%char names) eqn:Hc; [done|].
  rewrite split_without_separator by done.
  rewrite filter_cons, filter_nil. by destruct (decide _).
Qed.

(** X15.  Whatever the argument of [-u] is, every name [validate_names]
    returns holds a character that is not whitespace and holds no
    comma; the names are the non-blank fields between the commas, in
    their order and as they were typed. *)
Theorem validate_names_keeps_usable_fields names :
  Forall usable (validate_names names)
  ∧ validate_names names
      = filter (λ name, strip name ≠ "") (split ","%char names).
Proof.
  split; [|apply validate_names_fields].
  rewrite validate_names_fields. apply Forall_forall. intros name Hin.
  apply list_elem_of_filter in Hin as [Hne Hin]. split; [done|].
  by eapply split_fields.
Qed.

(** X16.  Joining names with commas and validating gives the names back:
    every list of names that hold no comma and are not blank is what
    [validate_names] returns for [",".join] of it. *)
Theorem validate_names_join names :
  Forall usable names → validate_names (join ","%char names) = names.
Proof.
  intros Hall. rewrite validate_names_fields.
  destruct names as [|name names]; [done|].
  rewrite split_join.
  - induction Hall as [|n ns [Hn _] _ IH]; [done|].
    rewrite filter_cons. rewrite decide_True by done. by f_equal.
  - done.
  - eapply Forall_impl; [exact Hall|]. by intros n [_ Hn].
Qed.

Lemma validate_names_join_witness :
  validate_names (join ","%char ["alice"; " bob"; "carol d"])
    = ["alice"; " bob"; "carol d"].
Proof.
  apply (validate_names_join ["alice"; " bob"; "carol d"]).
  repeat constructor; by vm_compute.
Defined.

(** [validate_names] returns the empty list, which stops the program
    with status 2, exactly when every field between the commas is
    blank. *)
Lemma validate_names_empty names :
  validate_names names = [] ↔
  ∀ field, field ∈ split ","%char names → strip field = "".
Proof.
  rewrite validate_names_fields. split.
  - intros Hnil field Hin. destruct (decide (strip field = "")) as [|Hne]; [done|].
    assert (Hf : field ∈ filter (λ name, strip name ≠ "") (split ","%char names)).
    { by apply list_elem_of_filter. }
    rewrite Hnil in Hf. by apply elem_of_nil in Hf.
  - intros Hall. induction (split ","%char names) as [|f fs IH]; [done|].
    rewrite filter_cons. rewrite decide_False.
    + apply IH. intros field Hin. apply Hall. by right.
    + intros Hne. apply Hne. apply Hall. left.
Qed.

(** ** The chart *)

Lemma chart_for_rounds_short plt target cps name r items :
  (name, r) ∈ items → dict_len (conn_data r) < 2 →
  ∀ i drawn0 drawn,
    Chart.for_rounds plt target cps items i drawn0 ≠ inr (drawn, Chart.Shown).
Proof.
  intros Hin Hshort.
  induction items as [|[n0 r0] items IH]; intros i drawn0 drawn.
  - by apply elem_of_nil in Hin.
  - cbn [Chart.for_rounds].
    destruct (Z.ltb_spec (dict_len (conn_data r0)) 2) as [Hlt|Hge]; [done|].
    apply elem_of_cons in Hin as [Heq|Hin]; [injection Heq as -> ->; lia|].
    destruct (Chart.collect _ _) as [e|a]; [done|]. cbn [rbind].
    destruct (Chart.plot_round _ _ _ _ _ _ _) as [e|[]]; [done|]. cbn [rbind].
    by apply IH.
Qed.

(** X17.  [gen_graph] shows a chart only when every round holds at least two
    outcomes: one round with fewer makes the call return at line 27,
    before [plt.show()], whatever was plotted for the rounds before it
    and whatever matplotlib does. *)
Theorem chart_needs_two_outcomes_per_round plt data name r drawn :
  (name, r) ∈ round_data data →
  dict_len (conn_data r) < 2 →
  Chart.gen_graph plt data ≠ inr (drawn, Chart.Shown).
Proof.
  intros Hin Hshort. unfold Chart.gen_graph.
  destruct (Chart.subplots plt _) as [e|[]]; [done|]. cbn [rbind].
  by eapply chart_for_rounds_short.
Qed.

Lemma chart_needs_two_outcomes_per_round_witness :
  Chart.gen_graph Chart.canvas lonely_report = inr ([], Chart.NotEnoughData)
  ∧ Chart.gen_graph Chart.canvas lonely_report ≠ inr ([], Chart.Shown).
Proof.
  split; [by vm_compute|].
  eapply (chart_needs_two_outcomes_per_round Chart.canvas lonely_report
            "round_1").
  - apply list_elem_of_lookup. by exists 0%nat.
  - by vm_compute.
Defined.

Lemma chart_collect_agree values : ∀ a t seen t',
  Chart.agree a t seen → sum_outcomes t values = inr t' →
  ∃ a', Chart.collect values a = inr a' ∧ Chart.agree a' t' (seen ++ values).
Proof.
  induction values as [|c values IH]; intros a t seen t' Hagree; simpl.
  - intros [= <-]. exists a. by rewrite app_nil_r.
  - destruct (add_outcome t c) as [e|t1] eqn:E1; [done|]. cbn [rbind].
    intros Hrest.
    replace (seen ++ c :: values) with ((seen ++ [c]) ++ values)
      by (by rewrite <- app_assoc).
    destruct Hagree as (Hx & Hy1 & Hy2 & Hf & Hn & Hm).
    unfold add_outcome in E1. destruct (success c) eqn:Hs.
    + destruct (auth_time c) as [au|]; [|done].
      destruct (py_add _ _); [done|]. cbn [rbind] in E1.
      destruct (conn_time c) as [d|]; [|done].
      destruct (py_add _ _); [done|]. cbn [rbind] in E1.
      injection E1 as <-.
      eapply IH; [|exact Hrest]. unfold Chart.agree.
      cbn [Chart.x_axis Chart.y1_axis Chart.y2_axis Chart.failed
           Chart.max_time max_conn total_failed].
      rewrite !length_app, fmap_app, filter_app, Hx, Hy1, Hy2, Hm.
      rewrite filter_cons, filter_nil, decide_False by congruence.
      rewrite app_nil_r. by repeat split.
    + injection E1 as <-.
      eapply IH; [|exact Hrest]. unfold Chart.agree.
      cbn [Chart.x_axis Chart.y1_axis Chart.y2_axis Chart.failed
           Chart.max_time max_conn total_failed].
      rewrite !length_app, !fmap_app, filter_app, Hx, Hy1, Hy2, Hm.
      rewrite filter_cons, filter_nil, decide_True by done.
      rewrite fmap_app, <- Hf. cbn [length fmap list_fmap].
      repeat split; try done. lia.
Qed.

Lemma chart_collect_report {D} values (d : D) r :
  summarize values d = inr r →
  ∃ a, Chart.collect values Chart.points_init = inr a
       ∧ Chart.x_axis a = conn_id <$> values
       ∧ length (Chart.y1_axis a) = length values
       ∧ length (Chart.y2_axis a) = length values
       ∧ Chart.failed a = conn_id <$> filter (λ c, success c = false) values
       ∧ Z.of_nat (length (Chart.failed a)) = failed_conns r
       ∧ Chart.max_time a = max_conn_time r.
Proof.
  intros Hsum.
  destruct (summarize_totals _ _ _ Hsum) as (t & Ht & _ & _ & -> & _ & ->).
  destruct (chart_collect_agree values Chart.points_init totals_init [] t)
    as (a & Ha & Hagree); [by repeat split|done|].
  exists a. split; [done|]. exact Hagree.
Qed.

(** X18.  The chart agrees with the statistics.  For every round of a report
    that [_calculate_stats] returned, the lists [gen_graph] builds are
    built without an exception: the x axis holds the ids of the
    outcomes in their order, both y axes have as many points, the red
    marks are the ids of the failed outcomes, as many as [failed_conns],
    and the height of the chart is taken from [max_conn_time]. *)
Theorem chart_agrees_with_statistics
    w p conns rounds cps cw gw graph ty h input rep name r :
  snapshot h p = inr input →
  by_value (_calculate_stats w p conns rounds cps cw gw graph ty h) = inr rep →
  (name, r) ∈ round_data rep →
  ∃ a, Chart.collect (dict_values (conn_data r)) Chart.points_init = inr a
       ∧ Chart.x_axis a = conn_id <$> dict_values (conn_data r)
       ∧ length (Chart.y1_axis a) = length (Chart.x_axis a)
       ∧ length (Chart.y2_axis a) = length (Chart.x_axis a)
       ∧ Chart.failed a
           = conn_id <$> filter (λ c, success c = false)
                           (dict_values (conn_data r))
       ∧ Z.of_nat (length (Chart.failed a)) = failed_conns r
       ∧ Chart.max_time a = max_conn_time r.
Proof.
  intros Hsnap Hcall Hin.
  destruct (report_rounds _ _ _ _ _ _ _ _ _ _ _ _ Hsnap Hcall _ _ Hin)
    as [_ Hsum].
  destruct (chart_collect_report _ _ _ Hsum)
    as (a & Ha & Hx & Hy1 & Hy2 & Hf & Hn & Hm).
  exists a. rewrite Hx, length_fmap. by repeat split.
Qed.

Lemma chart_agrees_with_statistics_witness :
  ∃ rep r,
    by_value (_calculate_stats smooth_world 8%nat 4 2 (PyFloat 100) 0 0 false
                "SFTP" sample_store) = inr rep
    ∧ dict_get (round_data rep) "round_1" = Some r
    ∧ ∃ a, Chart.collect (dict_values (conn_data r)) Chart.points_init = inr a
           ∧ Chart.x_axis a = conn_id <$> dict_values (conn_data r)
           ∧ length (Chart.y1_axis a) = length (Chart.x_axis a)
           ∧ length (Chart.y2_axis a) = length (Chart.x_axis a)
           ∧ Chart.failed a
               = conn_id <$> filter (λ c, success c = false)
                               (dict_values (conn_data r))
           ∧ Z.of_nat (length (Chart.failed a)) = failed_conns r
           ∧ Chart.max_time a = max_conn_time r.
Proof.
  eexists. eexists. split; [by vm_compute|]. split; [by vm_compute|].
  eapply (chart_agrees_with_statistics smooth_world 8%nat 4 2 (PyFloat 100)
            0 0 false "SFTP" sample_store sample_rounds _ "round_1").
  - exact sample_snapshot.
  - by vm_compute.
  - apply list_elem_of_lookup. by exists 0%nat.
Defined.





(** ** From the attempts to the report *)

(** A successful outcome holds what the protocol operation returned. *)
Lemma coroutine_success_payload sftp fuel wait env count user cw ls c :
  coroutine sftp fuel wait env count user cw ls = Some (inr c) →
  success c = true →
  operation env (operand sftp ls) = inr (results c).
Proof.
  unfold coroutine, _sftp, _ssh, try_except, async_with, operate_and_hold,
    operand.
  destruct sftp;
    destruct (connect env user) as [e1|[]];
    destruct (connect_exit env) as [e2|[]];
    destruct (start_sftp_client env) as [e3|[]];
    destruct (sftp_exit env) as [e4|[]];
    try destruct (operation env _) as [e5|r];
    try destruct (sleeping env) as [e6|[]];
    try destruct (wait_phase _ _ _ _) as [t|];
    repeat match goal with
      | |- context [caught ?e] => destruct (caught e)
      end;
    try done; by intros [= <-].
Qed.

(** A failed outcome holds the text of an exception. *)
Lemma coroutine_failure_payload sftp fuel wait env count user cw ls c :
  coroutine sftp fuel wait env count user cw ls = Some (inr c) →
  success c = false →
  ∃ msg, results c = ErrorText msg.
Proof.
  intros Hc Hs.
  pose proof (coroutine_outcome sftp fuel wait env count user cw ls) as Ho.
  rewrite Hc in Ho. destruct Ho as (_ & _ & [[Hs' _]|(e & _ & _ & ->)]).
  - congruence.
  - by eexists.
Qed.

Lemma dict_get_elem_of {V} (d : dict Z V) k v :
  dict_get d k = Some v → (k, v) ∈ d.
Proof.
  induction d as [|[k' v'] d IH]; simpl; [done|].
  destruct (decide (k' = k)) as [->|Hne].
  - intros [= ->]. left.
  - intros Hget. right. by apply IH.
Qed.

Lemma comprehension_elems times ks : ∀ acc out kc,
  comprehension times ks acc = inr out → kc ∈ out → kc ∈ acc ∨ kc ∈ times.
Proof.
  induction ks as [|k ks IH]; intros acc out kc; simpl.
  - intros [= <-] Hin. by left.
  - destruct (dict_get times k) as [v|] eqn:Hget; [|done].
    intros Hc Hin. destruct (IH _ _ _ Hc Hin) as [Hacc|Htimes]; [|by right].
    destruct (dict_set_elem _ _ _ _ Hacc) as [?|Heq]; [by left|].
    right. rewrite Heq. by apply dict_get_elem_of.
Qed.

Lemma sorted_by_id_elems times sorted kc :
  sorted_by_id times = inr sorted → kc ∈ sorted → kc ∈ times.
Proof.
  intros Hs Hin. destruct (comprehension_elems _ _ _ _ _ Hs Hin) as [Hnil|?].
  - by apply elem_of_nil in Hnil.
  - done.
Qed.

Section RunnerOutcomes.
Variable w : world.
Variable fuel : nat.
Variable conns : Z.
Variable conn_wait : Z.
Variable global_wait : Z.
Variable conns_per_sec : num.
Variable sftp : bool.
Variable sftp_ls : string.

Local Abbreviation loop :=
  (for_stress_rounds w fuel conns conn_wait global_wait conns_per_sec sftp
     sftp_ls).
Local Abbreviation own :=
  (own_rounds w conn_wait global_wait sftp sftp_ls).

Lemma loop_outcomes all_rounds : ∀ todo past log h d0 input log' h',
  h !! all_rounds = Some (RoundsDict d0) →
  snapshot_rounds h d0 = inr input →
  NoDup (dict_keys d0 ++ (round_name <$> todo)) →
  own past log input →
  loop all_rounds todo log h = (Finished log', h') →
  ∃ d' input',
    h' !! all_rounds = Some (RoundsDict d')
    ∧ snapshot_rounds h' d' = inr input'
    ∧ own (past ++ todo) log' input'.
Proof.
  induction todo as [|r rest IH];
    intros past log h d0 input log' h' Hall Hsnap Hnd Hown Hrun.
  - simpl in Hrun. injection Hrun as <- <-. exists d0, input.
    by rewrite app_nil_r.
  - rewrite loop_cons in Hrun.
    destruct (_hammer w r (instance log) conns conn_wait global_wait sftp
                sftp_ls fuel conns_per_sec) as [s|e| |] eqn:Hhammer; try done.
    destruct (sorted_by_id (perf_times s)) as [e|times] eqn:Hsorted; [done|].
    destruct (store_round_run times h) as (l & h1 & Hstore & Hpre & Hl & Hread).
    rewrite Hstore in Hrun.
    destruct (Hread h1) as (d & Hd & Hcs); [done|].
    assert (H1 : h1 !! all_rounds = Some (RoundsDict d0))
      by by eapply prefix_lookup_Some.
    unfold setitem_rounds in Hrun. rewrite H1 in Hrun.
    assert (Hfresh : round_name r ∉ dict_keys d0).
    { apply NoDup_app in Hnd as (_ & Hdisj & _). intros Hin.
      apply (Hdisj _ Hin). rewrite fmap_cons. left. }
    rewrite dict_set_fresh in Hrun by done.
    set (h2 := <[all_rounds := RoundsDict (d0 ++ [(round_name r, l)])]> h1)
      in Hrun.
    assert (Hs : same_inputs h1 h2)
      by by apply (same_inputs_write h1 all_rounds (RoundsDict d0)).
    replace (past ++ r :: rest) with ((past ++ [r]) ++ rest)
      by by rewrite <- app_assoc.
    eapply (IH _ _ h2 (d0 ++ [(round_name r, l)])
              (input ++ [(round_name r, times)])); [| | | |exact Hrun].
    + unfold h2. apply list_lookup_insert_eq. by eapply lookup_lt_Some.
    + rewrite snapshot_rounds_app.
      rewrite <- (same_inputs_snapshot_rounds h1 h2) by done.
      rewrite (prefix_snapshot_rounds h h1 d0 input) by done. simpl.
      destruct (Hs l) as [_ <-]. rewrite Hd. simpl.
      rewrite <- (same_inputs_outcomes h1 h2) by done. by rewrite Hcs.
    + unfold dict_keys in *. rewrite fmap_app. simpl.
      rewrite fmap_cons in Hnd. by rewrite <- app_assoc.
    + destruct Hown as [Hlen Hown]. split; cbn [launched].
      { rewrite !length_app. simpl. lia. }
      rewrite zip_with_app by done. apply Forall2_app; [done|].
      constructor; [|constructor]. split; [done|]. cbn [fst snd].
      intros k c Hin. apply (sorted_by_id_elems _ _ _ Hsorted) in Hin.
      destruct (hammer_own_results _ _ _ _ _ _ _ _ _ _ _ Hhammer)
        as [_ Hperf].
      exact (Hperf k c Hin).
Qed.
End RunnerOutcomes.

(** Every round of the report of a run is a round of the run, and holds
    what the attempts of that round returned. *)
Lemma stress_own_rounds
    w fuel self conns cw gw cps sftp ls rounds graph ty h stats log hf rep
    name r :
  stress w fuel conns cw gw cps sftp ls self rounds graph ty h
    = (Finished (stats, log), hf) →
  report_at hf stats = inr rep →
  (name, r) ∈ round_data rep →
  ∃ round ts,
    (round < Z.to_nat rounds)%nat
    ∧ launched log !! round = Some ts
    ∧ own_round w cw gw sftp ls round ts (name, conn_data r).
Proof.
  unfold stress, alloc. intros Hrun Hrep Hin.
  destruct (for_stress_rounds w fuel conns cw gw cps sftp ls (length h)
              (seq 0 (Z.to_nat rounds))
              {| instance := self; started := []; launched := [] |}
              (h ++ [RoundsDict []])) as [[log1|e| |] h1] eqn:Hloop; try done.
  destruct (loop_outcomes w fuel conns cw gw cps sftp ls (length h)
              (seq 0 (Z.to_nat rounds)) []
              {| instance := self; started := []; launched := [] |}
              (h ++ [RoundsDict []]) [] [] log1 h1)
    as (d' & input & Hall & Hsnap & _ & Hown); [| | | |exact Hloop|].
  { by apply list_lookup_middle. }
  { done. }
  { simpl. apply NoDup_fmap_2; [apply round_name_inj|apply NoDup_seq]. }
  { split; [done|]. constructor. }
  assert (Hsnapshot : snapshot h1 (length h) = inr input).
  { unfold snapshot, rounds_at. by rewrite Hall. }
  destruct (_calculate_stats w (length h) conns rounds cps cw gw graph ty h1)
    as [[e|stats1] hf1] eqn:Hcall; [done|].
  injection Hrun as -> -> ->.
  assert (Hby : by_value (_calculate_stats w (length h) conns rounds cps cw gw
                            graph ty h1) = inr rep).
  { rewrite Hcall. exact Hrep. }
  destruct (report_rounds _ _ _ _ _ _ _ _ _ _ _ _ Hsnapshot Hby _ _ Hin)
    as [Hinput _].
  apply list_elem_of_lookup in Hinput as [i Hi].
  destruct (Forall2_lookup_r _ _ _ _ _ Hown Hi) as ([round ts] & Hz & Hr).
  apply lookup_zip_with_Some in Hz as (round' & ts' & [= -> ->] & Hseq & Hts).
  cbn [app] in Hseq. apply lookup_seq in Hseq as [-> Hlt].
  exists i, ts'. split; [done|]. split; [done|]. exact Hr.
Qed.

(** X20.  Every outcome in the report of a run is what an attempt of the run
    returned: a round of the report is one of the [rounds] rounds of the
    run, under its name, and under each id it holds the return value of
    the attempt that the log of the run lists for that round with that
    id. *)
Theorem report_outcomes_are_attempt_results
    w fuel self conns cw gw cps sftp ls rounds graph ty h stats log hf rep
    name r k c :
  stress w fuel conns cw gw cps sftp ls self rounds graph ty h
    = (Finished (stats, log), hf) →
  report_at hf stats = inr rep →
  (name, r) ∈ round_data rep →
  (k, c) ∈ conn_data r →
  ∃ round ts t,
    (round < Z.to_nat rounds)%nat
    ∧ name = round_name round
    ∧ launched log !! round = Some ts
    ∧ t ∈ ts
    ∧ task_id t = k
    ∧ attempt w round cw gw sftp ls t = Some (inr c).
Proof.
  intros Hrun Hrep Hin Hkc.
  destruct (stress_own_rounds _ _ _ _ _ _ _ _ _ _ _ _ _ _ _ _ _ _ _
              Hrun Hrep Hin) as (round & ts & Hlt & Hts & Hname & Hall).
  destruct (Hall k c Hkc) as (t & Ht & Hid & Ha).
  by exists round, ts, t.
Qed.

Lemma report_outcomes_are_attempt_results_witness :
  ∃ stats log hf rep r c,
    stress hostile_world 32 4 0 0 (PyFloat 100) true "/" sample_instance 2
      false "SFTP" [] = (Finished (stats, log), hf)
    ∧ report_at hf stats = inr rep
    ∧ dict_get (round_data rep) "round_2" = Some r
    ∧ dict_get (conn_data r) 3 = Some c
    ∧ ∃ round ts t,
        (round < Z.to_nat 2)%nat
        ∧ "round_2" = round_name round
        ∧ launched log !! round = Some ts
        ∧ t ∈ ts
        ∧ task_id t = 3
        ∧ attempt hostile_world round 0 0 true "/" t = Some (inr c).
Proof.
  do 6 eexists. split; [by vm_compute|]. split; [by vm_compute|].
  split; [by vm_compute|]. split; [by vm_compute|].
  eapply (report_outcomes_are_attempt_results hostile_world 32 sample_instance
            4 0 0 (PyFloat 100) true "/" 2 false "SFTP" []).
  - by vm_compute.
  - by vm_compute.
  - apply list_elem_of_lookup. by exists 1%nat.
  - apply list_elem_of_lookup. by exists 2%nat.
Defined.

(** ** Writing the report *)

Lemma json_of_conn_stat_error c e :
  json_of_conn_stat c = inl e →
  e = Exn TypeError
        "Object of type SSHCompletedProcess is not JSON serializable"
  ∧ ∃ out, results c = Completed out.
Proof.
  unfold json_of_conn_stat, json_of_payload.
  destruct (results c) as [names|out|msg]; try done.
  intros [= <-]. split; [done|]. by exists out.
Qed.

Lemma json_of_conn_data_error d e :
  json_of_conn_data d = inl e →
  e = Exn TypeError
        "Object of type SSHCompletedProcess is not JSON serializable"
  ∧ ∃ k c out, (k, c) ∈ d ∧ results c = Completed out.
Proof.
  induction d as [|[k c] d IH]; simpl; [done|].
  destruct (json_of_conn_stat c) as [e0|j] eqn:Ec; cbn [rbind].
  - intros [= <-]. destruct (json_of_conn_stat_error _ _ Ec) as [-> [out Ho]].
    split; [done|]. exists k, c, out. split; [left|done].
  - destruct (json_of_conn_data d) as [e1|js]; cbn [rbind]; [|done].
    intros [= <-]. destruct (IH eq_refl) as [-> (k' & c' & out & Hin & Ho)].
    split; [done|]. exists k', c', out. split; [by right|done].
Qed.

Lemma json_of_conn_data_completed d k c out :
  (k, c) ∈ d → results c = Completed out →
  json_of_conn_data d
    = inl (Exn TypeError
             "Object of type SSHCompletedProcess is not JSON serializable").
Proof.
  intros Hin Ho. induction d as [|[k0 c0] d IH]; [by apply elem_of_nil in Hin|].
  simpl. destruct (json_of_conn_stat c0) as [e0|j] eqn:Ec; cbn [rbind].
  - by destruct (json_of_conn_stat_error _ _ Ec) as [-> _].
  - apply elem_of_cons in Hin as [Heq|Hin].
    + injection Heq as -> ->. unfold json_of_conn_stat in Ec.
      by rewrite Ho in Ec.
    + by rewrite (IH Hin).
Qed.

Lemma json_of_rounds_error rs e :
  json_of_rounds rs = inl e →
  e = Exn TypeError
        "Object of type SSHCompletedProcess is not JSON serializable"
  ∧ ∃ name r k c out,
      (name, r) ∈ rs ∧ (k, c) ∈ conn_data r ∧ results c = Completed out.
Proof.
  induction rs as [|[name r] rs IH]; simpl; [done|].
  unfold json_of_round at 1.
  destruct (json_of_conn_data (conn_data r)) as [e0|d] eqn:Ed; cbn [rbind].
  - intros [= <-].
    destruct (json_of_conn_data_error _ _ Ed) as [-> (k & c & out & Hin & Ho)].
    split; [done|]. exists name, r, k, c, out. split; [left|done].
  - destruct (json_of_rounds rs) as [e1|js]; cbn [rbind]; [|done].
    intros [= <-].
    destruct (IH eq_refl) as [-> (n' & r' & k & c & out & Hin & Hkc & Ho)].
    split; [done|]. exists n', r', k, c, out. split; [by right|done].
Qed.

Lemma json_of_rounds_completed rs name r k c out :
  (name, r) ∈ rs → (k, c) ∈ conn_data r → results c = Completed out →
  json_of_rounds rs
    = inl (Exn TypeError
             "Object of type SSHCompletedProcess is not JSON serializable").
Proof.
  intros Hin Hkc Ho.
  induction rs as [|[n0 r0] rs IH]; [by apply elem_of_nil in Hin|].
  simpl. destruct (json_of_round r0) as [e0|j] eqn:Er; cbn [rbind].
  - unfold json_of_round in Er.
    destruct (json_of_conn_data (conn_data r0)) as [e1|d] eqn:Ed; [|done].
    cbn [rbind] in Er. injection Er as <-.
    by destruct (json_of_conn_data_error _ _ Ed) as [-> _].
  - apply elem_of_cons in Hin as [Heq|Hin].
    + injection Heq as -> ->. unfold json_of_round in Er.
      by rewrite (json_of_conn_data_completed _ _ _ _ Hkc Ho) in Er.
    + by rewrite (IH Hin).
Qed.

(** ** The program *)

Lemma main_accepted plt o w fuel a self :
  accepted o a self →
  Cli.main plt o w fuel a =
    if bool_decide (lower (Cli.type a) = "sftp")
    then Cli.run o (charting plt w) fuel a true self
    else if bool_decide (lower (Cli.type a) = "ssh")
    then Cli.run o (charting plt w) fuel a false self
    else ([], Cli.Exit 2).
Proof.
  intros (Hread & Husers & t & Ht & Hne & Hinit). unfold Cli.main.
  rewrite Hread. rewrite bool_decide_false by (by intros []).
  destruct (validate_names (Cli.users a)) as [|u us] eqn:Hv; [done|].
  rewrite Ht. destruct t as [|ch t]; [done|]. by rewrite Hinit.
Qed.

(** X22.  The program stops with status 2, before it has opened a connection
    or drawn anything, when no username is left after validation (every
    field between the commas of [-u] is blank), when the target is
    missing or empty, when there is neither a password nor a key file,
    and when the type is neither [sftp] nor [ssh] in any letter case. *)
Theorem main_refuses_unusable_arguments plt o w fuel a :
  Cli.read a = "" →
  refused_arguments o a →
  Cli.main plt o w fuel a = ([], Cli.Exit 2).
Proof.
  intros Hread Href. unfold Cli.main.
  rewrite Hread. rewrite bool_decide_false by (by intros []).
  destruct Href as [Hblank|[Hnone|[Hempty|[[Hpw Hkey]|[Hsftp Hssh]]]]].
  - apply validate_names_empty in Hblank. by rewrite Hblank.
  - rewrite Hnone. by destruct (validate_names _).
  - rewrite Hempty. by destruct (validate_names _).
  - destruct (validate_names _) as [|u us]; [done|].
    destruct (Cli.target a) as [[|ch t]|]; try done.
    unfold __init__.
    assert (Hk : bool_decide
                   ((if Cli.path_exists o (Cli.expanduser o (Cli.key a))
                     then Cli.key a else "") = "") = true).
    { apply bool_decide_eq_true.
      destruct Hkey as [-> | ->]; [done|]. by destruct (Cli.path_exists _ _). }
    rewrite Hk. by destruct Hpw as [->| ->].
  - destruct (validate_names _) as [|u us]; [done|].
    destruct (Cli.target a) as [[|ch t]|]; try done.
    destruct (__init__ _ _ _ _ _ _ _ _ _); [|done].
    by rewrite !bool_decide_false.
Qed.

Lemma main_refuses_unusable_arguments_witness :
  Cli.main Chart.canvas sample_os smooth_world 32 Cli.defaults
    = ([], Cli.Exit 2).
Proof.
  apply main_refuses_unusable_arguments; [done|]. right. by left.
Defined.

(** X23.  With [--type ssh] the statistics of a run in which an attempt
    succeeded cannot be printed: the outcome of that attempt holds the
    completed process of [conn.run], [json.dumps] raises a [TypeError]
    on the report, and the program ends in that exception after all its
    rounds, without a line of statistics. *)
Theorem ssh_statistics_cannot_be_printed
    plt o w fuel a self stats log hf rep name r k c :
  accepted o a self →
  lower (Cli.type a) = "ssh" →
  (∀ round i p, operation (attempts w round i) "dir" = inr p →
                ∃ out, p = Completed out) →
  stress_ssh (charting plt w) fuel self (Cli.connections a)
    (Cli.connection_wait a) (Cli.global_wait a) (Cli.speed a) (Cli.rounds a)
    (Cli.graph a) [] = (Finished (stats, log), hf) →
  report_at hf stats = inr rep →
  (name, r) ∈ round_data rep →
  (k, c) ∈ conn_data r →
  success c = true →
  Cli.main plt o w fuel a
    = ([], Cli.Traceback
             (Exn TypeError
                "Object of type SSHCompletedProcess is not JSON serializable")).
Proof.
  intros Hacc Htype Hrun_ Hstress Hrep Hin Hkc Hs.
  rewrite (main_accepted _ _ _ _ _ _ Hacc), Htype.
  rewrite bool_decide_false by done. rewrite bool_decide_true by done.
  unfold Cli.run. rewrite Hstress, Hrep. unfold Cli.report_run.
  destruct (stress_own_rounds _ _ _ _ _ _ _ _ _ _ _ _ _ _ _ _ _ _ _
              Hstress Hrep Hin) as (round & ts & _ & _ & _ & Hall).
  destruct (Hall k c Hkc) as (t & _ & _ & Ha).
  rewrite attempt_coroutine in Ha.
  apply coroutine_success_payload in Ha; [|done].
  destruct (Hrun_ _ _ _ Ha) as [out Hout].
  unfold json_of_stats.
  by rewrite (json_of_rounds_completed _ _ _ _ _ _ Hin Hkc Hout).
Qed.

Lemma sample_args_accepted : accepted sample_os sample_args cli_instance.
Proof.
  split; [done|]. split; [by vm_compute|].
  exists "target". split; [done|]. split; [done|]. by vm_compute.
Qed.

Lemma sftp_args_accepted : accepted sample_os sftp_args cli_instance.
Proof.
  split; [done|]. split; [by vm_compute|].
  exists "target". split; [done|]. split; [done|]. by vm_compute.
Qed.

Lemma ssh_statistics_cannot_be_printed_witness :
  Cli.main Chart.canvas sample_os completing_world 32 sample_args
    = ([], Cli.Traceback
             (Exn TypeError
                "Object of type SSHCompletedProcess is not JSON serializable")).
Proof.
  eapply (ssh_statistics_cannot_be_printed Chart.canvas sample_os
            completing_world 32 sample_args _ _ _ _ _ "round_1" _ 1).
  - exact sample_args_accepted.
  - by vm_compute.
  - intros round i p [= <-]. by eexists.
  - by vm_compute.
  - by vm_compute.
  - apply list_elem_of_lookup. by exists 0%nat.
  - apply list_elem_of_lookup. by exists 0%nat.
  - done.
Defined.

Lemma json_of_rounds_total rs :
  (∀ name r k c out, (name, r) ∈ rs → (k, c) ∈ conn_data r →
                     results c ≠ Completed out) →
  ∃ js, json_of_rounds rs = inr js.
Proof.
  intros Hall. destruct (json_of_rounds rs) as [e|js] eqn:Ers; [|by exists js].
  destruct (json_of_rounds_error _ _ Ers)
    as [_ (name & r & k & c & out & Hin & Hkc & Ho)].
  by destruct (Hall name r k c out Hin Hkc).
Qed.

(** X24.  With [--type sftp] a finished run always gets to its statistics:
    the outcomes hold directory listings or error texts, so the report
    is written to the file of [-o], when one is given, and the seven
    statistics of every round are printed, without the outcomes; the
    program ends with status 0. *)
Theorem sftp_statistics_are_written_and_printed
    plt o w fuel a self stats log hf rep :
  accepted o a self →
  lower (Cli.type a) = "sftp" →
  (∀ round i p, operation (attempts w round i) (Cli.path a) = inr p →
                ∃ names, p = Listing names) →
  (Cli.output a ≠ "" → Cli.open_w o (Cli.output a) = inr tt) →
  stress_sftp (charting plt w) fuel self (Cli.connections a)
    (Cli.connection_wait a) (Cli.global_wait a) (Cli.path a) (Cli.speed a)
    (Cli.rounds a) (Cli.graph a) [] = (Finished (stats, log), hf) →
  report_at hf stats = inr rep →
  ∃ j, json_of_stats rep = inr j
       ∧ Cli.main plt o w fuel a
         = ((if bool_decide (Cli.output a = "") then []
             else [Cli.Opened (Cli.output a); Cli.Dumped (Cli.output a) j])
            ++ [Cli.Printed (json_of_summary rep)], Cli.Ends).
Proof.
  intros Hacc Htype Hls Hopen Hstress Hrep.
  rewrite (main_accepted _ _ _ _ _ _ Hacc), Htype.
  rewrite bool_decide_true by done.
  unfold Cli.run. rewrite Hstress, Hrep. unfold Cli.report_run.
  destruct (json_of_rounds_total (round_data rep)) as [js Hjs].
  { intros name r k c out Hin Hkc Ho.
    destruct (stress_own_rounds _ _ _ _ _ _ _ _ _ _ _ _ _ _ _ _ _ _ _
                Hstress Hrep Hin) as (round & ts & _ & _ & _ & Hall).
    destruct (Hall k c Hkc) as (t & _ & _ & Ha).
    rewrite attempt_coroutine in Ha.
    destruct (success c) eqn:Hs.
    - apply coroutine_success_payload in Ha; [|done].
      destruct (Hls _ _ _ Ha) as [names Hn]. congruence.
    - apply coroutine_failure_payload in Ha as [msg Hm]; [|done]. congruence. }
  unfold json_of_stats. rewrite Hjs. cbn [rbind].
  eexists. split; [done|].
  case_bool_decide as Hout; [done|]. by rewrite (Hopen Hout).
Qed.

Lemma sftp_statistics_are_written_and_printed_witness :
  ∃ stats log hf rep,
    stress_sftp (charting Chart.canvas smooth_world) 32 cli_instance
      2 0 0 "/" (PyInt 100) 1 false [] = (Finished (stats, log), hf)
    ∧ report_at hf stats = inr rep
    ∧ ∃ j, json_of_stats rep = inr j
           ∧ Cli.main Chart.canvas sample_os smooth_world 32 sftp_args
             = ([Cli.Opened "out.json"; Cli.Dumped "out.json" j;
                 Cli.Printed (json_of_summary rep)], Cli.Ends).
Proof.
  do 4 eexists. split; [by vm_compute|]. split; [by vm_compute|].
  eapply (sftp_statistics_are_written_and_printed Chart.canvas sample_os
            smooth_world 32 sftp_args cli_instance).
  - exact sftp_args_accepted.
  - by vm_compute.
  - intros round i p [= <-]. by eexists.
  - done.
  - by vm_compute.
  - by vm_compute.
Defined.
